(** * The decision graph of minji_archive: validator and runtime engine

    A shallow embedding of
    - [scripts/validate-decisions.mjs]: the command line validator of the
      authored decision graph (checks 1 to 7 of [validate], [setsEqual],
      the statistics block and the exit status);
    - [public/js/engine/GameEngine.js], class [DecisionEngine]: indexing of
      the dataset, [detectGhosts], [makeChoice], the state, history, tape
      and narrative queries, [determineEnding] and the persistence
      functions; class [RelationshipEngine]: the synchronisation with the
      decision engine, phase and tone, callbacks, milestones, tape
      introductions and the summary; class [GameEngine]: the facade over
      the two.

    Conventions of the embedding.
    - The dataset and the saved documents are well-typed JSON: ids are
      strings, arrays are arrays, a [stat] effect carries an integer
      [delta].  A property the code guards with [|| []], [?.] or a
      truthiness test is an [option]: [None] is the absent property.
    - A parsed JSON object is the list of its entries in [Object.entries]
      order; its keys are pairwise distinct ([object_keys_distinct], stated
      where a result needs it).
    - An ES [Map] or [Set] keeps insertion order: a list without duplicate
      keys (module [JsMap]) or elements (module [JsSet]).
    - A plain object used as a map ([tapeIndex], the stats of
      [#playerState]) is a [gmap] of its own properties, next to the
      members it inherits from [Object.prototype].
    - A method of the engine is a function from the engine and the browser
      (local storage, clock) to an outcome, a value or an exception, and
      the engine and browser it leaves.
    - Numbers are integers ([Z]), [NaN] apart where the code can produce
      it from well-typed data; the integers of a document are those a
      double holds exactly, so that [JSON.parse] reads them as written.
    - The text of a JSON document is identified with the document: a
      [JsonString] stands for every text of its document, whatever the
      layout, and [JSON.stringify(JSON.parse(text))] is a text of the same
      document, in general not [text] itself.
    - A method of the relationship engine or of the facade is a function
      on the page: the decision engine and the browser, the relationship
      state and its stored item, and the two fields of the facade.
    - [fetch] and console output ([printState], [printGraph]) are not
      modelled; neither are [getVariant] of the facade, which parses
      numbers out of condition strings, [getDialogueVariant], and
      [#saveState] of the relationship engine, which nothing calls. *)

From Stdlib Require Import ZArith String List Bool Lia.
From stdpp Require Import base list gmap strings pretty.

Open Scope string_scope.
Open Scope list_scope.

#[local] Set Warnings "-clear-no-such-hyp".

#[local] Set Default Proof Using "Type".

(** ** ES collections *)

Module JsSet.

(** [Set<string>]: the elements in insertion order. *)
Abbreviation t := (list string) (only parsing).

Definition empty : t := [].

Definition has (s : t) (x : string) : bool := bool_decide (x ∈ s).

(** [s.add(x)] *)
Definition add (s : t) (x : string) : t :=
  if has s x then s else s ++ [x].

(** [new Set(iterable)] *)
Definition from_list (l : list string) : t := foldl add empty l.

Definition size (s : t) : nat := length s.

(** [[...s]] *)
Definition spread (s : t) : list string := s.

End JsSet.

Module JsMap.

(** [Map<string, V>]: the entries in insertion order, one per key. *)
Abbreviation t V := (list (string * V)) (only parsing).

Definition empty {V} : t V := [].

Fixpoint get {V} (m : t V) (k : string) : option V :=
  match m with
  | [] => None
  | (k', v) :: m' => if decide (k' = k) then Some v else get m' k
  end.

Definition has {V} (m : t V) (k : string) : bool :=
  match get m k with Some _ => true | None => false end.

(** [m.set(k, v)]: an existing key keeps its position. *)
Fixpoint set {V} (m : t V) (k : string) (v : V) : t V :=
  match m with
  | [] => [(k, v)]
  | (k', v') :: m' =>
      if decide (k' = k) then (k, v) :: m' else (k', v') :: set m' k v
  end.

Definition keys {V} (m : t V) : list string := m.*1.

End JsMap.

(** ** The authored dataset ([decisions.json]) *)

Record ChoiceOption := {
  opt_id : string;
  opt_effects : option (list string)
}.

Record Decision := {
  dec_tape : option string;
  dec_options : option (list ChoiceOption)
}.

(** An effect of the catalog.  A [stat] effect carries an integer [delta];
    [eff_delta] is read for [stat] effects only.  A [stat] effect without
    [delta], which the code would add as [undefined] and so turn the stat
    into [NaN], is outside the typed dataset. *)
Record Effect := {
  eff_type : option string;
  eff_stat : option string;
  eff_delta : Z;
  eff_description : option string;
  eff_consumed_by : option (list string)
}.

Record Consumer := {
  con_tape : option string;
  con_checks : option (list string)
}.

(** [data.decisions || {}], [data.effects || {}], [data.consumers || {}]
    and [data.meta?.tapes || []]. *)
Record Dataset := {
  decisions : list (string * Decision);
  effects : list (string * Effect);
  consumers : list (string * Consumer);
  tapeOrder : list string
}.

(** [x || []] *)
Definition or_empty {A} (x : option (list A)) : list A := default [] x.

(** Own-property lookup [obj[k]] in a parsed JSON object. *)
Definition own {V} (obj : list (string * V)) (k : string) : option V :=
  JsMap.get obj k.

(** ** Plain objects and [Object.prototype]

    [tapeIndex] of the validator and [#playerState] of the engine are
    plain objects read with a computed key, so a key that is not an own
    property is looked up in [Object.prototype]. *)

Definition objectPrototypeKeys : list string :=
  [ "constructor"; "__defineGetter__"; "__defineSetter__"; "hasOwnProperty";
    "__lookupGetter__"; "__lookupSetter__"; "isPrototypeOf";
    "propertyIsEnumerable"; "toString"; "valueOf"; "__proto__";
    "toLocaleString" ].

Definition inherited (k : string) : bool :=
  bool_decide (k ∈ objectPrototypeKeys).

(** [String(undefined)]: a property key that is [undefined]. *)
Definition key_of (k : option string) : string := default "undefined" k.

(** ** The validator: [validate] *)

Inductive Error :=
| BROKEN_EFFECT_REFERENCE (decId optionId effectId : string)
| BROKEN_CONSUMER_REFERENCE (consumerId effectId : string)
| GHOST_DECISION (decisionId : string)
| BACKWARD_DEPENDENCY (consumerTape producerTape : option string)
                      (effectId : string).

Inductive Warning :=
| GHOST_EFFECT (effectId : string) (producers : list string)
| UNUSED_EFFECT (effectId : string)
| UNKNOWN_TAPE (consumerId : string) (consumerTape : option string).

#[global] Instance Error_eq_dec : EqDecision Error.
Proof. solve_decision. Defined.

#[global] Instance Warning_eq_dec : EqDecision Warning.
Proof. solve_decision. Defined.

(** [if (!m.has(k)) m.set(k, []); m.get(k).push(v)] *)
Definition push_to {V} (m : JsMap.t (list V)) (k : string) (v : V)
  : JsMap.t (list V) :=
  let m1 := if JsMap.has m k then m else JsMap.set m k [] in
  JsMap.set m1 k (or_empty (JsMap.get m1 k) ++ [v]).

(** CHECK 1: [producedEffects], effect id to the decision ids producing it,
    one entry per listing of the effect in an option. *)
Definition index_produced (ds : Dataset) : JsMap.t (list string) :=
  foldl (λ m '(decId, decision),
    foldl (λ m option,
      foldl (λ m effectId, push_to m effectId decId)
            m (or_empty (opt_effects option)))
      m (or_empty (dec_options decision)))
    JsMap.empty (decisions ds).

(** CHECK 2: [consumedEffects], effect id to the consumer ids checking it. *)
Definition index_consumed (ds : Dataset) : JsMap.t (list string) :=
  foldl (λ m '(consumerId, consumer),
    foldl (λ m effectId, push_to m effectId consumerId)
          m (or_empty (con_checks consumer)))
    JsMap.empty (consumers ds).

(** [allEffectIds = new Set(Object.keys(effects))] *)
Definition allEffectIds (ds : Dataset) : JsSet.t :=
  JsSet.from_list (effects ds).*1.

(** CHECK 3: broken references. *)
Definition check_broken_effects (ds : Dataset) : list Error :=
  flat_map (λ '(decId, decision),
    flat_map (λ option,
      flat_map (λ effectId,
        if JsSet.has (allEffectIds ds) effectId then []
        else [BROKEN_EFFECT_REFERENCE decId (opt_id option) effectId])
        (or_empty (opt_effects option)))
      (or_empty (dec_options decision)))
    (decisions ds).

Definition check_broken_consumers (ds : Dataset) : list Error :=
  flat_map (λ '(consumerId, consumer),
    flat_map (λ effectId,
      if JsSet.has (allEffectIds ds) effectId then []
      else [BROKEN_CONSUMER_REFERENCE consumerId effectId])
      (or_empty (con_checks consumer)))
    (consumers ds).

(** [!x?.length] for an optional array. *)
Definition no_length {A} (x : option (list A)) : bool :=
  match x with
  | Some (_ :: _) => false
  | _ => true
  end.

(** [x && x.length > 0] for an optional array. *)
Definition has_length {A} (x : option (list A)) : bool :=
  match x with
  | Some (_ :: _) => true
  | _ => false
  end.

(** [effect?.type === t], with [effect = effects[effectId]].  The members
    of [Object.prototype] have none of the properties read from [effect],
    so an inherited [effects[effectId]] reads like an absent one. *)
Definition type_is (effect : option Effect) (t : string) : bool :=
  bool_decide (effect ≫= eff_type = Some t).

(** CHECK 4: ghost effects (produced but never consumed). *)
Definition check_ghost_effects (ds : Dataset) : list Warning :=
  let consumedEffects := index_consumed ds in
  flat_map (λ '(effectId, producers),
    let effect := own (effects ds) effectId in
    let effectConsumers := or_empty (JsMap.get consumedEffects effectId) in
    if type_is effect "stat" then []
    else if type_is effect "arc" then []
    else if (length effectConsumers =? 0)%nat
            && no_length (effect ≫= eff_consumed_by)
    then
      if has_length (effect ≫= eff_consumed_by) then []
      else [GHOST_EFFECT effectId producers]
    else [])
    (index_produced ds).

(** CHECK 5: unused effects (defined but never produced). *)
Definition check_unused_effects (ds : Dataset) : list Warning :=
  flat_map (λ effectId,
    if JsMap.has (index_produced ds) effectId then []
    else [UNUSED_EFFECT effectId])
    (JsSet.spread (allEffectIds ds)).

(** [setsEqual(a, b)] *)
Definition setsEqual (a b : JsSet.t) : bool :=
  if negb (JsSet.size a =? JsSet.size b)%nat then false
  else forallb (λ item, JsSet.has b item) a.

(** [arr.every((x, i, arr) => f(x, i, arr))] *)
Definition every {A} (f : A → nat → list A → bool) (arr : list A) : bool :=
  forallb id (imap (λ i x, f x i arr) arr).

(** [decision.options?.map(opt => new Set(opt.effects || [])) || []] *)
Definition optionEffectSets (decision : Decision) : list JsSet.t :=
  or_empty ((λ options,
    map (λ opt, JsSet.from_list (or_empty (opt_effects opt))) options)
    <$> dec_options decision).

Definition allIdentical (sets : list JsSet.t) : bool :=
  every (λ set i arr,
    if (i =? 0)%nat then true
    else match arr !! 0%nat with
         | Some first => setsEqual set first
         | None => false
         end) sets.

(** CHECK 6: ghost decisions (all options produce identical effects). *)
Definition check_ghost_decisions (ds : Dataset) : list Error :=
  flat_map (λ '(decId, decision),
    let sets := optionEffectSets decision in
    if (2 <=? length sets)%nat then
      if allIdentical sets then [GHOST_DECISION decId] else []
    else [])
    (decisions ds).

(** The value read by [tapeIndex[tape]]. *)
Inductive TapeIdx :=
| IdxNumber (i : nat)
| IdxInherited (k : string)
| IdxUndefined.

(** [tapeIndex[tape] = i] on the plain object [tapeIndex]: an own property,
    except for the key [__proto__], whose setter ignores a number. *)
Definition tape_assign (tapeIndex : gmap string nat) (tape : string) (i : nat)
  : gmap string nat :=
  if decide (tape = "__proto__") then tapeIndex else <[tape := i]> tapeIndex.

(** [tapeOrder.forEach((tape, i) => tapeIndex[tape] = i)], counting from
    index [i]. *)
Fixpoint tape_forEach (tapeIndex : gmap string nat) (i : nat)
    (tapeOrder : list string) : gmap string nat :=
  match tapeOrder with
  | [] => tapeIndex
  | tape :: rest => tape_forEach (tape_assign tapeIndex tape i) (S i) rest
  end.

Definition build_tapeIndex (tapeOrder : list string) : gmap string nat :=
  tape_forEach ∅ 0 tapeOrder.

(** [tapeIndex[tape]] *)
Definition tape_lookup (tapeIndex : gmap string nat) (tape : option string)
  : TapeIdx :=
  let k := key_of tape in
  match tapeIndex !! k with
  | Some i => IdxNumber i
  | None => if inherited k then IdxInherited k else IdxUndefined
  end.

(** The string a member of [Object.prototype] converts to: [__proto__]
    reads [Object.prototype] itself, the other keys read built-in
    functions ([constructor] is the function [Object]). *)
Definition member_to_string (k : string) : string :=
  if decide (k = "__proto__") then "[object Object]"
  else String.append "function "
         (String.append (if decide (k = "constructor") then "Object" else k)
                        "() { [native code] }").

(** [a > b]: numbers compare as numbers; two objects compare their
    strings; an object against a number converts to [NaN]. *)
Definition js_gt (a b : TapeIdx) : bool :=
  match a, b with
  | IdxNumber x, IdxNumber y => (y <? x)%nat
  | IdxInherited x, IdxInherited y =>
      String.ltb (member_to_string y) (member_to_string x)
  | _, _ => false
  end.

Definition is_undefined (a : TapeIdx) : bool :=
  match a with IdxUndefined => true | _ => false end.

(** CHECK 7: tape ordering, the errors. *)
Definition check_tape_order (ds : Dataset) : list Error :=
  let producedEffects := index_produced ds in
  let tapeIndex := build_tapeIndex (tapeOrder ds) in
  flat_map (λ '(consumerId, consumer),
    let consumerTape := con_tape consumer in
    let consumerIdx := tape_lookup tapeIndex consumerTape in
    if is_undefined consumerIdx then []
    else
      flat_map (λ effectId,
        let producers := or_empty (JsMap.get producedEffects effectId) in
        flat_map (λ producerDecId,
          let producerDec := own (decisions ds) producerDecId in
          let producerTape := producerDec ≫= dec_tape in
          let producerIdx := tape_lookup tapeIndex producerTape in
          if negb (is_undefined producerIdx) && js_gt producerIdx consumerIdx
          then [BACKWARD_DEPENDENCY consumerTape producerTape effectId]
          else [])
          producers)
        (or_empty (con_checks consumer)))
    (consumers ds).

(** CHECK 7: tape ordering, the warnings. *)
Definition check_unknown_tapes (ds : Dataset) : list Warning :=
  let tapeIndex := build_tapeIndex (tapeOrder ds) in
  flat_map (λ '(consumerId, consumer),
    if is_undefined (tape_lookup tapeIndex (con_tape consumer))
    then [UNKNOWN_TAPE consumerId (con_tape consumer)]
    else [])
    (consumers ds).

Record Report := {
  errors : list Error;
  warnings : list Warning
}.

(** [validate], on the parsed document: the two lists in the order the
    checks push to them. *)
Definition validate (ds : Dataset) : Report :=
  {| errors := check_broken_effects ds ++ check_broken_consumers ds
                 ++ check_ghost_decisions ds ++ check_tape_order ds;
     warnings := check_ghost_effects ds ++ check_unused_effects ds
                 ++ check_unknown_tapes ds |}.

(** The exit status of the script. *)
Definition exit_status (r : Report) : nat :=
  match errors r with [] => 0 | _ => 1 end.

(** *** The statistics block *)

(** The counters of the statistics block of [validate]. *)
Record Stats := {
  st_decisions : nat;
  st_effects : nat;
  st_options : nat;
  st_ghosts : nat;
  st_broken : nat;
  st_unused : nat
}.

(** [stats.options], incremented once per option in CHECK 1. *)
Definition count_options (ds : Dataset) : nat :=
  foldl (λ n '(decId, decision),
    foldl (λ n option, S n) n (or_empty (dec_options decision)))
    0%nat (decisions ds).

(** [stats.broken], incremented next to every push of CHECK 3. *)
Definition count_broken (ds : Dataset) : nat :=
  let n1 :=
    foldl (λ n '(decId, decision),
      foldl (λ n option,
        foldl (λ n effectId,
          if JsSet.has (allEffectIds ds) effectId then n else S n)
          n (or_empty (opt_effects option)))
        n (or_empty (dec_options decision)))
      0%nat (decisions ds) in
  foldl (λ n '(consumerId, consumer),
    foldl (λ n effectId,
      if JsSet.has (allEffectIds ds) effectId then n else S n)
      n (or_empty (con_checks consumer)))
    n1 (consumers ds).

(** [stats.ghosts], incremented next to the push of CHECK 4. *)
Definition count_ghosts (ds : Dataset) : nat :=
  let consumedEffects := index_consumed ds in
  foldl (λ n '(effectId, producers),
    let effect := own (effects ds) effectId in
    let effectConsumers := or_empty (JsMap.get consumedEffects effectId) in
    if type_is effect "stat" then n
    else if type_is effect "arc" then n
    else if (length effectConsumers =? 0)%nat
            && no_length (effect ≫= eff_consumed_by)
    then
      if has_length (effect ≫= eff_consumed_by) then n
      else S n
    else n)
    0%nat (index_produced ds).

(** [stats.unused], incremented next to the push of CHECK 5. *)
Definition count_unused (ds : Dataset) : nat :=
  foldl (λ n effectId,
    if JsMap.has (index_produced ds) effectId then n else S n)
    0%nat (JsSet.spread (allEffectIds ds)).

(** The object [stats] when the report is printed. *)
Definition statistics (ds : Dataset) : Stats :=
  {| st_decisions := length (decisions ds).*1;
     st_effects := length (effects ds).*1;
     st_options := count_options ds;
     st_ghosts := count_ghosts ds;
     st_broken := count_broken ds;
     st_unused := count_unused ds |}.

(** ** The engine: class [DecisionEngine] *)

Record Memory := {
  mem_id : string;
  mem_description : option string;
  mem_timestamp : Z
}.

Record HistoryEntry := {
  hist_decisionId : string;
  hist_optionId : string;
  hist_timestamp : Z;
  hist_tape : option string
}.

(** A collection property of [#playerState].  The object is written with
    an authored key ([this.#playerState[stat] = ...]), so a collection can
    be overwritten by a number; [None] is [NaN]. *)
Inductive Slot (A : Type) :=
| Live (a : A)
| Overwritten (n : option Z).
Arguments Live {A} a.
Arguments Overwritten {A} n.

(** [#playerState]: the own numeric properties ([trust], [guard],
    [honesty] and [vulnerability]), looked up by name, and the three
    collections. *)
Record PlayerState := {
  stats : gmap string Z;
  activeFlags : Slot (list string);
  memories : Slot (list Memory);
  arcFlags : Slot (list string)
}.

Definition statNames : list string :=
  ["trust"; "guard"; "honesty"; "vulnerability"].

Definition collectionNames : list string :=
  ["activeFlags"; "memories"; "arcFlags"].

(** The object literal of the constructor and of [resetState]. *)
Definition initialPlayerState : PlayerState :=
  {| stats := list_to_map ((λ k, (k, 0%Z)) <$> statNames);
     activeFlags := Live JsSet.empty;
     memories := Live [];
     arcFlags := Live JsSet.empty |}.

Definition set_stats (ps : PlayerState) (s : gmap string Z) : PlayerState :=
  {| stats := s; activeFlags := activeFlags ps;
     memories := memories ps; arcFlags := arcFlags ps |}.

Definition set_activeFlags (ps : PlayerState) (v : Slot (list string))
  : PlayerState :=
  {| stats := stats ps; activeFlags := v;
     memories := memories ps; arcFlags := arcFlags ps |}.

Definition set_memories (ps : PlayerState) (v : Slot (list Memory))
  : PlayerState :=
  {| stats := stats ps; activeFlags := activeFlags ps;
     memories := v; arcFlags := arcFlags ps |}.

Definition set_arcFlags (ps : PlayerState) (v : Slot (list string))
  : PlayerState :=
  {| stats := stats ps; activeFlags := activeFlags ps;
     memories := memories ps; arcFlags := v |}.

(** A value read from [#playerState] with a computed key. *)
Inductive JsValue :=
| VNumber (z : Z)
| VNaN
| VSet (s : list string)
| VArray (l : list Memory)
| VInherited (k : string)
| VUndefined.

Definition slot_value {A} (f : A → JsValue) (s : Slot A) : JsValue :=
  match s with
  | Live a => f a
  | Overwritten (Some n) => VNumber n
  | Overwritten None => VNaN
  end.

(** [this.#playerState[k]] *)
Definition get_property (ps : PlayerState) (k : string) : JsValue :=
  if decide (k = "activeFlags") then slot_value VSet (activeFlags ps)
  else if decide (k = "memories") then slot_value VArray (memories ps)
  else if decide (k = "arcFlags") then slot_value VSet (arcFlags ps)
  else match stats ps !! k with
       | Some v => VNumber v
       | None => if inherited k then VInherited k else VUndefined
       end.

(** [this.#playerState.hasOwnProperty(k)] *)
Definition hasOwnProperty (ps : PlayerState) (k : string) : bool :=
  bool_decide (k ∈ collectionNames) || bool_decide (is_Some (stats ps !! k)).

(** [Math.max(0, Math.min(100, x))] *)
Definition clamp (x : Z) : Z := Z.max 0 (Z.min 100 x).

(** [v + delta] as [Math.min] reads it, [None] for [NaN].  A number adds;
    an object concatenates its string with the digits of [delta]: an
    empty array has the empty string, a [Set] or a non-empty array of
    records a string that is no number. *)
Definition plus_delta (v : JsValue) (delta : Z) : option Z :=
  match v with
  | VNumber z => Some (z + delta)%Z
  | VArray [] => Some delta
  | _ => None
  end.

(** [this.#playerState[k] = n] for a number [n], [None] being [NaN].  A
    collection is replaced by the number.  A stat is never assigned [NaN]:
    the sum of a number and a delta is a number. *)
Definition set_property (ps : PlayerState) (k : string) (n : option Z)
  : PlayerState :=
  if decide (k = "activeFlags") then set_activeFlags ps (Overwritten n)
  else if decide (k = "memories") then set_memories ps (Overwritten n)
  else if decide (k = "arcFlags") then set_arcFlags ps (Overwritten n)
  else from_option (λ z, set_stats ps (<[k := z]> (stats ps))) ps n.

(** The [stat] case of [#applyEffect]:
    [if (ps.hasOwnProperty(stat))
       ps[stat] = Math.max(0, Math.min(100, ps[stat] + delta))]. *)
Definition apply_stat (ps : PlayerState) (stat : option string) (delta : Z)
  : PlayerState :=
  let k := key_of stat in
  if hasOwnProperty ps k
  then set_property ps k (clamp <$> plus_delta (get_property ps k) delta)
  else ps.

(** The private fields of the engine. *)
Record Engine := {
  decisionMap : list (string * Decision);
  effectMap : list (string * Effect);
  consumerMap : list (string * list (string * Consumer));
  producedBy : list (string * string);
  playerState : PlayerState;
  history : list HistoryEntry
}.

Definition set_playerState (e : Engine) (ps : PlayerState) : Engine :=
  {| decisionMap := decisionMap e; effectMap := effectMap e;
     consumerMap := consumerMap e; producedBy := producedBy e;
     playerState := ps; history := history e |}.

Definition set_history (e : Engine) (h : list HistoryEntry) : Engine :=
  {| decisionMap := decisionMap e; effectMap := effectMap e;
     consumerMap := consumerMap e; producedBy := producedBy e;
     playerState := playerState e; history := h |}.

(** The engine of [new DecisionEngine()]. *)
Definition newEngine : Engine :=
  {| decisionMap := JsMap.empty; effectMap := JsMap.empty;
     consumerMap := JsMap.empty; producedBy := JsMap.empty;
     playerState := initialPlayerState; history := [] |}.

(** *** JSON documents

    The text of a JSON document is identified with the document:
    [JSON.parse(JSON.stringify(d))] is [d], and a [JsonString] stands for
    every text of its document, so that [JSON.stringify(JSON.parse(text))]
    and [text] are the same [JsonString] although the two texts may differ
    in layout.  The integers of a document are assumed to be those a double
    holds exactly, which [JSON.parse] reads as written.  What
    [JSON.stringify] does to engine values (a property that is [undefined]
    is dropped, [NaN] is written [null]) is explicit in the [json_of_]
    functions. *)

Inductive JsonMemories :=
| JArray (l : list Memory)
| JNumber (z : Z)
| JNull.

(** The object under [stats] of a saved document: the four stats, each
    possibly absent. *)
Record StatsDoc := {
  sd_trust : option Z;
  sd_guard : option Z;
  sd_honesty : option Z;
  sd_vulnerability : option Z
}.

(** A saved document.  [#saveState] writes [stats], [flags], [memories],
    [arcs] and [history]; [getState] has the four stats at top level
    instead of [stats]. *)
Record SavedState := {
  doc_stats : option StatsDoc;
  doc_trust : option Z;
  doc_guard : option Z;
  doc_honesty : option Z;
  doc_vulnerability : option Z;
  doc_flags : option (list string);
  doc_memories : option JsonMemories;
  doc_arcs : option (list string);
  doc_history : option (list HistoryEntry)
}.

Inductive JsonString :=
| Json (doc : SavedState)
| NotJson.

(** The browser: the item of [localStorage] under [DECISION_KEY], whether
    [setItem] succeeds (it throws when the quota is exceeded), and the
    clock, [dateNow n] being the value of the [n]-th call of [Date.now()]. *)
Record Browser := {
  stored : option JsonString;
  quota_ok : bool;
  dateNow : nat → Z;
  ticks : nat
}.

Definition set_stored (b : Browser) (s : option JsonString) : Browser :=
  {| stored := s; quota_ok := quota_ok b;
     dateNow := dateNow b; ticks := ticks b |}.

Definition tick (b : Browser) : Browser :=
  {| stored := stored b; quota_ok := quota_ok b;
     dateNow := dateNow b; ticks := S (ticks b) |}.

(** *** Methods as state transformers that may throw *)

Inductive Exception :=
| UnknownDecision (decisionId : string)
| UnknownOption (optionId decisionId : string)
| TypeError
| SyntaxError
| QuotaExceeded.

Inductive Outcome (A : Type) :=
| Returned (a : A)
| Thrown (ex : Exception).
Arguments Returned {A} a.
Arguments Thrown {A} ex.

Definition M (A : Type) : Type :=
  Engine * Browser → Outcome A * (Engine * Browser).

#[global] Instance M_ret : MRet M := λ A a s, (Returned a, s).

#[global] Instance M_bind : MBind M := λ A B f m s,
  match m s with
  | (Returned a, s') => f a s'
  | (Thrown ex, s') => (Thrown ex, s')
  end.

Definition throw {A} (ex : Exception) : M A := λ s, (Thrown ex, s).

(** [try { body } catch (e) { handler }] *)
Definition try_catch {A} (body handler : M A) : M A := λ s,
  match body s with
  | (Thrown _, s') => handler s'
  | r => r
  end.

Definition get_engine : M Engine := λ s, (Returned s.1, s).
Definition get_browser : M Browser := λ s, (Returned s.2, s).
Definition put_engine (e : Engine) : M unit := λ s, (Returned (), (e, s.2)).
Definition put_browser (b : Browser) : M unit := λ s, (Returned (), (s.1, b)).

#[global] Instance M_fmap : FMap M := λ A B f m, a ← m; mret (f a).

Definition get_playerState : M PlayerState := playerState <$> get_engine.

(** [Date.now()] *)
Definition Date_now : M Z := λ s,
  (Returned (dateNow s.2 (ticks s.2)), (s.1, tick s.2)).

(** [localStorage.getItem(DECISION_KEY)] *)
Definition getItem : M (option JsonString) := stored <$> get_browser.

(** [localStorage.setItem(DECISION_KEY, text)] *)
Definition setItem (text : JsonString) : M unit :=
  b ← get_browser;
  if quota_ok b then put_browser (set_stored b (Some text))
  else throw QuotaExceeded.

(** [localStorage.removeItem(DECISION_KEY)] *)
Definition removeItem : M unit :=
  b ← get_browser; put_browser (set_stored b None).

Definition JSON_parse (text : JsonString) : M SavedState :=
  match text with
  | Json doc => mret doc
  | NotJson => throw SyntaxError
  end.

Definition JSON_stringify (doc : SavedState) : JsonString := Json doc.

(** Using a collection property as a collection (a method call, a
    spread): a [TypeError] when it holds a number. *)
Definition collection {A} (s : Slot A) : M A :=
  match s with
  | Live a => mret a
  | Overwritten _ => throw TypeError
  end.

(** *** [makeChoice] and [#applyEffect] *)

(** The result of [#applyEffect]. *)
Inductive Applied :=
| AppliedStat (stat : option string) (delta : Z) (newValue : JsValue)
| AppliedFlag (flag : string)
| AppliedMemory (memory : string)
| AppliedArc (arc : string)
| AppliedUnknown (effectId : string).

Definition applyEffect (effectId : string) : M (option Applied) :=
  e ← get_engine;
  match JsMap.get (effectMap e) effectId with
  | None => mret None
  | Some effect =>
      let ps := playerState e in
      if type_is (Some effect) "stat" then
        let stat := eff_stat effect in
        let delta := eff_delta effect in
        let ps' := apply_stat ps stat delta in
        put_engine (set_playerState e ps');;
        mret (Some (AppliedStat stat delta (get_property ps' (key_of stat))))
      else if type_is (Some effect) "flag" then
        flags ← collection (activeFlags ps);
        put_engine (set_playerState e
          (set_activeFlags ps (Live (JsSet.add flags effectId))));;
        mret (Some (AppliedFlag effectId))
      else if type_is (Some effect) "memory" then
        now ← Date_now;
        mems ← collection (memories ps);
        put_engine (set_playerState e
          (set_memories ps (Live (mems ++
             [{| mem_id := effectId;
                 mem_description := eff_description effect;
                 mem_timestamp := now |}]))));;
        mret (Some (AppliedMemory effectId))
      else if type_is (Some effect) "arc" then
        arcs ← collection (arcFlags ps);
        put_engine (set_playerState e
          (set_arcFlags ps (Live (JsSet.add arcs effectId))));;
        mret (Some (AppliedArc effectId))
      else mret (Some (AppliedUnknown effectId))
  end.

(** The object [getState] returns. *)
Record StateView := {
  view_trust : option Z;
  view_guard : option Z;
  view_honesty : option Z;
  view_vulnerability : option Z;
  view_flags : list string;
  view_memories : list Memory;
  view_arcs : list string;
  view_history : list HistoryEntry
}.

Definition getState : M StateView :=
  e ← get_engine;
  let ps := playerState e in
  flags ← collection (activeFlags ps);
  mems ← collection (memories ps);
  arcs ← collection (arcFlags ps);
  mret {| view_trust := stats ps !! "trust";
          view_guard := stats ps !! "guard";
          view_honesty := stats ps !! "honesty";
          view_vulnerability := stats ps !! "vulnerability";
          view_flags := JsSet.spread flags;
          view_memories := mems;
          view_arcs := JsSet.spread arcs;
          view_history := history e |}.

(** [memories: this.#playerState.memories] under [JSON.stringify]. *)
Definition json_of_memories (s : Slot (list Memory)) : JsonMemories :=
  match s with
  | Live l => JArray l
  | Overwritten (Some n) => JNumber n
  | Overwritten None => JNull
  end.

(** [{trust: ps.trust, guard: ps.guard, ...}] under [JSON.stringify]. *)
Definition json_of_stats (ps : PlayerState) : StatsDoc :=
  {| sd_trust := stats ps !! "trust";
     sd_guard := stats ps !! "guard";
     sd_honesty := stats ps !! "honesty";
     sd_vulnerability := stats ps !! "vulnerability" |}.

Definition saveState : M unit :=
  e ← get_engine;
  let ps := playerState e in
  flags ← collection (activeFlags ps);
  arcs ← collection (arcFlags ps);
  let state :=
    {| doc_stats := Some (json_of_stats ps);
       doc_trust := None; doc_guard := None;
       doc_honesty := None; doc_vulnerability := None;
       doc_flags := Some (JsSet.spread flags);
       doc_memories := Some (json_of_memories (memories ps));
       doc_arcs := Some (JsSet.spread arcs);
       doc_history := Some (history e) |} in
  try_catch (setItem (JSON_stringify state)) (mret ()).

Record ChoiceResult := {
  res_decision : string;
  res_option : string;
  res_effects : list (string * Applied);
  res_state : StateView
}.

(** The loop over [option.effects || []], pushing to [appliedEffects]. *)
Fixpoint apply_effects (effectIds : list string)
    (appliedEffects : list (string * Applied)) : M (list (string * Applied)) :=
  match effectIds with
  | [] => mret appliedEffects
  | effectId :: rest =>
      result ← applyEffect effectId;
      apply_effects rest
        (match result with
         | Some r => appliedEffects ++ [(effectId, r)]
         | None => appliedEffects
         end)
  end.

Definition makeChoice (decisionId optionId : string) : M ChoiceResult :=
  e ← get_engine;
  match JsMap.get (decisionMap e) decisionId with
  | None => throw (UnknownDecision decisionId)
  | Some decision =>
      match dec_options decision
              ≫= List.find (λ o, bool_decide (opt_id o = optionId)) with
      | None => throw (UnknownOption optionId decisionId)
      | Some option =>
          now ← Date_now;
          put_engine (set_history e (history e ++
            [{| hist_decisionId := decisionId;
                hist_optionId := optionId;
                hist_timestamp := now;
                hist_tape := dec_tape decision |}]));;
          appliedEffects ← apply_effects (or_empty (opt_effects option)) [];
          saveState;;
          state ← getState;
          mret {| res_decision := decisionId;
                  res_option := optionId;
                  res_effects := appliedEffects;
                  res_state := state |}
      end
  end.

(** *** State queries *)

Definition hasFlag (flagId : string) : M bool :=
  ps ← get_playerState;
  flags ← collection (activeFlags ps);
  mret (JsSet.has flags flagId).

(** Truthiness of a property value. *)
Definition truthy (v : JsValue) : bool :=
  match v with
  | VNumber z => negb (z =? 0)%Z
  | VNaN | VUndefined => false
  | VSet _ | VArray _ | VInherited _ => true
  end.

(** [return this.#playerState[statName] || 0] *)
Definition getStat (statName : string) : M JsValue :=
  ps ← get_playerState;
  let v := get_property ps statName in
  mret (if truthy v then v else VNumber 0).

Definition getMemories : M (list Memory) :=
  ps ← get_playerState; collection (memories ps).

Definition getHistory : M (list HistoryEntry) := history <$> get_engine.

(** *** [determineEnding] *)

Record Ending := {
  end_id : option string;
  end_requires : option (list string);
  end_min_trust : option Z;
  end_min_guard : option Z;
  end_description : option string
}.

(** The argument of [determineEnding]: an array, or an object keyed by
    ending id given by its entries. *)
Inductive Endings :=
| EndingsArray (l : list Ending)
| EndingsObject (entries : list (string * Ending)).

(** [Object.entries(endings)]: the keys of an array are its indices. *)
Definition Object_entries (endings : Endings) : list (string * Ending) :=
  match endings with
  | EndingsArray l => imap (λ (i : nat) ending, (pretty i, ending)) l
  | EndingsObject entries => entries
  end.

(** [arr.every(f)] for a predicate that may throw. *)
Fixpoint every_M {A} (f : A → M bool) (arr : list A) : M bool :=
  match arr with
  | [] => mret true
  | x :: rest => f x ≫= λ b : bool, if b then every_M f rest else mret false
  end.

(** [minimum && value < minimum] *)
Definition below (value minimum : option Z) : bool :=
  match minimum, value with
  | Some m, Some v => negb (m =? 0)%Z && (v <? m)%Z
  | _, _ => false
  end.

(** [{ id: endingId, ...ending }] *)
Definition with_id (endingId : string) (ending : Ending) : Ending :=
  {| end_id := Some (default endingId (end_id ending));
     end_requires := end_requires ending;
     end_min_trust := end_min_trust ending;
     end_min_guard := end_min_guard ending;
     end_description := end_description ending |}.

Definition defaultEnding : Ending :=
  {| end_id := Some "default";
     end_requires := None;
     end_min_trust := None;
     end_min_guard := None;
     end_description := Some "The story continues..." |}.

Fixpoint determineEnding_loop (entries : list (string * Ending)) : M Ending :=
  match entries with
  | [] => mret defaultEnding
  | (endingId, ending) :: rest =>
      (match end_requires ending with
        | Some requires =>
            every_M (λ flag,
              hasFlag flag ≫= λ b : bool,
              if b then mret true
              else ps ← get_playerState;
                   arcs ← collection (arcFlags ps);
                   mret (JsSet.has arcs flag)) requires
        | None => mret true
        end) ≫= λ hasRequirements : bool,
      if negb hasRequirements then determineEnding_loop rest
      else
        ps ← get_playerState;
        if below (stats ps !! "trust") (end_min_trust ending)
        then determineEnding_loop rest
        else if below (stats ps !! "guard") (end_min_guard ending)
        then determineEnding_loop rest
        else mret (with_id endingId ending)
  end.

Definition determineEnding (endings : Endings) : M Ending :=
  determineEnding_loop (Object_entries endings).

(** *** Persistence *)

(** The own properties of [state.stats], in the order [#saveState] writes
    them. *)
Definition stats_entries (source : StatsDoc) : list (string * option Z) :=
  [("trust", sd_trust source); ("guard", sd_guard source);
   ("honesty", sd_honesty source); ("vulnerability", sd_vulnerability source)].

(** [Object.assign(this.#playerState, state.stats)]: every property that
    is present in [state.stats] is written. *)
Definition Object_assign (ps : PlayerState) (source : StatsDoc)
  : PlayerState :=
  set_stats ps
    (foldl (λ m '(k, v), from_option (λ z, <[k := z]> m) m v)
           (stats ps) (stats_entries source)).

Arguments Object_assign : simpl never.

(** The four guarded assignments of [#restoreState] to [#playerState];
    each guard is the truthiness of the property of the document. *)
Definition restore_playerState (state : SavedState) (ps : PlayerState)
  : PlayerState :=
  let ps1 := match doc_stats state with
             | Some st => Object_assign ps st
             | None => ps
             end in
  let ps2 := match doc_flags state with
             | Some fl => set_activeFlags ps1 (Live (JsSet.from_list fl))
             | None => ps1
             end in
  let ps3 := match doc_memories state with
             | Some (JArray l) => set_memories ps2 (Live l)
             | Some (JNumber n) =>
                 if (n =? 0)%Z then ps2
                 else set_memories ps2 (Overwritten (Some n))
             | Some JNull | None => ps2
             end in
  match doc_arcs state with
  | Some ar => set_arcFlags ps3 (Live (JsSet.from_list ar))
  | None => ps3
  end.

Definition restoreState : M unit :=
  try_catch
    (saved ← getItem;
     match saved with
     | None => mret ()
     | Some text =>
         state ← JSON_parse text;
         e ← get_engine;
         put_engine
           (set_history
              (set_playerState e (restore_playerState state (playerState e)))
              (default (history e) (doc_history state)))
     end)
    (mret ()).

Definition resetState : M unit :=
  e ← get_engine;
  put_engine (set_history (set_playerState e initialPlayerState) []);;
  removeItem.

(** [getState()] under [JSON.stringify]. *)
Definition json_of_view (v : StateView) : SavedState :=
  {| doc_stats := None;
     doc_trust := view_trust v;
     doc_guard := view_guard v;
     doc_honesty := view_honesty v;
     doc_vulnerability := view_vulnerability v;
     doc_flags := Some (view_flags v);
     doc_memories := Some (JArray (view_memories v));
     doc_arcs := Some (view_arcs v);
     doc_history := Some (view_history v) |}.

Definition exportState : M JsonString :=
  state ← getState; mret (JSON_stringify (json_of_view state)).

Definition importState (jsonString : JsonString) : M bool :=
  try_catch
    (state ← JSON_parse jsonString;
     setItem (JSON_stringify state);;
     restoreState;;
     mret true)
    (mret false).

(** *** [load] and [detectGhosts] *)

(** The four indexing loops of [load], on the parsed document [data]. *)
Definition index_dataset (data : Dataset) (e : Engine) : Engine :=
  let decisionMap' :=
    foldl (λ m '(id, decision), JsMap.set m id decision)
          (decisionMap e) (decisions data) in
  let effectMap' :=
    foldl (λ m '(id, effect), JsMap.set m id effect)
          (effectMap e) (effects data) in
  let consumerMap' :=
    foldl (λ m '(consumerId, consumer),
      foldl (λ m effectId, push_to m effectId (consumerId, consumer))
            m (or_empty (con_checks consumer)))
      (consumerMap e) (consumers data) in
  let producedBy' :=
    foldl (λ m '(decId, decision),
      foldl (λ m option,
        foldl (λ m effectId, JsMap.set m effectId decId)
              m (or_empty (opt_effects option)))
        m (or_empty (dec_options decision)))
      (producedBy e) decisionMap' in
  {| decisionMap := decisionMap'; effectMap := effectMap';
     consumerMap := consumerMap'; producedBy := producedBy';
     playerState := playerState e; history := history e |}.

Record Ghost := {
  ghost_effectId : string;
  ghost_type : option string;
  ghost_producedBy : option string;
  ghost_description : option string
}.

(** [detectGhosts]: a query of the two indices, no state is written. *)
Definition detectGhosts (e : Engine) : list Ghost :=
  flat_map (λ '(effectId, effect),
    let consumers := or_empty (JsMap.get (consumerMap e) effectId) in
    if type_is (Some effect) "stat" then []
    else if type_is (Some effect) "arc" then []
    else if (length consumers =? 0)%nat
    then [{| ghost_effectId := effectId;
             ghost_type := eff_type effect;
             ghost_producedBy := JsMap.get (producedBy e) effectId;
             ghost_description := eff_description effect |}]
    else [])
    (effectMap e).

(** [load], after the document was fetched and parsed. *)
Definition load (data : Dataset) : M unit :=
  e ← get_engine;
  put_engine (index_dataset data e);;
  restoreState.

(** *** History, tape and narrative queries *)

(** [arr.some(f)] for a predicate that may throw. *)
Fixpoint some_M {A} (f : A → M bool) (arr : list A) : M bool :=
  match arr with
  | [] => mret false
  | x :: rest => f x ≫= λ b : bool, if b then mret true else some_M f rest
  end.

(** [hasAnyFlag(...flagIds)] *)
Definition hasAnyFlag (flagIds : list string) : M bool :=
  some_M (λ f, ps ← get_playerState;
               flags ← collection (activeFlags ps);
               mret (JsSet.has flags f)) flagIds.

(** [hasAllFlags(...flagIds)] *)
Definition hasAllFlags (flagIds : list string) : M bool :=
  every_M (λ f, ps ← get_playerState;
                flags ← collection (activeFlags ps);
                mret (JsSet.has flags f)) flagIds.

(** [hasMemory(memoryId)] *)
Definition hasMemory (memoryId : string) : M bool :=
  ps ← get_playerState;
  mems ← collection (memories ps);
  mret (existsb (λ m, bool_decide (mem_id m = memoryId)) mems).

(** [getLastChoice(decisionId)]: [None] is [null]. *)
Definition getLastChoice (decisionId : string) : M (option HistoryEntry) :=
  e ← get_engine;
  let entries :=
    List.filter (λ h, bool_decide (hist_decisionId h = decisionId))
                (history e) in
  mret (if (0 <? length entries)%nat
        then entries !! (length entries - 1)%nat
        else None).

(** [wasChoiceMade(decisionId, optionId)] *)
Definition wasChoiceMade (decisionId optionId : string) : M bool :=
  e ← get_engine;
  mret (existsb (λ h, bool_decide (hist_decisionId h = decisionId)
                      && bool_decide (hist_optionId h = optionId))
                (history e)).

(** A tape id as a caller passes it: a name, [null] or [undefined]. *)
Inductive TapeId :=
| TapeName (t : string)
| TapeNull
| TapeUndefined.

#[global] Instance TapeId_eq_dec : EqDecision TapeId.
Proof. solve_decision. Defined.

(** [tape === tapeId], for the [tape] property of a decision or of a
    consumer. *)
Definition tape_equals (tape : option string) (tapeId : TapeId) : bool :=
  match tape, tapeId with
  | Some t, TapeName t' => bool_decide (t = t')
  | None, TapeUndefined => true
  | _, _ => false
  end.

(** [x || null] for an optional string: the empty string is falsy. *)
Definition or_null (x : option string) : option string :=
  match x with
  | Some s => if decide (s = "") then None else Some s
  | None => None
  end.

(** An element of the result of [getDecisionsForTape]:
    [{ id, ...decision, chosen }]. *)
Record DecisionView := {
  dv_id : string;
  dv_decision : Decision;
  dv_chosen : option string
}.

(** The loop of [getDecisionsForTape] over the entries of [#decisions],
    pushing to [results]. *)
Fixpoint getDecisionsForTape_loop (tapeId : TapeId)
    (entries : list (string * Decision)) (results : list DecisionView)
  : M (list DecisionView) :=
  match entries with
  | [] => mret results
  | (id, decision) :: rest =>
      if tape_equals (dec_tape decision) tapeId then
        lastChoice ← getLastChoice id;
        getDecisionsForTape_loop tapeId rest
          (results ++ [{| dv_id := id;
                          dv_decision := decision;
                          dv_chosen := or_null (hist_optionId <$> lastChoice) |}])
      else getDecisionsForTape_loop tapeId rest results
  end.

Definition getDecisionsForTape (tapeId : TapeId) : M (list DecisionView) :=
  e ← get_engine;
  getDecisionsForTape_loop tapeId (decisionMap e) [].

(** [getPendingDecisions(tapeId)] *)
Definition getPendingDecisions (tapeId : TapeId) : M (list DecisionView) :=
  results ← getDecisionsForTape tapeId;
  mret (List.filter (λ d, bool_decide (dv_chosen d = None)) results).

(** An element of the result of [getEffectsForTape]. *)
Record TapeEffect := {
  te_effectId : string;
  te_isActive : bool;
  te_consumers : list (string * Consumer)
}.

(** [this.hasFlag(id) || this.hasMemory(id)] *)
Definition isActive (id : string) : M bool :=
  hasFlag id ≫= λ b : bool, if b then mret true else hasMemory id.

(** The loop of [getEffectsForTape] over the entries of [#consumers]. *)
Fixpoint getEffectsForTape_loop (tapeId : TapeId)
    (entries : list (string * list (string * Consumer)))
    (results : list TapeEffect) : M (list TapeEffect) :=
  match entries with
  | [] => mret results
  | (effectId, consumers) :: rest =>
      let tapeConsumers :=
        List.filter (λ c, tape_equals (con_tape c.2) tapeId) consumers in
      if (0 <? length tapeConsumers)%nat then
        active ← isActive effectId;
        getEffectsForTape_loop tapeId rest
          (results ++ [{| te_effectId := effectId;
                          te_isActive := active;
                          te_consumers := tapeConsumers |}])
      else getEffectsForTape_loop tapeId rest results
  end.

Definition getEffectsForTape (tapeId : TapeId) : M (list TapeEffect) :=
  e ← get_engine;
  getEffectsForTape_loop tapeId (consumerMap e) [].

(** An element of the argument of [getVariant]. *)
Record Variant := {
  var_requires : option (list string);
  var_text : string
}.

(** The loop of [getVariant]: the first variant whose requirements hold,
    [None] when the loop ends without a return. *)
Fixpoint getVariant_loop (variants : list Variant) : M (option Variant) :=
  match variants with
  | [] => mret None
  | variant :: rest =>
      let requires := or_empty (var_requires variant) in
      every_M isActive requires ≫= λ hasAll : bool,
      if hasAll then mret (Some variant) else getVariant_loop rest
  end.

(** [getVariant(variants)]; [None] is [undefined], the result for an empty
    array.  [!v.requires] holds for an absent [requires] only: an array is
    truthy. *)
Definition getVariant (variants : list Variant) : M (option Variant) :=
  found ← getVariant_loop variants;
  match found with
  | Some variant => mret (Some variant)
  | None =>
      mret (match List.find (λ v, negb (bool_decide (is_Some (var_requires v))))
                            variants with
            | Some v => Some v
            | None => variants !! 0%nat
            end)
  end.

(** ** The relationship engine and the game: classes [RelationshipEngine]
    and [GameEngine]

    [RelationshipEngine] keeps a state of its own and reads the decision
    engine; [GameEngine] is the facade over the two singletons.  Their
    methods are functions on the whole page. *)

(** [engine.getStat(name)] where [name] is one of the literals ['trust']
    and ['guard'].  These are no collection names and no members of
    [Object.prototype], so the value is a number, used as an operand of
    [-], [+], [<] and [>]; the other shapes end the computation with a
    [TypeError] that no engine raises ([number_stat_returns]). *)
Definition number_stat (statName : string) : M Z :=
  getStat statName ≫= λ v : JsValue,
  match v with
  | VNumber z => mret z
  | _ => throw TypeError
  end.

(** [obj[k]] on an object literal read with a computed key. *)
Inductive Read (V : Type) :=
| Own (v : V)
| Member (k : string)
| Missing.
Arguments Own {V} v.
Arguments Member {V} k.
Arguments Missing {V}.

Definition read_key {V} (obj : list (string * V)) (k : string) : Read V :=
  match own obj k with
  | Some v => Own v
  | None => if inherited k then Member k else Missing
  end.

(** The property key a tape id converts to. *)
Definition tape_key (tapeId : TapeId) : string :=
  match tapeId with
  | TapeName t => t
  | TapeNull => "null"
  | TapeUndefined => "undefined"
  end.

(** A parameter [tapeId = null]. *)
Definition default_null (tapeId : TapeId) : TapeId :=
  match tapeId with
  | TapeUndefined => TapeNull
  | _ => tapeId
  end.

(** [tapeId || currentTape] *)
Definition tape_or (tapeId currentTape : TapeId) : TapeId :=
  match tapeId with
  | TapeName t => if decide (t = "") then currentTape else tapeId
  | _ => currentTape
  end.

(** [#state] of the relationship engine: the properties a method reads or
    writes.  [firstPhysicalContact], [firstVulnerability],
    [biggestTrustMoment], [biggestGuardMoment], [insideJokes] and
    [unsaidThings] are only initialised.  [jealousyMoments] is the
    property [#syncWithDecisions] increments; the constructor declares
    [jealousMoments], so it is absent ([None]) until the first increment
    makes it [NaN] ([Some None]). *)
Record RelationshipState := {
  phase : string;
  firstImpression : option string;
  sharedGames : Z;
  lateNightCalls : Z;
  jealousMoments : Z;
  vulnerableMoments : Z;
  soilType : option string;
  jealousyMoments : option (option Z)
}.

(** The object literal of the constructor and of [reset]. *)
Definition initialRelationship : RelationshipState :=
  {| phase := "strangers"; firstImpression := None;
     sharedGames := 0; lateNightCalls := 0; jealousMoments := 0;
     vulnerableMoments := 0; soilType := None; jealousyMoments := None |}.

(** A saved relationship document, typed as the literal of the
    constructor: each of its properties possibly absent, those that can be
    [null] with [Some None] for [null].  No method writes the item, so
    its content comes from outside the page. *)
Record RelationshipDoc := {
  rd_phase : option string;
  rd_firstImpression : option (option string);
  rd_sharedGames : option Z;
  rd_lateNightCalls : option Z;
  rd_jealousMoments : option Z;
  rd_vulnerableMoments : option Z;
  rd_soilType : option (option string)
}.

Inductive RelationshipJson :=
| RelJson (doc : RelationshipDoc)
| RelNotJson.

(** The page: the two engine singletons, the browser, the item of
    [localStorage] under [RELATIONSHIP_KEY], and the private fields of
    the [GameEngine] singleton. *)
Record Game := {
  game_engine : Engine;
  game_browser : Browser;
  game_relationship : RelationshipState;
  game_relationshipItem : option RelationshipJson;
  game_initialized : bool;
  game_currentTape : TapeId
}.

Definition set_decisions (g : Game) (s : Engine * Browser) : Game :=
  {| game_engine := s.1; game_browser := s.2;
     game_relationship := game_relationship g;
     game_relationshipItem := game_relationshipItem g;
     game_initialized := game_initialized g;
     game_currentTape := game_currentTape g |}.

Definition set_relationship (g : Game) (r : RelationshipState) : Game :=
  {| game_engine := game_engine g; game_browser := game_browser g;
     game_relationship := r;
     game_relationshipItem := game_relationshipItem g;
     game_initialized := game_initialized g;
     game_currentTape := game_currentTape g |}.


Definition set_initialized (g : Game) (i : bool) : Game :=
  {| game_engine := game_engine g; game_browser := game_browser g;
     game_relationship := game_relationship g;
     game_relationshipItem := game_relationshipItem g;
     game_initialized := i;
     game_currentTape := game_currentTape g |}.

Definition set_currentTape (g : Game) (tapeId : TapeId) : Game :=
  {| game_engine := game_engine g; game_browser := game_browser g;
     game_relationship := game_relationship g;
     game_relationshipItem := game_relationshipItem g;
     game_initialized := game_initialized g;
     game_currentTape := tapeId |}.

(** The page before any call: the three singletons as constructed. *)
Definition newGame (b : Browser) (item : option RelationshipJson) : Game :=
  {| game_engine := newEngine; game_browser := b;
     game_relationship := initialRelationship;
     game_relationshipItem := item;
     game_initialized := false;
     game_currentTape := TapeNull |}.

(** Methods of the two classes: state transformers on the page that may
    throw. *)
Definition G (A : Type) : Type := Game → Outcome A * Game.

#[global] Instance G_ret : MRet G := λ A a g, (Returned a, g).

#[global] Instance G_bind : MBind G := λ A B f m g,
  match m g with
  | (Returned a, g') => f a g'
  | (Thrown ex, g') => (Thrown ex, g')
  end.

#[global] Instance G_fmap : FMap G := λ A B f m, a ← m; mret (f a).

Definition throw_G {A} (ex : Exception) : G A := λ g, (Thrown ex, g).

(** A call of a method of the decision engine singleton. *)
Definition engine_call {A} (m : M A) : G A := λ g,
  let r := m (game_engine g, game_browser g) in (r.1, set_decisions g r.2).

(** A call of an [async] method that is not awaited: the body, which has
    no [await], runs to its end or to a throw; the throw rejects a
    promise that nobody reads. *)
Definition unawaited {A} (m : G A) : G unit := λ g,
  match m g with
  | (_, g') => (Returned (), g')
  end.

Definition get_game : G Game := λ g, (Returned g, g).

Definition update_game (f : Game → Game) : G unit := λ g, (Returned (), f g).

Definition get_relationship : G RelationshipState :=
  game_relationship <$> get_game.

Definition put_relationship (r : RelationshipState) : G unit :=
  update_game (λ g, set_relationship g r).

(** An assignment to a property of [#state]. *)
Definition modify_relationship (f : RelationshipState → RelationshipState)
  : G unit :=
  r ← get_relationship; put_relationship (f r).

(** [if (c) statement] *)
Definition when (c : bool) (statement : G unit) : G unit :=
  if c then statement else mret ().

Definition set_phase (r : RelationshipState) (p : string)
  : RelationshipState :=
  {| phase := p; firstImpression := firstImpression r;
     sharedGames := sharedGames r; lateNightCalls := lateNightCalls r;
     jealousMoments := jealousMoments r;
     vulnerableMoments := vulnerableMoments r;
     soilType := soilType r; jealousyMoments := jealousyMoments r |}.

Definition set_firstImpression (r : RelationshipState) (v : option string)
  : RelationshipState :=
  {| phase := phase r; firstImpression := v;
     sharedGames := sharedGames r; lateNightCalls := lateNightCalls r;
     jealousMoments := jealousMoments r;
     vulnerableMoments := vulnerableMoments r;
     soilType := soilType r; jealousyMoments := jealousyMoments r |}.

Definition set_soilType (r : RelationshipState) (v : option string)
  : RelationshipState :=
  {| phase := phase r; firstImpression := firstImpression r;
     sharedGames := sharedGames r; lateNightCalls := lateNightCalls r;
     jealousMoments := jealousMoments r;
     vulnerableMoments := vulnerableMoments r;
     soilType := v; jealousyMoments := jealousyMoments r |}.

Definition set_sharedGames (r : RelationshipState) (n : Z)
  : RelationshipState :=
  {| phase := phase r; firstImpression := firstImpression r;
     sharedGames := n; lateNightCalls := lateNightCalls r;
     jealousMoments := jealousMoments r;
     vulnerableMoments := vulnerableMoments r;
     soilType := soilType r; jealousyMoments := jealousyMoments r |}.

Definition set_lateNightCalls (r : RelationshipState) (n : Z)
  : RelationshipState :=
  {| phase := phase r; firstImpression := firstImpression r;
     sharedGames := sharedGames r; lateNightCalls := n;
     jealousMoments := jealousMoments r;
     vulnerableMoments := vulnerableMoments r;
     soilType := soilType r; jealousyMoments := jealousyMoments r |}.

Definition set_vulnerableMoments (r : RelationshipState) (n : Z)
  : RelationshipState :=
  {| phase := phase r; firstImpression := firstImpression r;
     sharedGames := sharedGames r; lateNightCalls := lateNightCalls r;
     jealousMoments := jealousMoments r;
     vulnerableMoments := n;
     soilType := soilType r; jealousyMoments := jealousyMoments r |}.

Definition set_jealousyMoments (r : RelationshipState)
    (n : option (option Z)) : RelationshipState :=
  {| phase := phase r; firstImpression := firstImpression r;
     sharedGames := sharedGames r; lateNightCalls := lateNightCalls r;
     jealousMoments := jealousMoments r;
     vulnerableMoments := vulnerableMoments r;
     soilType := soilType r; jealousyMoments := n |}.

(** [x++] on a property that may be absent: [undefined] and [NaN] give
    [NaN]. *)
Definition increment (x : option (option Z)) : option (option Z) :=
  match x with
  | Some (Some n) => Some (Some (n + 1)%Z)
  | _ => Some None
  end.

(** [{ ...state, ...doc }] *)
Definition spread_over (r : RelationshipState) (doc : RelationshipDoc)
  : RelationshipState :=
  {| phase := default (phase r) (rd_phase doc);
     firstImpression := default (firstImpression r) (rd_firstImpression doc);
     sharedGames := default (sharedGames r) (rd_sharedGames doc);
     lateNightCalls := default (lateNightCalls r) (rd_lateNightCalls doc);
     jealousMoments := default (jealousMoments r) (rd_jealousMoments doc);
     vulnerableMoments :=
       default (vulnerableMoments r) (rd_vulnerableMoments doc);
     soilType := default (soilType r) (rd_soilType doc);
     jealousyMoments := jealousyMoments r |}.

(** The result of [getTone]. *)
Record Tone := {
  warmth : string;
  openness : string;
  playfulness : string;
  tone_description : string
}.

(** An entry of [#milestones]. *)
Record Milestone := {
  ms_any : option (list string);
  ms_all : option (list string);
  ms_description : string
}.

Definition any_of (flags : list string) (description : string) : Milestone :=
  {| ms_any := Some flags; ms_all := None; ms_description := description |}.

(** [#milestones] *)
Definition milestones : list (string * Milestone) :=
  [ ("first_smile_caught",
      any_of ["e_caught_smiling"] "She caught you smiling");
    ("first_touch",
      any_of ["e_physical_contact"] "First physical contact");
    ("first_3am",
      any_of ["e_voice_heard_3am"; "e_voice_shared"]
             "Shared the night together");
    ("sunrise_together",
      any_of ["e_sunrise_together"] "Talked until sunrise");
    ("jealousy_revealed",
      any_of ["e_jealousy_shown"] "Your jealousy surfaced");
    ("committed", any_of ["e_committed"] "You chose to lean in");
    ("soil_chosen",
      any_of ["e_soil_rich"; "e_soil_rocky"; "e_soil_barren"]
             "You chose your soil") ].

(** An entry of the table [callbacks] of [getCallback]. *)
Record Callback := {
  cb_requires : list string;
  cb_variants : option (list (string * string));
  cb_text : option string
}.

Definition callbacks : list (string * Callback) :=
  [ ("first_message",
      {| cb_requires := ["e_replied_fast"; "e_replied_slow"];
         cb_variants := Some
           [("e_replied_fast",
             "You replied to that first message in under a minute. She noticed.");
            ("e_replied_slow",
             "You waited three hours to reply. She noticed that too.")];
         cb_text := None |});
    ("sigma_smile",
      {| cb_requires := ["e_caught_smiling"];
         cb_variants := None;
         cb_text := Some
           "She still teases you about the smile she caught when she said 'sigma'." |});
    ("princess_tycoon",
      {| cb_requires := ["e_game_memory"];
         cb_variants := None;
         cb_text := Some
           "Princess tycoon became your game. Two hours that turned into something else entirely." |});
    ("scratch_touch",
      {| cb_requires := ["e_physical_contact"];
         cb_variants := None;
         cb_text := Some
           "Three seconds. That's how long you held her hand examining that scratch. Neither of you has mentioned it since." |});
    ("3am_call",
      {| cb_requires := ["e_voice_heard_3am"];
         cb_variants := None;
         cb_text := Some
           "The 3am call. You talked until the sun came up. Some nights are written in permanent ink." |});
    ("jealousy",
      {| cb_requires := ["e_jealousy_shown"];
         cb_variants := Some
           [("e_territorial",
             "You told her to tell him she was busy. The fifth word was silent: 'with me.'");
            ("e_different_answer",
             "She called you 'different.' You still don't know if that's good or dangerous.");
            ("e_mask_worn",
             "You changed the subject when she mentioned him. She saw through it.")];
         cb_text := None |});
    ("sunrise",
      {| cb_requires := ["e_sunrise_together"];
         cb_variants := None;
         cb_text := Some
           "The sunrise you shared on the phone. Neither of you wanted to hang up first." |});
    ("soil_choice",
      {| cb_requires := ["e_soil_rich"; "e_soil_rocky"; "e_soil_barren"];
         cb_variants := Some
           [("e_soil_rich", "You chose rich soil. You're all in.");
            ("e_soil_rocky",
             "You chose rocky soil. Cautious, but still planting.");
            ("e_soil_barren", "You chose barren ground. The seed waits.")];
         cb_text := None |}) ].

(** The table [tapeCallbacks] of [getActiveCallbacks]. *)
Definition tapeCallbacks : list (string * list string) :=
  [ ("tape1", []);
    ("tape2", ["first_message"; "sigma_smile"; "princess_tycoon"]);
    ("tape3", ["scratch_touch"; "3am_call"; "jealousy"]);
    ("tape4", ["sunrise"; "jealousy"]);
    ("tape5", ["soil_choice"; "sunrise"; "scratch_touch"; "princess_tycoon"]) ].

(** The table [introductions] of [getTapeIntroduction]. *)
Definition introductions : list (string * list (string * string)) :=
  [ ("tape1",
      [("default",
        "A notification illuminates your screen. A message from a number you don't recognize.")]);
    ("tape2",
      [("default",
        "Weeks have passed. The messages are no longer from a stranger.");
       ("friends",
        "Weeks have passed. She messages you now like it's the most natural thing in the world.");
       ("close",
        "Weeks have passed. Her name on your screen makes you feel something you're not ready to name.")]);
    ("tape3",
      [("default",
        "Months pass. Patterns form. You notice things you didn't before.");
       ("close",
        "Months pass. You know her patterns now. And she knows yours.");
       ("intimate",
        "Months pass. You've stopped counting how many times you've talked until 3am.")]);
    ("tape4",
      [("default",
        "Seasons change. The seed in the ground has roots now.");
       ("intimate",
        "Seasons change. What started as an accident has become something you can't imagine losing.")]);
    ("tape5",
      [("default",
        "The final tape. What grows here depends entirely on the soil you chose.");
       ("rich",
        "The final tape. Rich soil. Full investment. Whatever grows, you're ready.");
       ("rocky",
        "The final tape. Rocky soil. Hard-won roots. What survives here will be strong.");
       ("barren",
        "The final tape. Barren ground. The seed waits still. Some things need more time.")]) ].

(** The result of [getRelationshipSummary]. *)
Record Summary := {
  sum_phase : string;
  sum_trust : Z;
  sum_guard : Z;
  sum_net : Z;
  sum_memories : nat;
  sum_milestones : nat;
  sum_soilType : option string;
  sum_firstImpression : option string;
  sum_summary : string
}.

(** The first entry of [variants] whose flag is active: the loop
    [for (const [flag, text] of Object.entries(callback.variants))
       if (engine.hasFlag(flag)) return text]. *)
Fixpoint first_variant (variants : list (string * string))
  : M (option string) :=
  match variants with
  | [] => mret None
  | (flag, text) :: rest =>
      hasFlag flag ≫= λ b : bool,
      if b then mret (Some text) else first_variant rest
  end.

Module RelationshipEngine.

(** [#restoreState]: an item that is no JSON text is caught. *)
Definition restoreState : G unit :=
  g ← get_game;
  match game_relationshipItem g with
  | Some (RelJson doc) =>
      put_relationship (spread_over (game_relationship g) doc)
  | _ => mret ()
  end.

(** [#updatePhase] *)
Definition updatePhase : G unit :=
  trust ← engine_call (number_stat "trust");
  guard ← engine_call (number_stat "guard");
  let net := (trust - guard)%Z in
  r ← get_relationship;
  put_relationship (set_phase r
    (if (net <? -5)%Z then "strangers"
     else if (net <? 5)%Z then "acquaintances"
     else if (net <? 15)%Z then "friends"
     else if (net <? 25)%Z then "close"
     else "intimate")).

(** [#syncWithDecisions] *)
Definition syncWithDecisions : G unit :=
  engine_call getState;;
  (engine_call (hasFlag "e_game_memory") ≫= λ c : bool,
   when c (modify_relationship
             (λ r, set_sharedGames r (sharedGames r + 1))));;
  (engine_call (hasAnyFlag ["e_voice_heard_3am"; "e_voice_shared"])
     ≫= λ c : bool,
   when c (modify_relationship
             (λ r, set_lateNightCalls r (lateNightCalls r + 1))));;
  (engine_call (hasFlag "e_jealousy_shown") ≫= λ c : bool,
   when c (modify_relationship
             (λ r, set_jealousyMoments r (increment (jealousyMoments r)))));;
  (engine_call (hasFlag "e_vulnerability_shown") ≫= λ c : bool,
   when c (modify_relationship
             (λ r, set_vulnerableMoments r (vulnerableMoments r + 1))));;
  (engine_call (hasFlag "e_first_impression_eager") ≫= λ eager : bool,
   if eager
   then modify_relationship (λ r, set_firstImpression r (Some "eager"))
   else
     engine_call (hasFlag "e_first_impression_guarded") ≫= λ guarded : bool,
     if guarded
     then modify_relationship (λ r, set_firstImpression r (Some "guarded"))
     else
       engine_call (hasFlag "e_first_impression_passive")
         ≫= λ passive : bool,
       when passive
         (modify_relationship (λ r, set_firstImpression r (Some "passive"))));;
  (engine_call (hasFlag "e_soil_rich") ≫= λ rich : bool,
   if rich
   then modify_relationship (λ r, set_soilType r (Some "rich"))
   else
     engine_call (hasFlag "e_soil_rocky") ≫= λ rocky : bool,
     if rocky
     then modify_relationship (λ r, set_soilType r (Some "rocky"))
     else
       engine_call (hasFlag "e_soil_barren") ≫= λ barren : bool,
       when barren
         (modify_relationship (λ r, set_soilType r (Some "barren"))));;
  updatePhase.

(** [initialize()] *)
Definition initialize : G unit :=
  restoreState;; syncWithDecisions.

(** [getTone()] *)
Definition getTone : G Tone :=
  trust ← engine_call (number_stat "trust");
  guard ← engine_call (number_stat "guard");
  mret
    (if (guard + 10 <? trust)%Z then
       {| warmth := "high"; openness := "vulnerable"; playfulness := "high";
          tone_description := "She speaks to you like someone who trusts you" |}
     else if (guard <? trust)%Z then
       {| warmth := "medium"; openness := "cautious";
          playfulness := "medium";
          tone_description := "She speaks to you with growing warmth" |}
     else if (trust + 5 <? guard)%Z then
       {| warmth := "low"; openness := "guarded"; playfulness := "minimal";
          tone_description := "She speaks to you carefully" |}
     else
       {| warmth := "neutral"; openness := "neutral";
          playfulness := "testing";
          tone_description :=
            "She speaks to you like she's still figuring you out" |}).

(** [getCallback(callbackId)]; [None] is [null].  A member of
    [Object.prototype] has no [requires]. *)
Definition getCallback (callbackId : string) : G (option string) :=
  match read_key callbacks callbackId with
  | Missing => mret None
  | Member _ => throw_G TypeError
  | Own callback =>
      hasRequirement ← engine_call (some_M isActive (cb_requires callback));
      if negb hasRequirement then mret None
      else
        found ← engine_call (first_variant (or_empty (cb_variants callback)));
        match found with
        | Some text => mret (Some text)
        | None => mret (or_null (cb_text callback))
        end
  end.

(** The loop of [getActiveCallbacks], pushing [{ id, text }] to
    [active]. *)
Fixpoint getActiveCallbacks_loop (callbackIds : list string)
    (active : list (string * string)) : G (list (string * string)) :=
  match callbackIds with
  | [] => mret active
  | callbackId :: rest =>
      text ← getCallback callbackId;
      getActiveCallbacks_loop rest
        (match or_null text with
         | Some t => active ++ [(callbackId, t)]
         | None => active
         end)
  end.

(** [getActiveCallbacks(tapeId)]: a member of [Object.prototype] is not
    iterable. *)
Definition getActiveCallbacks (tapeId : TapeId)
  : G (list (string * string)) :=
  match read_key tapeCallbacks (tape_key tapeId) with
  | Own callbackIds => getActiveCallbacks_loop callbackIds []
  | Member _ => throw_G TypeError
  | Missing => getActiveCallbacks_loop [] []
  end.

(** [hasMilestone(milestoneId)]: a member of [Object.prototype] has no
    [threshold]. *)
Definition hasMilestone (milestoneId : string) : G bool :=
  match read_key milestones milestoneId with
  | Missing => mret false
  | Member _ => throw_G TypeError
  | Own milestone =>
      match ms_any milestone with
      | Some any => engine_call (some_M hasFlag any)
      | None =>
          match ms_all milestone with
          | Some all => engine_call (every_M hasFlag all)
          | None => mret false
          end
      end
  end.

(** The loop of [getMilestones] over the entries of [#milestones]. *)
Fixpoint getMilestones_loop (entries : list (string * Milestone))
    (active : list (string * Milestone)) : G (list (string * Milestone)) :=
  match entries with
  | [] => mret active
  | (id, milestone) :: rest =>
      hasMilestone id ≫= λ has : bool,
      getMilestones_loop rest
        (if has then active ++ [(id, milestone)] else active)
  end.

(** [getMilestones()] *)
Definition getMilestones : G (list (string * Milestone)) :=
  getMilestones_loop milestones [].

(** Truthiness of [tapeIntros[k]]. *)
Definition truthy_text (v : Read string) : bool :=
  match v with
  | Own s => negb (bool_decide (s = ""))
  | Member _ => true
  | Missing => false
  end.

(** [getTapeIntroduction(tapeId)]; [None] is [null].  The call of
    [getActiveCallbacks] comes first and throws for the name of a member
    of [Object.prototype], so [introductions[tapeId]] is an entry of the
    table or [undefined] when it is read. *)
Definition getTapeIntroduction (tapeId : TapeId)
  : G (option (Read string)) :=
  getActiveCallbacks tapeId;;
  getTone;;
  r ← get_relationship;
  match read_key introductions (tape_key tapeId) with
  | Missing => mret None
  | Member _ => throw_G TypeError
  | Own tapeIntros =>
      let bySoil :=
        match soilType r with
        | Some soil =>
            if bool_decide (tapeId = TapeName "tape5")
               && negb (bool_decide (soil = ""))
               && truthy_text (read_key tapeIntros soil)
            then Some (read_key tapeIntros soil)
            else None
        | None => None
        end in
      match bySoil with
      | Some text => mret (Some text)
      | None =>
          if truthy_text (read_key tapeIntros (phase r))
          then mret (Some (read_key tapeIntros (phase r)))
          else mret (Some (read_key tapeIntros "default"))
      end
  end.

(** [#generateSummaryText()] *)
Definition generateSummaryText : G string :=
  trust ← engine_call (number_stat "trust");
  guard ← engine_call (number_stat "guard");
  let net := (trust - guard)%Z in
  mret
    (if (20 <=? net)%Z then
       "You've built something real. The walls are down. She sees you."
     else if (10 <=? net)%Z then
       "You're letting her in. Slowly. Carefully. But definitely."
     else if (0 <=? net)%Z then
       "You're still deciding. The door is ajar, but you're holding it."
     else if (-10 <=? net)%Z then
       "You're protecting yourself. Maybe too much. The door is closing."
     else "The walls are up. You've chosen safety over risk.").

(** [getRelationshipSummary()] *)
Definition getRelationshipSummary : G Summary :=
  trust ← engine_call (number_stat "trust");
  guard ← engine_call (number_stat "guard");
  mems ← engine_call getMemories;
  active ← getMilestones;
  r ← get_relationship;
  text ← generateSummaryText;
  mret {| sum_phase := phase r;
          sum_trust := trust;
          sum_guard := guard;
          sum_net := trust - guard;
          sum_memories := length mems;
          sum_milestones := length active;
          sum_soilType := soilType r;
          sum_firstImpression := firstImpression r;
          sum_summary := text |}.


End RelationshipEngine.

Module GameEngine.

(** [initialize(tapeId = null)], after the dataset was fetched and
    parsed. *)
Definition initialize (tapeId : TapeId) (data : Dataset) : G unit :=
  g ← get_game;
  if game_initialized g then mret ()
  else
    engine_call (load data);;
    RelationshipEngine.initialize;;
    update_game (λ g,
      set_initialized (set_currentTape g (default_null tapeId)) true).

(** [makeChoice(decisionId, optionId)]: the relationship engine is
    synchronised by a call of [initialize] that is not awaited. *)
Definition makeChoice (decisionId optionId : string) : G ChoiceResult :=
  result ← engine_call (makeChoice decisionId optionId);
  unawaited RelationshipEngine.initialize;;
  mret result.

(** [wasChoiceMade(decisionId, optionId = null)]: [None] is a missing or
    [null] option id. *)
Definition wasChoiceMade (decisionId : string) (optionId : option string)
  : G bool :=
  match or_null optionId with
  | Some o => engine_call (wasChoiceMade decisionId o)
  | None =>
      last ← engine_call (getLastChoice decisionId);
      mret (bool_decide (is_Some last))
  end.

(** [getChosenOption(decisionId)] *)
Definition getChosenOption (decisionId : string) : G (option string) :=
  last ← engine_call (getLastChoice decisionId);
  mret (or_null (hist_optionId <$> last)).

(** [getStats()] *)
Definition getStats : G (JsValue * JsValue * JsValue * JsValue) :=
  trust ← engine_call (getStat "trust");
  guard ← engine_call (getStat "guard");
  honesty ← engine_call (getStat "honesty");
  vulnerability ← engine_call (getStat "vulnerability");
  mret (trust, guard, honesty, vulnerability).

Definition hasFlag (flagId : string) : G bool :=
  engine_call (hasFlag flagId).

Definition hasAnyFlag (flagIds : list string) : G bool :=
  engine_call (hasAnyFlag flagIds).

Definition getHistory : G (list HistoryEntry) := engine_call getHistory.

Definition getCallback (callbackId : string) : G (option string) :=
  RelationshipEngine.getCallback callbackId.

Definition getActiveCallbacks (tapeId : TapeId)
  : G (list (string * string)) :=
  g ← get_game;
  RelationshipEngine.getActiveCallbacks (tape_or tapeId (game_currentTape g)).

Definition getTapeIntroduction (tapeId : TapeId)
  : G (option (Read string)) :=
  g ← get_game;
  RelationshipEngine.getTapeIntroduction
    (tape_or tapeId (game_currentTape g)).

Definition getTone : G Tone := RelationshipEngine.getTone.

(** [getPhase()]: [summary?.phase || 'strangers']. *)
Definition getPhase : G string :=
  summary ← RelationshipEngine.getRelationshipSummary;
  mret (if decide (sum_phase summary = "") then "strangers"
        else sum_phase summary).

Definition hasMilestone (milestoneId : string) : G bool :=
  RelationshipEngine.hasMilestone milestoneId.

Definition getMilestones : G (list (string * Milestone)) :=
  RelationshipEngine.getMilestones.

Definition getRelationshipSummary : G Summary :=
  RelationshipEngine.getRelationshipSummary.

Definition setCurrentTape (tapeId : TapeId) : G unit :=
  update_game (λ g, set_currentTape g tapeId).

Definition getDecisionsForTape (tapeId : TapeId) : G (list DecisionView) :=
  g ← get_game;
  engine_call (getDecisionsForTape (tape_or tapeId (game_currentTape g))).

Definition getPendingDecisions (tapeId : TapeId) : G (list DecisionView) :=
  g ← get_game;
  engine_call (getPendingDecisions (tape_or tapeId (game_currentTape g))).

Definition getEnding (endings : Endings) : G Ending :=
  engine_call (determineEnding endings).


Definition exportState : G JsonString := engine_call exportState.

Definition importState (jsonString : JsonString) : G bool :=
  engine_call (importState jsonString).

End GameEngine.

(** ** Vocabulary of the specification *)

(** The keys of a parsed JSON object are pairwise distinct. *)
Definition object_keys_distinct {V} (obj : list (string * V)) : Prop :=
  NoDup obj.*1.

(** An option's produced effects as an unordered set. *)
Definition effect_set (o : ChoiceOption) : gset string :=
  list_to_set (or_empty (opt_effects o)).

(** Every listing of an effect by an option, paired with the id of the
    decision: the pushes of CHECK 1 in order. *)
Definition listings (decision : Decision) : list string :=
  flat_map (λ o, or_empty (opt_effects o)) (or_empty (dec_options decision)).

Definition produced_pairs (ds : Dataset) : list (string * string) :=
  flat_map (λ '(decId, decision), (λ e, (e, decId)) <$> listings decision)
           (decisions ds).

(** Every listing of an effect in a consumer's [checks], paired with the
    id of the consumer: the pushes of CHECK 2 in order. *)
Definition consumed_pairs (ds : Dataset) : list (string * string) :=
  flat_map (λ '(consumerId, consumer),
              (λ e, (e, consumerId)) <$> or_empty (con_checks consumer))
           (consumers ds).

(** The values pushed under key [k]. *)
Definition pushed {V} (k : string) (pairs : list (string * V)) : list V :=
  (filter (λ p, p.1 = k) pairs).*2.

(** What [m.get(k)] holds after a run of pushes. *)
Definition extend {V} (old : option (list V)) (new : list V)
  : option (list V) :=
  match new with
  | [] => old
  | _ => Some (or_empty old ++ new)
  end.

(** Effect [E] is produced by some decision. *)
Definition is_produced (ds : Dataset) (E : string) : Prop :=
  ∃ decId decision option,
    (decId, decision) ∈ decisions ds
    ∧ option ∈ or_empty (dec_options decision)
    ∧ E ∈ or_empty (opt_effects option).

(** Some consumer's [checks] contain [E]. *)
Definition is_checked (ds : Dataset) (E : string) : Prop :=
  ∃ consumerId consumer,
    (consumerId, consumer) ∈ consumers ds
    ∧ E ∈ or_empty (con_checks consumer).

(** The validator emits a [GHOST_EFFECT] warning for [E]. *)
Definition ghost_effect_flagged (ds : Dataset) (E : string) : Prop :=
  ∃ producers, GHOST_EFFECT E producers ∈ warnings (validate ds).

(** Effect [E] carries a non-empty inline [consumed_by]. *)
Definition inline_override (ds : Dataset) (E : string) : Prop :=
  ∃ x l, own (effects ds) E ≫= eff_consumed_by = Some (x :: l).

(** The position of a tape in the authored ordering. *)
Definition position (tapes : list string) (tape : option string)
  : option nat :=
  fst <$> list_find (λ t, t = key_of tape) tapes.

(** Tape [later] comes strictly after tape [earlier] in the ordering. *)
Definition strictly_after (tapes : list string) (later earlier : option string)
  : bool :=
  match position tapes earlier, position tapes later with
  | Some i, Some j => (i <? j)%nat
  | _, _ => false
  end.

Definition is_backward_dependency (x : Error) : bool :=
  match x with BACKWARD_DEPENDENCY _ _ _ => true | _ => false end.

(** One error for every consumer, every listing [E] in its [checks],
    every decision and every listing of [E] by an option of the decision,
    provided the tape of the decision comes strictly after the tape of the
    consumer. *)
Definition backward_dependencies (ds : Dataset) : list Error :=
  flat_map (λ '(consumerId, consumer),
    flat_map (λ E,
      flat_map (λ '(decId, decision),
        flat_map (λ E',
          if decide (E' = E)
          then if strictly_after (tapeOrder ds)
                    (dec_tape decision) (con_tape consumer)
               then [BACKWARD_DEPENDENCY (con_tape consumer)
                                         (dec_tape decision) E]
               else []
          else [])
          (listings decision))
        (decisions ds))
      (or_empty (con_checks consumer)))
    (consumers ds).

(** No tape named in the ordering or by a consumer is the name of a member
    of [Object.prototype]. *)
Definition plain_tape_names (ds : Dataset) : Prop :=
  (∀ t, t ∈ tapeOrder ds → inherited t = false)
  ∧ (∀ c consumer, (c, consumer) ∈ consumers ds →
       inherited (key_of (con_tape consumer)) = false).

(** The engine once [load] returned, started from [new DecisionEngine()]
    in browser [b]. *)
Definition loaded (data : Dataset) (b : Browser) : Engine :=
  (load data (newEngine, b)).2.1.

(** The effect ids [detectGhosts] reports. *)
Definition ghost_ids (e : Engine) : list string :=
  ghost_effectId <$> detectGhosts e.

(** Effect [E] is defined in the effect catalog. *)
Definition is_defined (ds : Dataset) (E : string) : Prop :=
  ∃ effect, (E, effect) ∈ effects ds.

(** The three collections of the player state are collections. *)
Definition live (ps : PlayerState) : Prop :=
  ∃ flags mems arcs,
    activeFlags ps = Live flags ∧ memories ps = Live mems
    ∧ arcFlags ps = Live arcs.

(** No stat effect of the catalog names a collection of the player
    state. *)
Definition stats_name_no_collection (e : Engine) : Prop :=
  ∀ effectId effect,
    JsMap.get (effectMap e) effectId = Some effect →
    eff_type effect = Some "stat" →
    key_of (eff_stat effect) ∉ collectionNames.

(** The four stats are numbers within 0 and 100. *)
Definition stats_in_range (ps : PlayerState) : Prop :=
  ∀ s, s ∈ statNames → ∃ v, stats ps !! s = Some v ∧ (0 ≤ v ≤ 100)%Z.

(** The player state of the data model: live collections and the four
    stats within 0 and 100. *)
Definition valid_state (ps : PlayerState) : Prop :=
  live ps ∧ stats_in_range ps.

(** The engines reachable from a loaded engine [e0] by the operations that
    write the player state: [makeChoice] (whatever its outcome),
    [resetState], and [importState] of a string exported by a reachable
    engine.  The browser may be in any state at each call. *)
Inductive reachable (e0 : Engine) : Engine → Prop :=
| reachable_start : reachable e0 e0
| reachable_makeChoice e b decisionId optionId :
    reachable e0 e →
    reachable e0 (makeChoice decisionId optionId (e, b)).2.1
| reachable_resetState e b :
    reachable e0 e → reachable e0 (resetState (e, b)).2.1
| reachable_importState e b e1 b1 text s1 :
    reachable e0 e → reachable e0 e1 →
    exportState (e1, b1) = (Returned text, s1) →
    reachable e0 (importState text (e, b)).2.1.

(** The option [makeChoice] selects. *)
Definition chosen_option (e : Engine) (decisionId optionId : string)
  : option ChoiceOption :=
  JsMap.get (decisionMap e) decisionId
    ≫= λ decision, dec_options decision
    ≫= List.find (λ o, bool_decide (opt_id o = optionId)).

(** [decisionId] is in the decision catalog and [optionId] is among the
    options of that decision. *)
Definition known_choice (e : Engine) (decisionId optionId : string) : Prop :=
  ∃ decision options option,
    JsMap.get (decisionMap e) decisionId = Some decision
    ∧ dec_options decision = Some options
    ∧ option ∈ options ∧ opt_id option = optionId.

(** Two engines with the same catalogs and indices. *)
Definition same_catalog (e e' : Engine) : Prop :=
  decisionMap e' = decisionMap e ∧ effectMap e' = effectMap e
  ∧ consumerMap e' = consumerMap e ∧ producedBy e' = producedBy e.

(** Two browsers that differ at most in the clock. *)
Definition same_storage (b b' : Browser) : Prop :=
  stored b' = stored b ∧ quota_ok b' = quota_ok b.

(** The effect ids of a list that are in the effect catalog. *)
Definition in_catalog (e : Engine) (effectIds : list string) : list string :=
  List.filter (λ id, JsMap.has (effectMap e) id) effectIds.

(** Two engines that [getState] cannot tell apart, up to the order of the
    flags and of the arcs and up to the payload of the memories: same
    stats, same flag set, same arc set, same memory ids in order, same
    history. *)
Definition observationally_equal (e1 e2 : Engine) : Prop :=
  ∀ b, ∃ v1 v2,
    getState (e1, b) = (Returned v1, (e1, b))
    ∧ getState (e2, b) = (Returned v2, (e2, b))
    ∧ view_trust v1 = view_trust v2
    ∧ view_guard v1 = view_guard v2
    ∧ view_honesty v1 = view_honesty v2
    ∧ view_vulnerability v1 = view_vulnerability v2
    ∧ list_to_set (view_flags v1) =@{gset string} list_to_set (view_flags v2)
    ∧ list_to_set (view_arcs v1) =@{gset string} list_to_set (view_arcs v2)
    ∧ mem_id <$> view_memories v1 = mem_id <$> view_memories v2
    ∧ view_history v1 = view_history v2.

(** A candidate ending matches: every id of its [requires] list, if any,
    is an active flag or an active arc flag, [trust] is at least
    [min_trust] when that is specified and [guard] at least [min_guard]
    when that is specified. *)
Definition candidate_matches (trust guard : Z) (flags arcs : list string)
    (ending : Ending) : bool :=
  forallb (λ id, bool_decide (id ∈ flags ∨ id ∈ arcs))
          (or_empty (end_requires ending))
  && from_option (λ m, bool_decide (m ≤ trust)%Z) true (end_min_trust ending)
  && from_option (λ m, bool_decide (m ≤ guard)%Z) true (end_min_guard ending).

(** The first matching candidate with its id, or the default ending. *)
Definition first_match (trust guard : Z) (flags arcs : list string)
    (entries : list (string * Ending)) : Ending :=
  match List.find (λ kv, candidate_matches trust guard flags arcs kv.2)
                  entries with
  | Some (endingId, ending) => with_id endingId ending
  | None => defaultEnding
  end.

(** ** Vocabulary of the further properties *)

Definition is_broken_reference (x : Error) : bool :=
  match x with
  | BROKEN_EFFECT_REFERENCE _ _ _ | BROKEN_CONSUMER_REFERENCE _ _ => true
  | _ => false
  end.

Definition is_ghost_effect (w : Warning) : bool :=
  match w with GHOST_EFFECT _ _ => true | _ => false end.

Definition is_unused_effect (w : Warning) : bool :=
  match w with UNUSED_EFFECT _ => true | _ => false end.

(** A decision whose choice changes nothing: at least two options, all
    with the same effect set. *)
Definition cosmetic (decision : Decision) : Prop :=
  (2 ≤ length (or_empty (dec_options decision)))%nat
  ∧ ∀ o1 o2, o1 ∈ or_empty (dec_options decision) →
             o2 ∈ or_empty (dec_options decision) →
             effect_set o1 = effect_set o2.

(** The entry [makeChoice] pushes to the history. *)
Definition choice_entry (e : Engine) (b : Browser)
    (decisionId optionId : string) : HistoryEntry :=
  {| hist_decisionId := decisionId;
     hist_optionId := optionId;
     hist_timestamp := dateNow b (ticks b);
     hist_tape := JsMap.get (decisionMap e) decisionId ≫= dec_tape |}.



(** The state of a new game as [getState] shows it. *)
Definition new_game_view : StateView :=
  {| view_trust := Some 0%Z; view_guard := Some 0%Z;
     view_honesty := Some 0%Z; view_vulnerability := Some 0%Z;
     view_flags := []; view_memories := []; view_arcs := [];
     view_history := [] |}.

(** Every id of the [requires] list of a variant, if any, is an active
    flag or the id of a stored memory. *)
Definition requirements_hold (flags : list string) (mems : list Memory)
    (v : Variant) : bool :=
  forallb (λ id, bool_decide (id ∈ flags ∨ id ∈ mem_id <$> mems))
          (or_empty (var_requires v)).

(** The last history entry of a decision. *)
Definition last_choice (h : list HistoryEntry) (decisionId : string)
  : option HistoryEntry :=
  last (List.filter (λ x, bool_decide (hist_decisionId x = decisionId)) h).

(** The views [getDecisionsForTape] builds for the decisions of a tape
    against a history. *)
Definition decision_views (tapeId : TapeId) (h : list HistoryEntry)
    (entries : list (string * Decision)) : list DecisionView :=
  flat_map (λ '(id, decision),
    if tape_equals (dec_tape decision) tapeId
    then [{| dv_id := id; dv_decision := decision;
             dv_chosen := or_null (hist_optionId <$> last_choice h id) |}]
    else []) entries.

Definition is_pending (d : DecisionView) : bool :=
  bool_decide (dv_chosen d = None).

(** Every listing of an effect in a consumer's [checks], paired with the
    consumer: the pushes of [load] to [#consumers], in order. *)
Definition consumer_pairs (ds : Dataset)
  : list (string * (string * Consumer)) :=
  flat_map (λ '(consumerId, consumer),
              (λ e, (e, (consumerId, consumer)))
                <$> or_empty (con_checks consumer))
           (consumers ds).

(** The entries [getEffectsForTape] builds from the consumer index. *)
Definition tape_effects (tapeId : TapeId) (flags : list string)
    (mems : list Memory) (entries : list (string * list (string * Consumer)))
  : list TapeEffect :=
  flat_map (λ '(effectId, consumers),
    let tapeConsumers :=
      List.filter (λ c, tape_equals (con_tape c.2) tapeId) consumers in
    if (0 <? length tapeConsumers)%nat
    then [{| te_effectId := effectId;
             te_isActive :=
               bool_decide (effectId ∈ flags ∨ effectId ∈ mem_id <$> mems);
             te_consumers := tapeConsumers |}]
    else []) entries.

(** The stats the relationship engine reads. *)
Definition trust_of (e : Engine) : Z :=
  default 0%Z (stats (playerState e) !! "trust").

Definition guard_of (e : Engine) : Z :=
  default 0%Z (stats (playerState e) !! "guard").



(** The phase [#updatePhase] assigns for a difference of trust and
    guard. *)
Definition phase_of_net (net : Z) : string :=
  if (net <? -5)%Z then "strangers"
  else if (net <? 5)%Z then "acquaintances"
  else if (net <? 15)%Z then "friends"
  else if (net <? 25)%Z then "close"
  else "intimate".

(** The decision engine of a page has live collections. *)
Definition live_game (g : Game) : Prop := live (playerState (game_engine g)).

(** Two pages with the same decision engine, browser and facade fields:
    they differ in the relationship state at most. *)
Definition same_but_relationship (g g' : Game) : Prop :=
  game_engine g' = game_engine g ∧ game_browser g' = game_browser g
  ∧ game_relationshipItem g' = game_relationshipItem g
  ∧ game_initialized g' = game_initialized g
  ∧ game_currentTape g' = game_currentTape g.

(** The value a chain [if (hasFlag(a)) x = va; else if (hasFlag(b)) x = vb;
    else if (hasFlag(c)) x = vc] leaves in [x]. *)
Definition first_flag (flags : list string)
    (choices : list (string * string)) (old : option string)
  : option string :=
  match List.find (λ c, JsSet.has flags c.1) choices with
  | Some c => Some c.2
  | None => old
  end.

(** The relationship state [#restoreState] leaves. *)
Definition restored (g : Game) : RelationshipState :=
  match game_relationshipItem g with
  | Some (RelJson doc) => spread_over (game_relationship g) doc
  | _ => game_relationship g
  end.

(** A milestone is reached: some flag of [threshold.any] is active, or,
    without [any], every flag of [threshold.all]. *)
Definition reached (flags : list string) (milestone : Milestone) : bool :=
  match ms_any milestone with
  | Some any => existsb (JsSet.has flags) any
  | None =>
      match ms_all milestone with
      | Some all => forallb (JsSet.has flags) all
      | None => false
      end
  end.

(** The text [getCallback] returns for an entry of its table. *)
Definition callback_text (flags : list string) (mems : list Memory)
    (callback : Callback) : option string :=
  if existsb (λ f, bool_decide (f ∈ flags ∨ f ∈ mem_id <$> mems))
             (cb_requires callback)
  then match List.find (λ v, JsSet.has flags v.1)
                       (or_empty (cb_variants callback)) with
       | Some v => Some v.2
       | None => or_null (cb_text callback)
       end
  else None.

(** The tapes of the game. *)
Definition tapeNames : list string :=
  ["tape1"; "tape2"; "tape3"; "tape4"; "tape5"].


(** A method of the page that writes the relationship state only,
    whether it returns or throws. *)
Definition relationship_only {A} (m : G A) : Prop :=
  ∀ g, same_but_relationship g (m g).2.

(** A method of the decision engine that writes nothing, whether it
    returns or throws. *)
Definition query {A} (m : M A) : Prop := ∀ s, (m s).2 = s.

(** ** Example datasets and engines *)

Definition flag_effect : Effect :=
  {| eff_type := Some "flag"; eff_stat := None; eff_delta := 0;
     eff_description := None; eff_consumed_by := None |}.

Definition stat_effect (stat : string) (delta : Z) : Effect :=
  {| eff_type := Some "stat"; eff_stat := Some stat; eff_delta := delta;
     eff_description := None; eff_consumed_by := None |}.

Definition mk_option (id : string) (effectIds : list string) : ChoiceOption :=
  {| opt_id := id; opt_effects := Some effectIds |}.

Definition mk_decision (tape : string) (options : list ChoiceOption)
  : Decision :=
  {| dec_tape := Some tape; dec_options := Some options |}.

Definition mk_consumer (tape : string) (checks : list string) : Consumer :=
  {| con_tape := Some tape; con_checks := Some checks |}.

(** A decision whose two options list the same effects in another order
    and with a repetition, next to one whose options differ and one with
    a single option. *)
Definition cosmetic_decision : Decision :=
  mk_decision "tape1"
    [mk_option "a" ["e_x"; "e_y"; "e_x"]; mk_option "b" ["e_y"; "e_x"]].

Definition ghost_decision_data : Dataset :=
  {| decisions :=
       [("d_cosmetic", cosmetic_decision);
        ("d_real", mk_decision "tape1"
                     [mk_option "a" ["e_x"]; mk_option "b" ["e_y"]]);
        ("d_single", mk_decision "tape1" [mk_option "a" ["e_x"]])];
     effects := [("e_x", flag_effect); ("e_y", flag_effect)];
     consumers := [("c1", mk_consumer "tape1" ["e_x"; "e_y"])];
     tapeOrder := ["tape1"] |}.

(** A produced flag effect that no consumer checks, once with an inline
    [consumed_by] ([e_note]) and once without ([e_lost]). *)
Definition override_data : Dataset :=
  {| decisions :=
       [("d1", mk_decision "tape1"
                 [mk_option "a" ["e_note"]; mk_option "b" ["e_lost"]])];
     effects :=
       [("e_note",
          {| eff_type := Some "flag"; eff_stat := None; eff_delta := 0;
             eff_description := None;
             eff_consumed_by := Some ["tape3_epilogue"] |});
        ("e_lost", flag_effect)];
     consumers := [];
     tapeOrder := ["tape1"] |}.

(** The scenario of the specification: the decision of [tape2] has one
    option, which lists [e_foo] once. *)
Definition backward_scenario : Dataset :=
  {| decisions := [("d1", mk_decision "tape2" [mk_option "a" ["e_foo"]])];
     effects := [("e_foo", flag_effect)];
     consumers := [("c1", mk_consumer "tape1" ["e_foo"])];
     tapeOrder := ["tape1"; "tape2"] |}.

(** The same scenario with a decision of two options that both list
    [e_foo], next to a stat effect each. *)
Definition backward_two_listings : Dataset :=
  {| decisions :=
       [("d1", mk_decision "tape2"
                 [mk_option "a" ["e_foo"; "e_trust_up"];
                  mk_option "b" ["e_foo"; "e_guard_up"]])];
     effects := [("e_foo", flag_effect);
                 ("e_trust_up", stat_effect "trust" 5);
                 ("e_guard_up", stat_effect "guard" 5)];
     consumers := [("c1", mk_consumer "tape1" ["e_foo"])];
     tapeOrder := ["tape1"; "tape2"] |}.

(** A flag effect that is defined but produced by no decision. *)
Definition orphan_data : Dataset :=
  {| decisions := [("d1", mk_decision "tape1"
                            [mk_option "a" ["e_seen"]; mk_option "b" []])];
     effects := [("e_seen", flag_effect); ("e_orphan", flag_effect)];
     consumers := [("c1", mk_consumer "tape1" ["e_seen"])];
     tapeOrder := ["tape1"] |}.

(** A browser with nothing stored, whose clock advances by one. *)
Definition empty_browser : Browser :=
  {| stored := None; quota_ok := true;
     dateNow := λ n, (1000 + Z.of_nat n)%Z; ticks := 0 |}.

(** A small game: one decision whose first option sets a flag and raises
    trust, and whose second option lists an effect that is not in the
    catalog between a memory and an arc. *)
Definition play_data : Dataset :=
  {| decisions :=
       [("d1", mk_decision "tape1"
                 [mk_option "optA" ["flag_seen"; "stat_trust_+5"];
                  mk_option "optB" ["mem_first"; "e_missing"; "arc_open"]])];
     effects :=
       [("flag_seen", flag_effect);
        ("stat_trust_+5", stat_effect "trust" 5);
        ("stat_trust_-30", stat_effect "trust" (-30));
        ("stat_trust_+150", stat_effect "trust" 150);
        ("mem_first",
          {| eff_type := Some "memory"; eff_stat := None; eff_delta := 0;
             eff_description := Some "The first message";
             eff_consumed_by := None |});
        ("arc_open",
          {| eff_type := Some "arc"; eff_stat := None; eff_delta := 0;
             eff_description := None; eff_consumed_by := None |})];
     consumers := [("c1", mk_consumer "tape1" ["flag_seen"; "mem_first"])];
     tapeOrder := ["tape1"] |}.

Definition play_engine : Engine := loaded play_data empty_browser.

(** The same engine with [trust] at [v]. *)
Definition play_engine_at (v : Z) : Engine :=
  set_playerState play_engine
    (set_stats (playerState play_engine)
               (<["trust" := v]> (stats (playerState play_engine)))).

(** A catalog whose stat effect names the collection [activeFlags]. *)
Definition clobber_data : Dataset :=
  {| decisions := [("d1", mk_decision "tape1" [mk_option "optA" ["e_bad"]])];
     effects := [("e_bad", stat_effect "activeFlags" 1)];
     consumers := [];
     tapeOrder := ["tape1"] |}.

Definition clobber_engine : Engine := loaded clobber_data empty_browser.

(** The engine [play_engine] after option [optA] of [d1] was chosen. *)
Definition played_engine : Engine :=
  (makeChoice "d1" "optA" (play_engine, empty_browser)).2.1.

Definition mk_ending (id : string) (requires : option (list string))
    (min_trust : option Z) : Ending :=
  {| end_id := Some id; end_requires := requires;
     end_min_trust := min_trust; end_min_guard := None;
     end_description := None |}.

(** The candidates of the specification's scenario. *)
Definition scenario_endings : Endings :=
  EndingsArray [mk_ending "A" None (Some 20%Z);
                mk_ending "B" (Some ["e_x"]) None;
                mk_ending "default" None None].

(** Candidates whose first one specifies a minimum of 0. *)
Definition zero_minimum_endings : Endings :=
  EndingsArray [mk_ending "A" None (Some 0%Z);
                mk_ending "default" None None].

(** The document [{"stats": {"trust": -5}}]. *)
Definition negative_trust_document : JsonString :=
  Json {| doc_stats := Some {| sd_trust := Some (-5)%Z; sd_guard := None;
                               sd_honesty := None;
                               sd_vulnerability := None |};
          doc_trust := None; doc_guard := None; doc_honesty := None;
          doc_vulnerability := None; doc_flags := None;
          doc_memories := None; doc_arcs := None; doc_history := None |}.

(** Tapes named like members of [Object.prototype]: a consumer in tape
    [toString] and a decision in tape [valueOf], neither in the ordering. *)
Definition inherited_tapes : Dataset :=
  {| decisions := [("d1", mk_decision "valueOf" [mk_option "a" ["e_foo"]])];
     effects := [("e_foo", flag_effect)];
     consumers := [("c1", mk_consumer "toString" ["e_foo"])];
     tapeOrder := ["tape1"; "tape2"] |}.

(** A tape named [__proto__] first in the ordering, with a consumer in it
    and a producing decision in the tape after it. *)
Definition proto_tape : Dataset :=
  {| decisions := [("d1", mk_decision "tape2" [mk_option "a" ["e_foo"]])];
     effects := [("e_foo", flag_effect)];
     consumers := [("c1", mk_consumer "__proto__" ["e_foo"])];
     tapeOrder := ["__proto__"; "tape2"] |}.

(** * Properties *)

(** Running a method: unfold the operations of [M] and compute. *)
Create HintDb run_M discriminated.
#[local] Hint Unfold mbind M_bind mret M_ret fmap M_fmap get_engine
  get_browser get_playerState put_engine put_browser throw try_catch
  getItem setItem removeItem JSON_parse JSON_stringify Date_now collection
  : run_M.

Ltac run := repeat (autounfold with run_M in *; cbn in *).

(** Deciding a closed equation by evaluation. *)
Ltac evaluate := vm_compute; reflexivity.

(** ** ES collections *)

Lemma elem_of_flat_map {A B} (f : A → list B) (l : list A) (y : B) :
  y ∈ flat_map f l ↔ ∃ x, x ∈ l ∧ y ∈ f x.
Proof.
  rewrite list_elem_of_In, in_flat_map.
  split; intros (x & Hx & Hy); exists x.
  - by rewrite !list_elem_of_In.
  - by rewrite <- !list_elem_of_In.
Qed.

Lemma JsSet_has_true s x : JsSet.has s x = true ↔ x ∈ s.
Proof. unfold JsSet.has. by rewrite bool_decide_eq_true. Qed.

Lemma JsSet_add_elem s x y : y ∈ JsSet.add s x ↔ y ∈ s ∨ y = x.
Proof.
  unfold JsSet.add. destruct (JsSet.has s x) eqn:Hx.
  - apply JsSet_has_true in Hx. naive_solver.
  - rewrite elem_of_app, list_elem_of_singleton. naive_solver.
Qed.

Lemma JsSet_add_NoDup s x : NoDup s → NoDup (JsSet.add s x).
Proof.
  intros Hs. unfold JsSet.add. destruct (JsSet.has s x) eqn:Hx; [done|].
  apply NoDup_app. split_and!; [done| |apply NoDup_singleton].
  intros y Hy ->%list_elem_of_singleton.
  apply JsSet_has_true in Hy. congruence.
Qed.

Lemma JsSet_foldl_add s l :
  (NoDup s → NoDup (foldl JsSet.add s l))
  ∧ ∀ y, y ∈ foldl JsSet.add s l ↔ y ∈ s ∨ y ∈ l.
Proof.
  revert s. induction l as [|x l IH]; intros s; simpl.
  - split; [done|]. intros y. rewrite elem_of_nil. naive_solver.
  - destruct (IH (JsSet.add s x)) as [IH1 IH2]. split.
    + intros Hs. by apply IH1, JsSet_add_NoDup.
    + intros y. rewrite IH2, JsSet_add_elem, elem_of_cons. naive_solver.
Qed.

Lemma JsSet_from_list_NoDup l : NoDup (JsSet.from_list l).
Proof. apply JsSet_foldl_add, NoDup_nil_2. Qed.

Lemma JsSet_from_list_elem l y : y ∈ JsSet.from_list l ↔ y ∈ l.
Proof.
  unfold JsSet.from_list.
  rewrite (proj2 (JsSet_foldl_add JsSet.empty l)).
  unfold JsSet.empty. rewrite elem_of_nil. naive_solver.
Qed.

Lemma JsSet_from_list_to_set l :
  list_to_set (JsSet.from_list l) =@{gset string} list_to_set l.
Proof.
  apply set_eq. intros y.
  by rewrite !elem_of_list_to_set, JsSet_from_list_elem.
Qed.

(** On two [Set]s, [setsEqual] decides equality of the element sets: with
    equal sizes, inclusion one way is inclusion both ways. *)
Lemma setsEqual_spec a b :
  NoDup a → NoDup b →
  setsEqual a b = true ↔ list_to_set a =@{gset string} list_to_set b.
Proof.
  intros Ha Hb. unfold setsEqual, JsSet.size. split.
  - destruct (length a =? length b)%nat eqn:Hlen; simpl; [|done].
    apply Nat.eqb_eq in Hlen. intros Hall.
    assert (Hsub : ∀ x, x ∈ a → x ∈ b).
    { intros x Hx. apply JsSet_has_true.
      rewrite forallb_forall in Hall. apply Hall. by apply list_elem_of_In. }
    assert (Hperm : a ≡ₚ b).
    { apply submseteq_length_Permutation; [by apply NoDup_submseteq|lia]. }
    apply set_eq. intros x. rewrite !elem_of_list_to_set. by rewrite Hperm.
  - intros Heq.
    assert (Hiff : ∀ x, x ∈ a ↔ x ∈ b).
    { intros x. by rewrite <- !(elem_of_list_to_set (C:=gset string)), Heq. }
    assert (Hperm : a ≡ₚ b) by (by apply NoDup_Permutation).
    rewrite (Permutation_length Hperm), Nat.eqb_refl. simpl.
    apply forallb_forall. intros x Hx.
    apply JsSet_has_true, Hiff. by apply list_elem_of_In.
Qed.

(** ** CHECK 6: ghost decisions *)

Lemma allIdentical_first sets :
  allIdentical sets =
  match sets with
  | [] => true
  | first :: rest => forallb (λ set, setsEqual set first) rest
  end.
Proof.
  unfold allIdentical, every. destruct sets as [|first rest]; [done|].
  rewrite imap_cons. simpl.
  change (imap _ rest) with (imap (const (λ set, setsEqual set first)) rest).
  rewrite imap_const. induction rest as [|s rest IH]; csimpl; [done|].
  unfold id at 1. by f_equal.
Qed.

Lemma optionEffectSets_options decision :
  optionEffectSets decision =
  map (λ opt, JsSet.from_list (or_empty (opt_effects opt)))
      (or_empty (dec_options decision)).
Proof. unfold optionEffectSets. by destruct (dec_options decision). Qed.

(** All sets equal the first one exactly when the options' effect sets are
    pairwise equal. *)
Lemma allIdentical_pairwise decision :
  allIdentical (optionEffectSets decision) = true ↔
  ∀ o1 o2, o1 ∈ or_empty (dec_options decision) →
           o2 ∈ or_empty (dec_options decision) →
           effect_set o1 = effect_set o2.
Proof.
  rewrite allIdentical_first, optionEffectSets_options.
  destruct (or_empty (dec_options decision)) as [|o0 opts]; simpl.
  { split; [|done]. intros _ o1 o2 Ho1. by apply elem_of_nil in Ho1. }
  assert (Hfirst : ∀ o,
    setsEqual (JsSet.from_list (or_empty (opt_effects o)))
              (JsSet.from_list (or_empty (opt_effects o0))) = true
    ↔ effect_set o = effect_set o0).
  { intros o. rewrite setsEqual_spec by apply JsSet_from_list_NoDup.
    by rewrite !JsSet_from_list_to_set. }
  rewrite forallb_forall. split.
  - intros Hall.
    assert (Hto0 : ∀ o, o ∈ o0 :: opts → effect_set o = effect_set o0).
    { intros o [->|Ho]%elem_of_cons; [done|].
      apply Hfirst, Hall, in_map_iff. exists o.
      split; [done|]. by apply list_elem_of_In. }
    intros o1 o2 Ho1 Ho2. by rewrite (Hto0 o1), (Hto0 o2).
  - intros Hpair s (o & <- & Ho)%in_map_iff. apply Hfirst.
    apply Hpair; [right; by apply list_elem_of_In|left].
Qed.

Lemma optionEffectSets_length decision :
  length (optionEffectSets decision) = length (or_empty (dec_options decision)).
Proof. rewrite optionEffectSets_options. apply length_map. Qed.

Lemma ghost_decision_reported ds decId :
  GHOST_DECISION decId ∈ errors (validate ds) ↔
  ∃ decision, (decId, decision) ∈ decisions ds
    ∧ (2 ≤ length (or_empty (dec_options decision)))%nat
    ∧ allIdentical (optionEffectSets decision) = true.
Proof.
  unfold validate. simpl. rewrite !elem_of_app.
  assert (H1 : GHOST_DECISION decId ∉ check_broken_effects ds).
  { unfold check_broken_effects. rewrite elem_of_flat_map.
    intros ([d dec] & _ & (o & _ & He)%elem_of_flat_map).
    apply elem_of_flat_map in He as (e & _ & He).
    destruct (JsSet.has _ e); [by apply elem_of_nil in He|].
    by apply list_elem_of_singleton in He. }
  assert (H2 : GHOST_DECISION decId ∉ check_broken_consumers ds).
  { unfold check_broken_consumers. rewrite elem_of_flat_map.
    intros ([c con] & _ & (e & _ & He)%elem_of_flat_map).
    destruct (JsSet.has _ e); [by apply elem_of_nil in He|].
    by apply list_elem_of_singleton in He. }
  assert (H3 : GHOST_DECISION decId ∉ check_tape_order ds).
  { unfold check_tape_order. rewrite elem_of_flat_map.
    intros ([c con] & _ & He).
    destruct (is_undefined _); [by apply elem_of_nil in He|].
    apply elem_of_flat_map in He as (e & _ & (p & _ & He)%elem_of_flat_map).
    destruct (_ && _); [|by apply elem_of_nil in He].
    by apply list_elem_of_singleton in He. }
  transitivity (GHOST_DECISION decId ∈ check_ghost_decisions ds);
    [naive_solver|].
  unfold check_ghost_decisions. rewrite elem_of_flat_map. split.
  - intros ([d decision] & Hin & He).
    rewrite optionEffectSets_length in He.
    destruct (2 <=? _)%nat eqn:Hlen; [|by apply elem_of_nil in He].
    destruct (allIdentical _) eqn:Hall; [|by apply elem_of_nil in He].
    apply list_elem_of_singleton in He. injection He as ->.
    exists decision. apply Nat.leb_le in Hlen. done.
  - intros (decision & Hin & Hlen & Hall). exists (decId, decision).
    split; [done|]. rewrite optionEffectSets_length, Hall.
    apply Nat.leb_le in Hlen. rewrite Hlen. by left.
Qed.

Lemma JsMap_get_Some_elem {V} (m : list (string * V)) k v :
  JsMap.get m k = Some v → (k, v) ∈ m.
Proof.
  induction m as [|[k' v'] m IH]; simpl; [done|].
  destruct (decide (k' = k)) as [->|Hne].
  - intros [= ->]. left.
  - intros Hget. right. by apply IH.
Qed.

Lemma JsMap_get_None {V} (m : list (string * V)) k :
  JsMap.get m k = None ↔ k ∉ m.*1.
Proof.
  induction m as [|[k' v'] m IH]; csimpl.
  - split; [|done]. intros _ H. by apply elem_of_nil in H.
  - rewrite not_elem_of_cons. destruct (decide (k' = k)) as [->|Hne].
    + naive_solver.
    + rewrite IH. naive_solver.
Qed.

Lemma JsMap_get_elem {V} (m : list (string * V)) k v :
  object_keys_distinct m → (k, v) ∈ m → JsMap.get m k = Some v.
Proof.
  unfold object_keys_distinct.
  induction m as [|[k' v'] m IH]; csimpl; intros Hnd Hin.
  - by apply elem_of_nil in Hin.
  - apply NoDup_cons in Hnd as [Hk' Hnd].
    apply elem_of_cons in Hin as [[= -> ->]|Hin].
    + by rewrite decide_True.
    + rewrite decide_False; [by apply IH|].
      intros ->. apply Hk'. apply list_elem_of_fmap. by exists (k, v).
Qed.

Lemma object_lookup_unique {V} (obj : list (string * V)) k v1 v2 :
  object_keys_distinct obj → (k, v1) ∈ obj → (k, v2) ∈ obj → v1 = v2.
Proof.
  intros Hnd H1 H2.
  apply (JsMap_get_elem _ _ _ Hnd) in H1, H2. congruence.
Qed.

(** C1.  For a decision [D] of the dataset with at least two options, the
    validator reports [GHOST_DECISION] for [D] exactly when the effect
    sets of its options (each [effects] list as an unordered set without
    repetitions) are pairwise identical; a decision with fewer than two
    options is never reported. *)
Theorem ghost_decision_iff_identical_effect_sets ds decId decision :
  object_keys_distinct (decisions ds) →
  (decId, decision) ∈ decisions ds →
  let options := or_empty (dec_options decision) in
  ((2 ≤ length options)%nat →
     GHOST_DECISION decId ∈ errors (validate ds) ↔
     ∀ o1 o2, o1 ∈ options → o2 ∈ options → effect_set o1 = effect_set o2)
  ∧ ((length options < 2)%nat →
     GHOST_DECISION decId ∉ errors (validate ds)).
Proof.
  intros Hkeys Hin options.
  assert (Hthis : ∀ decision', (decId, decision') ∈ decisions ds →
                               decision' = decision).
  { intros decision' Hin'. by eapply object_lookup_unique. }
  split.
  - intros Hlen. subst options.
    rewrite ghost_decision_reported, <- allIdentical_pairwise.
    split.
    + intros (decision' & Hin' & _ & Hall).
      by rewrite <- (Hthis decision' Hin').
    + intros Hall. by exists decision.
  - intros Hlen (decision' & Hin' & Hlen' & _)%ghost_decision_reported.
    rewrite (Hthis decision' Hin') in Hlen'. subst options. lia.
Qed.

Lemma ghost_decision_iff_identical_effect_sets_witness :
  object_keys_distinct (decisions ghost_decision_data)
  ∧ ("d_cosmetic", cosmetic_decision) ∈ decisions ghost_decision_data
  ∧ GHOST_DECISION "d_cosmetic" ∈ errors (validate ghost_decision_data).
Proof.
  assert (Hkeys : object_keys_distinct (decisions ghost_decision_data)).
  { apply (bool_decide_unpack _). vm_compute. exact I. }
  assert (Hin : ("d_cosmetic", cosmetic_decision)
                  ∈ decisions ghost_decision_data) by left.
  split_and!; [done..|].
  apply (ghost_decision_iff_identical_effect_sets
           ghost_decision_data "d_cosmetic" cosmetic_decision Hkeys Hin).
  - simpl. lia.
  - intros o1 o2 Ho1 Ho2. simpl in Ho1, Ho2.
    assert (Hset : ∀ o, o ∈ [mk_option "a" ["e_x"; "e_y"; "e_x"];
                             mk_option "b" ["e_y"; "e_x"]] →
                        effect_set o = {["e_x"; "e_y"]}).
    { intros o Ho. repeat apply elem_of_cons in Ho as [->|Ho];
        [| |by apply elem_of_nil in Ho];
        unfold effect_set; simpl; set_solver. }
    by rewrite (Hset o1), (Hset o2).
Defined.

(** ** CHECKS 1 and 2: the two indices *)

Lemma JsMap_get_set {V} (m : list (string * V)) k v k' :
  JsMap.get (JsMap.set m k v) k' =
  if decide (k = k') then Some v else JsMap.get m k'.
Proof.
  induction m as [|[k0 v0] m IH]; simpl.
  - repeat case_decide; done.
  - destruct (decide (k0 = k)) as [->|Hne]; simpl.
    + repeat case_decide; congruence.
    + rewrite IH. repeat case_decide; congruence.
Qed.

Lemma JsMap_elem_keys {V} (m : list (string * V)) k :
  (∃ v, (k, v) ∈ m) ↔ JsMap.get m k ≠ None.
Proof.
  rewrite JsMap_get_None. split.
  - intros (v & Hin) Hk. apply Hk, list_elem_of_fmap. by exists (k, v).
  - intros Hk. destruct (decide (k ∈ m.*1)) as [Hin|]; [|done].
    apply list_elem_of_fmap in Hin as ([k' v] & -> & Hin). by exists v.
Qed.

Lemma push_to_get {V} (m : list (string * list V)) k v k' :
  JsMap.get (push_to m k v) k' =
  if decide (k = k') then Some (or_empty (JsMap.get m k) ++ [v])
  else JsMap.get m k'.
Proof.
  unfold push_to, JsMap.has. rewrite JsMap_get_set.
  case_decide as Hk; [subst k'|].
  - destruct (JsMap.get m k) eqn:Hget; [by rewrite Hget|].
    by rewrite JsMap_get_set, decide_True.
  - destruct (JsMap.get m k); [done|]. by rewrite JsMap_get_set, decide_False.
Qed.

Lemma foldl_push_to_get {V} (pairs : list (string * V)) m k :
  JsMap.get (foldl (λ m p, push_to m p.1 p.2) m pairs) k =
  extend (JsMap.get m k) (pushed k pairs).
Proof.
  revert m. induction pairs as [|[k0 v0] pairs IH]; intros m; [done|].
  simpl. rewrite IH, push_to_get. unfold pushed.
  rewrite filter_cons. simpl. case_decide as Hk; [subst k0|done].
  csimpl. destruct (filter _ pairs).*2; simpl; [done|].
  by rewrite <- app_assoc.
Qed.

Lemma foldl_flat_map {A B C} (f : A → C → A) (g : B → list C) l a :
  foldl f a (flat_map g l) = foldl (λ a x, foldl f a (g x)) a l.
Proof.
  revert a. induction l as [|x l IH]; intros a; simpl; [done|].
  by rewrite foldl_app, IH.
Qed.

Lemma foldl_ext_in {A B} (f g : A → B → A) l a :
  (∀ a x, x ∈ l → f a x = g a x) → foldl f a l = foldl g a l.
Proof.
  revert a. induction l as [|x l IH]; intros a Hfg; simpl; [done|].
  rewrite Hfg by left. apply IH. intros a' y Hy. apply Hfg. by right.
Qed.

Lemma index_produced_pairs ds :
  index_produced ds =
  foldl (λ m p, push_to m p.1 p.2) JsMap.empty (produced_pairs ds).
Proof.
  unfold index_produced, produced_pairs. rewrite foldl_flat_map.
  apply foldl_ext_in. intros m [decId decision] _.
  rewrite foldl_fmap. unfold listings. rewrite foldl_flat_map. done.
Qed.

Lemma index_consumed_pairs ds :
  index_consumed ds =
  foldl (λ m p, push_to m p.1 p.2) JsMap.empty (consumed_pairs ds).
Proof.
  unfold index_consumed, consumed_pairs. rewrite foldl_flat_map.
  apply foldl_ext_in. intros m [consumerId consumer] _.
  by rewrite foldl_fmap.
Qed.

Lemma pushed_elem {V} (k : string) (pairs : list (string * V)) v :
  v ∈ pushed k pairs ↔ (k, v) ∈ pairs.
Proof.
  unfold pushed. rewrite list_elem_of_fmap. split.
  - intros ([k' v'] & -> & [Hk Hin]%list_elem_of_filter). simpl in Hk.
    by subst k'.
  - intros Hin. exists (k, v). split; [done|].
    by apply list_elem_of_filter.
Qed.

Lemma produced_pairs_elem ds E decId :
  (E, decId) ∈ produced_pairs ds ↔
  ∃ decision option, (decId, decision) ∈ decisions ds
    ∧ option ∈ or_empty (dec_options decision)
    ∧ E ∈ or_empty (opt_effects option).
Proof.
  unfold produced_pairs. rewrite elem_of_flat_map. split.
  - intros ([d decision] & Hin & (e & [= -> ->] & He)%list_elem_of_fmap).
    apply elem_of_flat_map in He as (o & Ho & He). by exists decision, o.
  - intros (decision & o & Hin & Ho & He). exists (decId, decision).
    split; [done|]. apply list_elem_of_fmap. exists E. split; [done|].
    apply elem_of_flat_map. by exists o.
Qed.

Lemma consumed_pairs_elem ds E consumerId :
  (E, consumerId) ∈ consumed_pairs ds ↔
  ∃ consumer, (consumerId, consumer) ∈ consumers ds
    ∧ E ∈ or_empty (con_checks consumer).
Proof.
  unfold consumed_pairs. rewrite elem_of_flat_map. split.
  - intros ([c consumer] & Hin & (e & [= -> ->] & He)%list_elem_of_fmap).
    by exists consumer.
  - intros (consumer & Hin & He). exists (consumerId, consumer).
    split; [done|]. apply list_elem_of_fmap. by exists E.
Qed.

Lemma list_nonempty_elem {A} (l : list A) : l ≠ [] ↔ ∃ x, x ∈ l.
Proof.
  destruct l as [|x l].
  - split; [done|]. intros (x & Hx). by apply elem_of_nil in Hx.
  - split; [|done]. intros _. exists x. left.
Qed.

Lemma list_empty_elem {A} (l : list A) : l = [] ↔ ¬ ∃ x, x ∈ l.
Proof.
  destruct l as [|x l].
  - split; [|done]. intros _ (x & Hx). by apply elem_of_nil in Hx.
  - split; [done|]. intros Hne. destruct Hne. exists x. left.
Qed.

(** [producedEffects.get(E)]: the producing decision ids, one per listing;
    absent when no option lists [E]. *)
Lemma producedEffects_get ds E :
  JsMap.get (index_produced ds) E = extend None (pushed E (produced_pairs ds)).
Proof. by rewrite index_produced_pairs, foldl_push_to_get. Qed.

Lemma consumedEffects_get ds E :
  JsMap.get (index_consumed ds) E = extend None (pushed E (consumed_pairs ds)).
Proof. by rewrite index_consumed_pairs, foldl_push_to_get. Qed.

Lemma extend_None_or_empty {V} (l : list V) : or_empty (extend None l) = l.
Proof. by destruct l. Qed.

Lemma extend_None_is_None {V} (l : list V) : extend None l = None ↔ l = [].
Proof. by destruct l. Qed.

Lemma producedEffects_has ds E :
  (∃ producers, (E, producers) ∈ index_produced ds) ↔ is_produced ds E.
Proof.
  rewrite JsMap_elem_keys, producedEffects_get, extend_None_is_None.
  rewrite list_nonempty_elem. unfold is_produced.
  setoid_rewrite pushed_elem. setoid_rewrite produced_pairs_elem.
  naive_solver.
Qed.

Lemma consumedEffects_empty ds E :
  or_empty (JsMap.get (index_consumed ds) E) = [] ↔ ¬ is_checked ds E.
Proof.
  rewrite consumedEffects_get, extend_None_or_empty.
  rewrite list_empty_elem. unfold is_checked.
  setoid_rewrite pushed_elem. setoid_rewrite consumed_pairs_elem.
  naive_solver.
Qed.

(** ** CHECK 4: ghost effects *)

Lemma no_length_false {A} (x : option (list A)) :
  no_length x = false ↔ ∃ a l, x = Some (a :: l).
Proof.
  destruct x as [[|a l]|]; simpl; split; try done;
    try (intros (? & ? & ?); done).
  intros _. by exists a, l.
Qed.

Lemma no_length_has_length {A} (x : option (list A)) :
  no_length x = true → has_length x = false.
Proof. by destruct x as [[|a l]|]. Qed.

(** The warning is emitted for exactly the produced effects that are
    neither [stat] nor [arc], are checked by no consumer and have no
    non-empty inline [consumed_by]. *)
Lemma ghost_effect_reported ds E :
  ghost_effect_flagged ds E ↔
  is_produced ds E
  ∧ type_is (own (effects ds) E) "stat" = false
  ∧ type_is (own (effects ds) E) "arc" = false
  ∧ ¬ is_checked ds E
  ∧ ¬ inline_override ds E.
Proof.
  unfold ghost_effect_flagged, validate, inline_override. simpl.
  setoid_rewrite elem_of_app. setoid_rewrite elem_of_app.
  rewrite <- producedEffects_has, <- consumedEffects_empty, <- no_length_false.
  assert (H5 : ∀ p, GHOST_EFFECT E p ∉ check_unused_effects ds).
  { intros p (e & _ & He)%elem_of_flat_map.
    destruct (JsMap.has _ e); [by apply elem_of_nil in He|].
    by apply list_elem_of_singleton in He. }
  assert (H7 : ∀ p, GHOST_EFFECT E p ∉ check_unknown_tapes ds).
  { intros p ([c con] & _ & He)%elem_of_flat_map.
    destruct (is_undefined _); [|by apply elem_of_nil in He].
    by apply list_elem_of_singleton in He. }
  split.
  - intros (p & [Hg|[Hu|Hu]]); [|by apply H5 in Hu|by apply H7 in Hu].
    apply elem_of_flat_map in Hg as ([e p'] & Hin & He). cbv zeta in He.
    destruct (type_is (own (effects ds) e) "stat") eqn:Hstat;
      [by apply elem_of_nil in He|].
    destruct (type_is (own (effects ds) e) "arc") eqn:Harc;
      [by apply elem_of_nil in He|].
    destruct (length _ =? 0)%nat eqn:Hlen; [|by apply elem_of_nil in He].
    destruct (no_length _) eqn:Hover; [|by apply elem_of_nil in He].
    simpl in He. rewrite (no_length_has_length _ Hover) in He.
    apply list_elem_of_singleton in He. injection He as -> ->.
    apply Nat.eqb_eq, length_zero_iff_nil in Hlen.
    split_and!; [by exists p'|done..|by rewrite Hover].
  - intros ((p & Hin) & Hstat & Harc & Hnone & Hover).
    exists p. left. apply elem_of_flat_map. exists (E, p). split; [done|].
    cbv beta iota zeta. rewrite Hstat, Harc, Hnone. simpl.
    destruct (no_length _) eqn:Hno; [|by destruct Hover].
    rewrite (no_length_has_length _ Hno). left.
Qed.

(** C3 (as amended).  For an effect id [E] that some decision produces and
    whose type is neither [stat] nor [arc], the validator emits the
    [GHOST_EFFECT] warning for [E] exactly when no consumer's [checks]
    contain [E] and [E] has no non-empty inline [consumed_by]. *)
Theorem ghost_effect_iff_unchecked_and_no_override ds E :
  is_produced ds E →
  type_is (own (effects ds) E) "stat" = false →
  type_is (own (effects ds) E) "arc" = false →
  ghost_effect_flagged ds E ↔ ¬ is_checked ds E ∧ ¬ inline_override ds E.
Proof. intros Hprod Hstat Harc. rewrite ghost_effect_reported. tauto. Qed.

Lemma override_data_produced E :
  E ∈ ["e_note"; "e_lost"] → is_produced override_data E.
Proof.
  intros HE. exists "d1", (mk_decision "tape1"
    [mk_option "a" ["e_note"]; mk_option "b" ["e_lost"]]).
  apply elem_of_cons in HE as [->|HE%list_elem_of_singleton].
  - exists (mk_option "a" ["e_note"]). split_and!; by left.
  - subst E. exists (mk_option "b" ["e_lost"]).
    split_and!; [left|right; left|left].
Qed.

Lemma override_data_unchecked E : ¬ is_checked override_data E.
Proof. intros (c & con & Hin & _). by apply elem_of_nil in Hin. Qed.

Lemma ghost_effect_iff_unchecked_and_no_override_witness :
  is_produced override_data "e_lost"
  ∧ type_is (own (effects override_data) "e_lost") "stat" = false
  ∧ type_is (own (effects override_data) "e_lost") "arc" = false
  ∧ ghost_effect_flagged override_data "e_lost".
Proof.
  assert (Hprod : is_produced override_data "e_lost").
  { apply override_data_produced. right. left. }
  split_and!; [done..|].
  apply (ghost_effect_iff_unchecked_and_no_override
           override_data "e_lost" Hprod eq_refl eq_refl).
  split; [apply override_data_unchecked|].
  intros (x & l & H). vm_compute in H. discriminate H.
Defined.

(** C3 as stated fails: [e_note] is produced, is a flag, and no consumer
    checks it, yet the validator does not flag it, because it carries an
    inline [consumed_by]. *)
Lemma ghost_effect_override_counterexample :
  is_produced override_data "e_note"
  ∧ type_is (own (effects override_data) "e_note") "stat" = false
  ∧ type_is (own (effects override_data) "e_note") "arc" = false
  ∧ ¬ (ghost_effect_flagged override_data "e_note"
       ↔ ¬ is_checked override_data "e_note").
Proof.
  split_and!; [apply override_data_produced; left|done..|].
  intros [_ Hflag].
  pose proof (Hflag (override_data_unchecked "e_note")) as Hghost.
  apply ghost_effect_reported in Hghost as (_ & _ & _ & _ & Hover).
  apply Hover. by exists "tape3_epilogue", [].
Qed.

(** ** CHECK 7: tape ordering *)

Lemma tape_forEach_lookup tapes m i0 t :
  NoDup tapes → "__proto__" ∉ tapes →
  tape_forEach m i0 tapes !! t =
  match list_find (λ t', t' = t) tapes with
  | Some (j, _) => Some (i0 + j)%nat
  | None => m !! t
  end.
Proof.
  revert m i0. induction tapes as [|t0 tapes IH]; intros m i0 Hnd Hproto.
  { done. }
  apply NoDup_cons in Hnd as [Ht0 Hnd].
  apply not_elem_of_cons in Hproto as [Hne Hproto].
  simpl. rewrite IH by done. unfold tape_assign.
  rewrite decide_False by done.
  destruct (decide (t0 = t)) as [->|Hneq].
  - assert (Hnone : list_find (λ t', t' = t) tapes = None).
    { apply list_find_None, Forall_forall. by intros x Hx ->. }
    rewrite Hnone. simpl. rewrite lookup_insert_eq. f_equal. lia.
  - destruct (list_find (λ t', t' = t) tapes) as [[j x]|]; simpl.
    + f_equal. lia.
    + by rewrite lookup_insert_ne.
Qed.

(** With an ordering without repetition and plain names, [tapeIndex[tape]]
    is the position of the tape, or [undefined]. *)
Lemma tape_lookup_position tapes tape :
  NoDup tapes → (∀ t, t ∈ tapes → inherited t = false) →
  inherited (key_of tape) = false →
  tape_lookup (build_tapeIndex tapes) tape =
  match position tapes tape with
  | Some i => IdxNumber i
  | None => IdxUndefined
  end.
Proof.
  intros Hnd Hplain Htape. unfold tape_lookup, build_tapeIndex, position.
  rewrite tape_forEach_lookup; [|done|].
  - destruct (list_find _ tapes) as [[j x]|]; simpl; [done|].
    by rewrite lookup_empty, Htape.
  - intros Hin. by apply Hplain in Hin.
Qed.

(** A tape of a decision that is no plain name is never ahead of a
    consumer's position: an object against a number compares false. *)
Lemma tape_lookup_producer tapes tape i :
  NoDup tapes → (∀ t, t ∈ tapes → inherited t = false) →
  negb (is_undefined (tape_lookup (build_tapeIndex tapes) tape))
    && js_gt (tape_lookup (build_tapeIndex tapes) tape) (IdxNumber i)
  = match position tapes tape with
    | Some j => (i <? j)%nat
    | None => false
    end.
Proof.
  intros Hnd Hplain. unfold tape_lookup, build_tapeIndex, position.
  rewrite tape_forEach_lookup; [|done|].
  - destruct (list_find _ tapes) as [[j x]|]; simpl; [done|].
    rewrite lookup_empty. by destruct (inherited _).
  - intros Hin. by apply Hplain in Hin.
Qed.

Lemma flat_map_ext_elem {A B} (f g : A → list B) l :
  (∀ x, x ∈ l → f x = g x) → flat_map f l = flat_map g l.
Proof.
  induction l as [|x l IH]; intros Hfg; simpl; [done|].
  rewrite Hfg by left. f_equal. apply IH. intros y Hy. apply Hfg. by right.
Qed.

Lemma flat_map_flat_map {A B C} (g : B → list C) (h : A → list B) l :
  flat_map g (flat_map h l) = flat_map (λ x, flat_map g (h x)) l.
Proof.
  induction l as [|x l IH]; simpl; [done|]. by rewrite flat_map_app, IH.
Qed.

Lemma flat_map_all_nil {A B} (f : A → list B) l :
  (∀ x, x ∈ l → f x = []) → flat_map f l = [].
Proof.
  induction l as [|x l IH]; intros Hf; simpl; [done|].
  rewrite Hf by left. apply IH. intros y Hy. apply Hf. by right.
Qed.

Lemma pushed_flat_map {A V} (k : string) (h : A → list (string * V)) l :
  pushed k (flat_map h l) = flat_map (λ x, pushed k (h x)) l.
Proof.
  unfold pushed. induction l as [|x l IH]; simpl; [done|].
  by rewrite filter_app, fmap_app, IH.
Qed.

Lemma pushed_listing {V} (k : string) (v : V) (l : list string) :
  pushed k ((λ e, (e, v)) <$> l) =
  flat_map (λ e, if decide (e = k) then [v] else []) l.
Proof.
  unfold pushed. induction l as [|e l IH]; csimpl; [done|].
  rewrite filter_cons. simpl. case_decide; csimpl; by rewrite IH.
Qed.

(** The producers of [E] as CHECK 7 reads them from [producedEffects]. *)
Lemma producers_listings ds E :
  or_empty (JsMap.get (index_produced ds) E) =
  flat_map (λ '(decId, decision),
    flat_map (λ E', if decide (E' = E) then [decId] else [])
             (listings decision))
    (decisions ds).
Proof.
  rewrite producedEffects_get, extend_None_or_empty.
  unfold produced_pairs. rewrite pushed_flat_map.
  apply flat_map_ext_elem. intros [decId decision] _. apply pushed_listing.
Qed.

(** CHECK 7 reports one error per pair of listings. *)
Lemma check_tape_order_listings ds :
  NoDup (tapeOrder ds) → plain_tape_names ds →
  object_keys_distinct (decisions ds) →
  check_tape_order ds = backward_dependencies ds.
Proof.
  intros Hnd [Hplain Hcons] Hkeys.
  unfold check_tape_order, backward_dependencies.
  apply flat_map_ext_elem. intros [consumerId consumer] Hin.
  cbv zeta. rewrite tape_lookup_position by eauto.
  unfold strictly_after.
  destruct (position (tapeOrder ds) (con_tape consumer)) as [i|]; simpl.
  - apply flat_map_ext_elem. intros E _.
    rewrite producers_listings, flat_map_flat_map.
    apply flat_map_ext_elem. intros [decId decision] Hdec.
    rewrite flat_map_flat_map.
    apply flat_map_ext_elem. intros E' _.
    case_decide; simpl; [|done]. rewrite app_nil_r.
    unfold own. rewrite (JsMap_get_elem _ _ _ Hkeys Hdec). simpl.
    rewrite tape_lookup_producer by done.
    by destruct (position (tapeOrder ds) (dec_tape decision)) as [j|].
  - symmetry. apply flat_map_all_nil. intros E _.
    apply flat_map_all_nil. intros [decId decision] _.
    apply flat_map_all_nil. intros E' _. by case_decide.
Qed.

Lemma filter_flat_map_none {A B} (P : B → bool) (f : A → list B) l :
  (∀ x y, y ∈ f x → P y = false) → List.filter P (flat_map f l) = [].
Proof.
  intros HP. induction l as [|x l IH]; simpl; [done|].
  rewrite List.filter_app, IH, app_nil_r.
  assert (Hx : ∀ y, y ∈ f x → P y = false) by eauto.
  induction (f x) as [|y k IHk]; simpl; [done|].
  rewrite Hx by left. apply IHk. intros z Hz. apply Hx. by right.
Qed.

Lemma filter_all {A} (P : A → bool) l :
  (∀ y, y ∈ l → P y = true) → List.filter P l = l.
Proof.
  induction l as [|y l IH]; intros HP; simpl; [done|].
  rewrite HP by left. f_equal. apply IH. intros z Hz. apply HP. by right.
Qed.

(** The [BACKWARD_DEPENDENCY] errors of a report are those of CHECK 7. *)
Lemma backward_errors_of_report ds :
  List.filter is_backward_dependency (errors (validate ds))
  = check_tape_order ds.
Proof.
  unfold validate. simpl. rewrite !List.filter_app.
  assert (H1 : List.filter is_backward_dependency (check_broken_effects ds)
               = []).
  { apply filter_flat_map_none. intros [d dec] y.
    intros (o & _ & (e & _ & He)%elem_of_flat_map)%elem_of_flat_map.
    destruct (JsSet.has _ e); [by apply elem_of_nil in He|].
    by apply list_elem_of_singleton in He as ->. }
  assert (H2 : List.filter is_backward_dependency (check_broken_consumers ds)
               = []).
  { apply filter_flat_map_none. intros [c con] y.
    intros (e & _ & He)%elem_of_flat_map.
    destruct (JsSet.has _ e); [by apply elem_of_nil in He|].
    by apply list_elem_of_singleton in He as ->. }
  assert (H3 : List.filter is_backward_dependency (check_ghost_decisions ds)
               = []).
  { apply filter_flat_map_none. intros [d dec] y He. cbv zeta in He.
    destruct (2 <=? _)%nat; [|by apply elem_of_nil in He].
    destruct (allIdentical _); [|by apply elem_of_nil in He].
    by apply list_elem_of_singleton in He as ->. }
  rewrite H1, H2, H3. simpl. apply filter_all.
  intros y ([c con] & _ & He)%elem_of_flat_map. cbv zeta in He.
  destruct (is_undefined _); [by apply elem_of_nil in He|].
  apply elem_of_flat_map in He as (e & _ & (p & _ & He)%elem_of_flat_map).
  destruct (_ && _); [|by apply elem_of_nil in He].
  by apply list_elem_of_singleton in He as ->.
Qed.

Lemma backward_dependencies_elem ds cT pT E :
  BACKWARD_DEPENDENCY cT pT E ∈ backward_dependencies ds ↔
  ∃ consumerId consumer decId decision option,
    (consumerId, consumer) ∈ consumers ds
    ∧ con_tape consumer = cT
    ∧ E ∈ or_empty (con_checks consumer)
    ∧ (decId, decision) ∈ decisions ds
    ∧ dec_tape decision = pT
    ∧ option ∈ or_empty (dec_options decision)
    ∧ E ∈ or_empty (opt_effects option)
    ∧ strictly_after (tapeOrder ds) pT cT = true.
Proof.
  unfold backward_dependencies. rewrite elem_of_flat_map. split.
  - intros ([c consumer] & Hc & (e & He & H)%elem_of_flat_map).
    apply elem_of_flat_map in H as ([d decision] & Hd & H).
    apply elem_of_flat_map in H as (e' & He' & H).
    case_decide as Heq; [subst e'|by apply elem_of_nil in H].
    destruct (strictly_after _ _ _) eqn:Hafter; [|by apply elem_of_nil in H].
    apply list_elem_of_singleton in H. injection H as -> -> ->.
    apply elem_of_flat_map in He' as (o & Ho & He').
    by exists c, consumer, d, decision, o.
  - intros (c & consumer & d & decision & o & Hc & <- & He & Hd & <- & Ho
            & He' & Hafter).
    exists (c, consumer). split; [done|].
    apply elem_of_flat_map. exists E. split; [done|].
    apply elem_of_flat_map. exists (d, decision). split; [done|].
    apply elem_of_flat_map. exists E. split.
    + apply elem_of_flat_map. by exists o.
    + rewrite decide_True, Hafter by done. left.
Qed.

(** C2 (as amended).  Let the tape ordering list no tape twice and let no
    tape of the ordering or of a consumer be named like a member of
    [Object.prototype].  Then the validator reports one
    [BACKWARD_DEPENDENCY] error for every consumer [C], every listing of an
    effect [E] in the checks of [C] and every listing of [E] by an option
    of a decision [D] such that the tape of [D] comes strictly after the
    tape of [C] in the ordering, and no other; so an error naming tapes
    [T], [T'] and effect [E] is reported exactly when such [C] and [D]
    exist.  In the scenario with tapes [tape1], [tape2], one consumer in
    [tape1] checking [e_foo] and one decision in [tape2] whose single
    option lists [e_foo] once, exactly one such error is reported. *)
Theorem backward_dependency_per_listing ds :
  NoDup (tapeOrder ds) →
  plain_tape_names ds →
  object_keys_distinct (decisions ds) →
  List.filter is_backward_dependency (errors (validate ds))
    = backward_dependencies ds
  ∧ (∀ cT pT E,
       BACKWARD_DEPENDENCY cT pT E ∈ errors (validate ds) ↔
       ∃ consumerId consumer decId decision option,
         (consumerId, consumer) ∈ consumers ds
         ∧ con_tape consumer = cT
         ∧ E ∈ or_empty (con_checks consumer)
         ∧ (decId, decision) ∈ decisions ds
         ∧ dec_tape decision = pT
         ∧ option ∈ or_empty (dec_options decision)
         ∧ E ∈ or_empty (opt_effects option)
         ∧ strictly_after (tapeOrder ds) pT cT = true)
  ∧ List.filter is_backward_dependency (errors (validate backward_scenario))
    = [BACKWARD_DEPENDENCY (Some "tape1") (Some "tape2") "e_foo"].
Proof.
  intros Hnd Hplain Hkeys.
  assert (Hlist : List.filter is_backward_dependency (errors (validate ds))
                  = backward_dependencies ds).
  { by rewrite backward_errors_of_report, check_tape_order_listings. }
  split_and!; [done| |by vm_compute].
  intros cT pT E. rewrite <- backward_dependencies_elem, <- Hlist.
  rewrite !list_elem_of_In, filter_In. simpl. tauto.
Qed.

Lemma backward_scenario_plain : plain_tape_names backward_scenario.
Proof.
  split.
  - intros t Ht. simpl in Ht.
    repeat (apply elem_of_cons in Ht as [->|Ht]; [done|]).
    by apply elem_of_nil in Ht.
  - intros c consumer Hc. simpl in Hc.
    apply list_elem_of_singleton in Hc. by injection Hc as -> ->.
Qed.

Lemma backward_dependency_per_listing_witness :
  NoDup (tapeOrder backward_scenario)
  ∧ plain_tape_names backward_scenario
  ∧ object_keys_distinct (decisions backward_scenario)
  ∧ BACKWARD_DEPENDENCY (Some "tape1") (Some "tape2") "e_foo"
      ∈ errors (validate backward_scenario).
Proof.
  assert (Hnd : NoDup (tapeOrder backward_scenario)).
  { apply (bool_decide_unpack _). by vm_compute. }
  assert (Hkeys : object_keys_distinct (decisions backward_scenario)).
  { apply (bool_decide_unpack _). by vm_compute. }
  split_and!; [done|apply backward_scenario_plain|done|].
  apply (backward_dependency_per_listing backward_scenario
           Hnd backward_scenario_plain Hkeys).
  exists "c1", (mk_consumer "tape1" ["e_foo"]),
         "d1", (mk_decision "tape2" [mk_option "a" ["e_foo"]]),
         (mk_option "a" ["e_foo"]).
  split_and!; try done; by left.
Defined.

(** C2 as stated fails: with tapes [tape1], [tape2], one consumer in
    [tape1] checking [e_foo] and one decision in [tape2] producing [e_foo],
    two errors are reported when two options of the decision list
    [e_foo]. *)
Lemma backward_dependency_two_listings_counterexample :
  tapeOrder backward_two_listings = ["tape1"; "tape2"]
  ∧ consumers backward_two_listings
    = [("c1", mk_consumer "tape1" ["e_foo"])]
  ∧ (∃ decision, decisions backward_two_listings = [("d1", decision)]
       ∧ dec_tape decision = Some "tape2"
       ∧ "e_foo" ∈ listings decision)
  ∧ errors (validate backward_two_listings)
    = [BACKWARD_DEPENDENCY (Some "tape1") (Some "tape2") "e_foo";
       BACKWARD_DEPENDENCY (Some "tape1") (Some "tape2") "e_foo"]
  ∧ length (List.filter is_backward_dependency
              (errors (validate backward_two_listings))) ≠ 1%nat.
Proof.
  split_and!; [done..| |by vm_compute|by vm_compute].
  eexists. split_and!; [done..|]. simpl. left.
Qed.

(** Why the tape names are required to be plain: [tapeIndex] answers a
    name of [Object.prototype] with the inherited member.  Two tapes that
    are not in the ordering are compared as the strings of two functions,
    and a tape named [__proto__] gets no index. *)
Example inherited_tapes_are_compared :
  errors (validate inherited_tapes)
    = [BACKWARD_DEPENDENCY (Some "toString") (Some "valueOf") "e_foo"]
  ∧ warnings (validate inherited_tapes) = [].
Proof. split; evaluate. Qed.

Example proto_tape_has_no_index :
  strictly_after (tapeOrder proto_tape) (Some "tape2") (Some "__proto__")
    = true
  ∧ errors (validate proto_tape) = []
  ∧ warnings (validate proto_tape) = [].
Proof. split_and!; evaluate. Qed.

(** ** [load] and [detectGhosts] *)

Lemma JsMap_set_fresh {V} (m : list (string * V)) k v :
  k ∉ m.*1 → JsMap.set m k v = m ++ [(k, v)].
Proof.
  induction m as [|[k' v'] m IH]; csimpl; intros Hk; [done|].
  apply not_elem_of_cons in Hk as [Hne Hk].
  rewrite decide_False by done. by rewrite IH.
Qed.

Lemma foldl_set_fresh {V} (l m : list (string * V)) :
  NoDup (m ++ l).*1 →
  foldl (λ m '(id, x), JsMap.set m id x) m l = m ++ l.
Proof.
  revert m. induction l as [|[k v] l IH]; intros m Hnd; simpl.
  - by rewrite app_nil_r.
  - assert (Hk : k ∉ m.*1).
    { rewrite fmap_app in Hnd. apply NoDup_app in Hnd as (_ & Hdisj & _).
      intros Hk. apply (Hdisj k Hk). csimpl. left. }
    rewrite JsMap_set_fresh by done.
    rewrite IH; rewrite <- app_assoc; done.
Qed.

Lemma restoreState_maps s :
  let e' := (restoreState s).2.1 in
  decisionMap e' = decisionMap s.1 ∧ effectMap e' = effectMap s.1
  ∧ consumerMap e' = consumerMap s.1 ∧ producedBy e' = producedBy s.1.
Proof.
  destruct s as [e b]. unfold restoreState. run.
  destruct (stored b) as [[doc|]|]; run; done.
Qed.

Lemma loaded_effectMap ds b :
  object_keys_distinct (effects ds) → effectMap (loaded ds b) = effects ds.
Proof.
  intros Hkeys. unfold loaded, load. run.
  destruct (restoreState_maps (index_dataset ds newEngine, b))
    as (_ & -> & _). cbn.
  by apply (foldl_set_fresh (effects ds) []).
Qed.

Lemma loaded_consumerMap ds b E :
  or_empty (JsMap.get (consumerMap (loaded ds b)) E) = [] ↔ ¬ is_checked ds E.
Proof.
  unfold loaded, load. run.
  destruct (restoreState_maps (index_dataset ds newEngine, b))
    as (_ & _ & -> & _). cbn.
  set (pairs := flat_map (λ '(consumerId, consumer),
                 (λ e, (e, (consumerId, consumer)))
                   <$> or_empty (con_checks consumer)) (consumers ds)).
  assert (Hfold :
    foldl (λ m '(consumerId, consumer),
        foldl (λ m effectId, push_to m effectId (consumerId, consumer))
              m (or_empty (con_checks consumer)))
      JsMap.empty (consumers ds)
    = foldl (λ m p, push_to m p.1 p.2) JsMap.empty pairs).
  { unfold pairs. rewrite foldl_flat_map. apply foldl_ext_in.
    intros m [consumerId consumer] _. by rewrite foldl_fmap. }
  rewrite Hfold, foldl_push_to_get.
  change (default [] ?x) with (or_empty x).
  change (JsMap.get JsMap.empty E) with (@None (list (string * Consumer))).
  rewrite extend_None_or_empty, list_empty_elem.
  unfold is_checked. setoid_rewrite pushed_elem. unfold pairs.
  setoid_rewrite elem_of_flat_map. split; intros Hno Hyes; apply Hno.
  - destruct Hyes as (c & consumer & Hin & He).
    exists (c, consumer), (c, consumer). split; [done|].
    apply list_elem_of_fmap. by exists E.
  - destruct Hyes as (x & [c consumer] & Hin & He).
    apply list_elem_of_fmap in He as (e & [= -> ->] & He).
    by exists c, consumer.
Qed.

(** [detectGhosts] reports the catalog effects that are neither [stat]
    nor [arc] and that no consumer checks. *)
Lemma detectGhosts_reported ds b E :
  object_keys_distinct (effects ds) →
  E ∈ ghost_ids (loaded ds b) ↔
  is_defined ds E
  ∧ type_is (own (effects ds) E) "stat" = false
  ∧ type_is (own (effects ds) E) "arc" = false
  ∧ ¬ is_checked ds E.
Proof.
  intros Hkeys. unfold ghost_ids, detectGhosts, is_defined.
  rewrite list_elem_of_fmap. setoid_rewrite elem_of_flat_map.
  rewrite loaded_effectMap by done.
  rewrite <- (loaded_consumerMap ds b E). split.
  - intros (g & -> & [e effect] & Hin & Hg).
    assert (Hown : own (effects ds) e = Some effect)
      by by apply JsMap_get_elem.
    destruct (type_is (Some effect) "stat") eqn:Hstat;
      [by apply elem_of_nil in Hg|].
    destruct (type_is (Some effect) "arc") eqn:Harc;
      [by apply elem_of_nil in Hg|].
    destruct (length _ =? 0)%nat eqn:Hlen; [|by apply elem_of_nil in Hg].
    apply list_elem_of_singleton in Hg as ->. simpl. rewrite Hown.
    apply Nat.eqb_eq, length_zero_iff_nil in Hlen.
    split_and!; [by exists effect|done..].
  - intros ((effect & Hin) & Hstat & Harc & Hnone).
    assert (Hown : own (effects ds) E = Some effect)
      by by apply JsMap_get_elem.
    rewrite Hown in Hstat, Harc.
    eexists. split; [|exists (E, effect); split; [done|]].
    2: { rewrite Hstat, Harc, Hnone. simpl. left. }
    done.
Qed.

(** C10 (as amended).  For an effect id [E] that is defined in the effect
    catalog, produced by at least one decision and without a non-empty
    inline [consumed_by], the runtime detector and the validator agree:
    [E] is in the result of [detectGhosts] after [load] exactly when the
    validator emits a [GHOST_EFFECT] warning for [E]. *)
Theorem detectGhosts_agrees_on_produced_effects ds b E :
  object_keys_distinct (effects ds) →
  is_defined ds E →
  is_produced ds E →
  ¬ inline_override ds E →
  E ∈ ghost_ids (loaded ds b) ↔ ghost_effect_flagged ds E.
Proof.
  intros Hkeys Hdef Hprod Hover.
  rewrite detectGhosts_reported, ghost_effect_reported by done. tauto.
Qed.

Lemma detectGhosts_agrees_on_produced_effects_witness :
  object_keys_distinct (effects override_data)
  ∧ is_defined override_data "e_lost"
  ∧ is_produced override_data "e_lost"
  ∧ ¬ inline_override override_data "e_lost"
  ∧ "e_lost" ∈ ghost_ids (loaded override_data empty_browser)
  ∧ ghost_effect_flagged override_data "e_lost".
Proof.
  assert (Hkeys : object_keys_distinct (effects override_data)).
  { apply (bool_decide_unpack _). by vm_compute. }
  assert (Hdef : is_defined override_data "e_lost").
  { exists flag_effect. right. left. }
  assert (Hprod : is_produced override_data "e_lost").
  { apply override_data_produced. right. left. }
  assert (Hover : ¬ inline_override override_data "e_lost").
  { intros (x & l & H). vm_compute in H. discriminate H. }
  assert (Hghost : "e_lost" ∈ ghost_ids (loaded override_data empty_browser)).
  { vm_compute. right. left. }
  split_and!; [done..|].
  by apply (detectGhosts_agrees_on_produced_effects
              override_data empty_browser "e_lost" Hkeys Hdef Hprod Hover).
Defined.

(** C10 as stated fails: [e_orphan] is defined but produced by no
    decision; [detectGhosts] reports it, the validator emits no
    [GHOST_EFFECT] warning for it (it emits [UNUSED_EFFECT]). *)
Lemma detectGhosts_orphan_counterexample :
  "e_orphan" ∈ ghost_ids (loaded orphan_data empty_browser)
  ∧ ¬ ghost_effect_flagged orphan_data "e_orphan"
  ∧ UNUSED_EFFECT "e_orphan" ∈ warnings (validate orphan_data).
Proof.
  split_and!.
  - vm_compute. left.
  - intros (p & Hp). vm_compute in Hp.
    apply list_elem_of_singleton in Hp. discriminate Hp.
  - vm_compute. left.
Qed.

(** ** [#applyEffect]: stat effects *)


Lemma statNames_not_collection s :
  s ∈ statNames →
  s ≠ "activeFlags" ∧ s ≠ "memories" ∧ s ≠ "arcFlags" ∧ s ≠ "__proto__".
Proof.
  unfold statNames. intros Hs.
  repeat (apply elem_of_cons in Hs as [->|Hs]; [done|]).
  by apply elem_of_nil in Hs.
Qed.





Example stat_effect_at_90_plus_150 :
  ∃ r e',
    applyEffect "stat_trust_+150" (play_engine_at 90, empty_browser)
      = (Returned (Some r), (e', empty_browser))
    ∧ stats (playerState e') !! "trust" = Some 100%Z.
Proof.
  eexists _, _. split.
  - evaluate.
  - evaluate.
Qed.

(** ** [makeChoice] *)

Lemma same_catalog_refl e : same_catalog e e.
Proof. by repeat split. Qed.

Lemma same_catalog_trans e1 e2 e3 :
  same_catalog e1 e2 → same_catalog e2 e3 → same_catalog e1 e3.
Proof.
  intros (?&?&?&?) (?&?&?&?). repeat split; congruence.
Qed.

Lemma same_storage_refl b : same_storage b b.
Proof. by split. Qed.

Lemma same_storage_trans b1 b2 b3 :
  same_storage b1 b2 → same_storage b2 b3 → same_storage b1 b3.
Proof. intros [??] [??]. split; congruence. Qed.

Lemma stats_name_no_collection_same e e' :
  same_catalog e e' → stats_name_no_collection e →
  stats_name_no_collection e'.
Proof.
  intros (_ & Heff & _) Hok id effect. rewrite Heff. apply Hok.
Qed.

Lemma apply_stat_live ps stat delta :
  key_of stat ∉ collectionNames → live ps → live (apply_stat ps stat delta).
Proof.
  intros Hk Hlive. unfold apply_stat, set_property, collectionNames in *.
  rewrite !not_elem_of_cons in Hk. destruct Hk as (H1 & H2 & H3 & _).
  destruct (hasOwnProperty _ _); [|done].
  rewrite !decide_False by done.
  by destruct (clamp <$> _).
Qed.

Lemma apply_stat_in_range ps stat delta :
  stats_in_range ps → stats_in_range (apply_stat ps stat delta).
Proof.
  intros Hrange. unfold apply_stat, set_property.
  destruct (hasOwnProperty _ _); [|done].
  repeat case_decide; try done.
  destruct (clamp <$> _) as [z|] eqn:Hz; simpl; [|done].
  apply fmap_Some in Hz as (x & _ & ->).
  intros s Hs. simpl. destruct (decide (key_of stat = s)) as [<-|Hne].
  - rewrite lookup_insert_eq. eexists. split; [done|]. unfold clamp. lia.
  - rewrite lookup_insert_ne by done. by apply Hrange.
Qed.

(** With live collections and a catalog whose stat effects name no
    collection, [#applyEffect] returns: [null] for an id that is not in
    the catalog and a result otherwise. *)
Lemma applyEffect_returns e b effectId :
  stats_name_no_collection e → live (playerState e) →
  ∃ r e' b',
    applyEffect effectId (e, b) = (Returned r, (e', b'))
    ∧ (is_Some r ↔ JsMap.has (effectMap e) effectId = true)
    ∧ live (playerState e') ∧ same_catalog e e'
    ∧ history e' = history e ∧ same_storage b b'
    ∧ (stats_in_range (playerState e) → stats_in_range (playerState e')).
Proof.
  intros Hok (flags & mems & arcs & Hf & Hm & Ha).
  assert (Hlive : live (playerState e)) by by exists flags, mems, arcs.
  unfold applyEffect, JsMap.has. run.
  destruct (JsMap.get (effectMap e) effectId) as [effect|] eqn:Hget.
  2: { eexists _, _, _. split; [done|].
       split_and!; [|done|by repeat split|done|by repeat split|done].
       split; [by intros [??]|done]. }
  assert (Hsome : ∀ r : Applied, is_Some (Some r) ↔ true = true)
    by (intros r; split; eauto).
  unfold type_is. simpl.
  destruct (eff_type effect) as [ty|] eqn:Hty; simpl.
  2: { eexists _, _, _. split; [done|].
       split_and!; [apply Hsome|done|by repeat split|done
                    |by repeat split|done]. }
  destruct (decide (ty = "stat")) as [->|Hstat].
  { rewrite bool_decide_eq_true_2 by done. run.
    eexists _, _, _. split; [done|].
    split_and!; [apply Hsome| |by repeat split|done
                 |by repeat split|apply apply_stat_in_range].
    simpl. apply apply_stat_live; [|done]. by eapply Hok. }
  rewrite (bool_decide_eq_false_2 (Some ty = Some "stat")) by congruence.
  destruct (decide (ty = "flag")) as [->|Hflag].
  { rewrite bool_decide_eq_true_2 by done. rewrite Hf. run.
    eexists _, _, _. split; [done|].
    split_and!; [apply Hsome| |by repeat split|done
                 |by repeat split|done].
    unfold live. simpl. rewrite ?Hf, ?Hm, ?Ha. eauto 10. }
  rewrite (bool_decide_eq_false_2 (Some ty = Some "flag")) by congruence.
  destruct (decide (ty = "memory")) as [->|Hmem].
  { rewrite bool_decide_eq_true_2 by done. rewrite Hm. run.
    eexists _, _, _. split; [done|].
    split_and!; [apply Hsome| |by repeat split|done|by repeat split
                 |done].
    unfold live. simpl. rewrite ?Hf, ?Hm, ?Ha. eauto 10. }
  rewrite (bool_decide_eq_false_2 (Some ty = Some "memory")) by congruence.
  destruct (decide (ty = "arc")) as [->|Harc].
  { rewrite bool_decide_eq_true_2 by done. rewrite Ha. run.
    eexists _, _, _. split; [done|].
    split_and!; [apply Hsome| |by repeat split|done
                 |by repeat split|done].
    unfold live. simpl. rewrite ?Hf, ?Hm, ?Ha. eauto 10. }
  rewrite (bool_decide_eq_false_2 (Some ty = Some "arc")) by congruence.
  eexists _, _, _. split; [done|].
  split_and!; [apply Hsome|done|by repeat split|done
               |by repeat split|done].
Qed.

Lemma bind_returned {A B} (m : M A) (f : A → M B) s a s' :
  m s = (Returned a, s') → (m ≫= f) s = f a s'.
Proof. intros Hm. unfold mbind, M_bind. by rewrite Hm. Qed.

Lemma bind_thrown {A B} (m : M A) (f : A → M B) s ex s' :
  m s = (Thrown ex, s') → (m ≫= f) s = (Thrown ex, s').
Proof. intros Hm. unfold mbind, M_bind. by rewrite Hm. Qed.

Lemma in_catalog_cons e effectId rest :
  in_catalog e (effectId :: rest) =
  (if JsMap.has (effectMap e) effectId then [effectId] else [])
    ++ in_catalog e rest.
Proof. unfold in_catalog. simpl. by destruct (JsMap.has _ _). Qed.

(** The loop over the effects of the option returns, with one entry per
    effect id that is in the catalog, in order; ids that are not in the
    catalog are skipped. *)
Lemma apply_effects_returns effectIds : ∀ e b appliedEffects,
  stats_name_no_collection e → live (playerState e) →
  ∃ l e' b',
    apply_effects effectIds appliedEffects (e, b) = (Returned l, (e', b'))
    ∧ l.*1 = appliedEffects.*1 ++ in_catalog e effectIds
    ∧ live (playerState e') ∧ same_catalog e e'
    ∧ history e' = history e ∧ same_storage b b'
    ∧ (stats_in_range (playerState e) → stats_in_range (playerState e')).
Proof.
  induction effectIds as [|effectId rest IH]; intros e b acc Hok Hlive.
  { exists acc, e, b. split; [done|].
    split_and!; [by rewrite app_nil_r|done|by repeat split..|done]. }
  destruct (applyEffect_returns e b effectId Hok Hlive)
    as (r & e1 & b1 & Hrun & Hr & Hlive1 & Hcat1 & Hhist1 & Hsto1 & Hrng1).
  assert (Hok1 := stats_name_no_collection_same _ _ Hcat1 Hok).
  set (acc1 := match r with
               | Some r0 => acc ++ [(effectId, r0)]
               | None => acc
               end).
  destruct (IH e1 b1 acc1 Hok1 Hlive1)
    as (l & e2 & b2 & Hrest & Hl & Hlive2 & Hcat2 & Hhist2 & Hsto2 & Hrng2).
  exists l, e2, b2. split.
  { cbn [apply_effects]. by rewrite (bind_returned _ _ _ _ _ Hrun). }
  split_and!; [|done|by eapply same_catalog_trans|congruence
               |by eapply same_storage_trans|by auto].
  rewrite Hl, in_catalog_cons. unfold in_catalog.
  destruct Hcat1 as (_ & -> & _). unfold acc1.
  destruct r as [r0|].
  - rewrite (proj1 Hr) by eauto. rewrite fmap_app, <- app_assoc. done.
  - destruct (JsMap.has (effectMap e) effectId) eqn:Hhas; [|done].
    destruct (proj2 Hr eq_refl) as [? [=]].
Qed.

Lemma saveState_returns e b :
  live (playerState e) →
  ∃ b', saveState (e, b) = (Returned (), (e, b'))
        ∧ quota_ok b' = quota_ok b ∧ ticks b' = ticks b
        ∧ dateNow b' = dateNow b.
Proof.
  intros (flags & mems & arcs & Hf & Hm & Ha). unfold saveState. run.
  rewrite Hf, Ha. run. destruct (quota_ok b) eqn:Hq; run.
  - eexists. split; [done|]. by simpl.
  - eexists. split; [done|]. by simpl.
Qed.

Lemma getState_live e b flags mems arcs :
  activeFlags (playerState e) = Live flags →
  memories (playerState e) = Live mems →
  arcFlags (playerState e) = Live arcs →
  getState (e, b) =
  (Returned {| view_trust := stats (playerState e) !! "trust";
               view_guard := stats (playerState e) !! "guard";
               view_honesty := stats (playerState e) !! "honesty";
               view_vulnerability := stats (playerState e) !! "vulnerability";
               view_flags := flags;
               view_memories := mems;
               view_arcs := arcs;
               view_history := history e |}, (e, b)).
Proof. intros Hf Hm Ha. unfold getState. run. rewrite Hf, Hm, Ha. by run. Qed.

Lemma getState_returns e b :
  live (playerState e) →
  ∃ view, getState (e, b) = (Returned view, (e, b))
          ∧ view_history view = history e.
Proof.
  intros (flags & mems & arcs & Hf & Hm & Ha). unfold getState. run.
  rewrite Hf, Hm, Ha. run. by eexists.
Qed.

Lemma chosen_option_known e decisionId optionId :
  is_Some (chosen_option e decisionId optionId)
  ↔ known_choice e decisionId optionId.
Proof.
  unfold chosen_option, known_choice.
  destruct (JsMap.get (decisionMap e) decisionId) as [decision|]; simpl.
  2: { split; [by intros [??]|]. by intros (?&?&?&?&?). }
  destruct (dec_options decision) as [options|] eqn:Hopts; simpl.
  2: { split; [by intros [??]|]. intros (?&?&?&[= <-]&?&?). congruence. }
  split.
  - intros [o Ho]. apply find_some in Ho as [Hin Hid].
    apply bool_decide_eq_true in Hid.
    exists decision, options, o. by rewrite list_elem_of_In.
  - intros (d & os & o & [= <-] & Hos & Hin & Hid).
    assert (os = options) as -> by congruence.
    destruct (List.find _ options) as [o'|] eqn:Hfind; [by eexists|].
    apply list_elem_of_In in Hin.
    pose proof (find_none _ _ Hfind _ Hin) as Hno. simpl in Hno.
    by rewrite bool_decide_eq_true_2 in Hno.
Qed.

(** [makeChoice] with an unknown decision or option throws before it
    writes anything. *)
Lemma makeChoice_unknown e b decisionId optionId :
  chosen_option e decisionId optionId = None →
  ∃ ex, makeChoice decisionId optionId (e, b) = (Thrown ex, (e, b))
        ∧ (ex = UnknownDecision decisionId
           ∨ ex = UnknownOption optionId decisionId).
Proof.
  unfold chosen_option, makeChoice. intros Hnone. run.
  destruct (JsMap.get (decisionMap e) decisionId) as [decision|]; run.
  - rewrite Hnone. eexists. split; [done|]. by right.
  - eexists. split; [done|]. by left.
Qed.

(** [makeChoice] with a known decision and option returns, when the
    collections are live and no stat effect names a collection. *)
Lemma makeChoice_known e b decisionId optionId option :
  stats_name_no_collection e → live (playerState e) →
  chosen_option e decisionId optionId = Some option →
  ∃ r e' b',
    makeChoice decisionId optionId (e, b) = (Returned r, (e', b'))
    ∧ res_decision r = decisionId ∧ res_option r = optionId
    ∧ (res_effects r).*1 = in_catalog e (or_empty (opt_effects option))
    ∧ (∃ entry, history e' = history e ++ [entry]
                ∧ hist_decisionId entry = decisionId
                ∧ hist_optionId entry = optionId)
    ∧ live (playerState e') ∧ same_catalog e e'
    ∧ (stats_in_range (playerState e) → stats_in_range (playerState e')).
Proof.
  intros Hok Hlive. unfold chosen_option, makeChoice. intros Hsome. run.
  destruct (JsMap.get (decisionMap e) decisionId) as [decision|]; run;
    [|done].
  rewrite Hsome. run.
  set (e0 := set_history e _).
  assert (Hcat0 : same_catalog e e0) by by repeat split.
  destruct (apply_effects_returns (or_empty (opt_effects option)) e0 (tick b) []
              (stats_name_no_collection_same _ _ Hcat0 Hok) Hlive)
    as (l & e1 & b1 & Hrun & Hl & Hlive1 & Hcat1 & Hhist1 & Hsto1 & Hrng1).
  rewrite Hrun.
  destruct (saveState_returns e1 b1 Hlive1) as (b2 & Hsave & _).
  rewrite Hsave.
  destruct (getState_returns e1 b2 Hlive1) as (view & Hview & _).
  rewrite Hview.
  eexists _, _, _. split; [done|]. simpl.
  split_and!; [done..| | |done|by eapply same_catalog_trans|done].
  - etrans; [exact Hl|]. simpl. unfold in_catalog.
    by destruct Hcat0 as (_ & -> & _).
  - rewrite Hhist1. eexists. split; [done|]. done.
Qed.

(** On an engine with live collections whose catalog has no stat effect
    naming a collection, [makeChoice] behaves as specified: it throws
    exactly for an unknown decision or option, it has written nothing when
    it throws, and it returns one applied effect per effect id of the
    option that is in the catalog, skipping the others. *)
Lemma makeChoice_throws_iff_unknown e b decisionId optionId :
  stats_name_no_collection e → live (playerState e) →
  ((∃ ex s', makeChoice decisionId optionId (e, b) = (Thrown ex, s'))
   ↔ ¬ known_choice e decisionId optionId)
  ∧ (∀ ex s', makeChoice decisionId optionId (e, b) = (Thrown ex, s') →
              s' = (e, b))
  ∧ (∀ option, chosen_option e decisionId optionId = Some option →
       ∃ r s', makeChoice decisionId optionId (e, b) = (Returned r, s')
               ∧ (res_effects r).*1
                 = in_catalog e (or_empty (opt_effects option))).
Proof.
  intros Hok Hlive. rewrite <- chosen_option_known.
  destruct (chosen_option e decisionId optionId) as [option|] eqn:Hchosen.
  - destruct (makeChoice_known e b _ _ _ Hok Hlive Hchosen)
      as (r & e' & b' & Hrun & _ & _ & Hl & _).
    split_and!.
    + split; [|by intros []]. intros (ex & s' & Hthrow). congruence.
    + intros ex s' Hthrow. congruence.
    + intros o [= <-]. by exists r, (e', b').
  - destruct (makeChoice_unknown e b _ _ Hchosen) as (ex & Hrun & _).
    split_and!.
    + split; [by intros _ [??]|]. intros _. by exists ex, (e, b).
    + intros ex' s' Hthrow. congruence.
    + intros o [=].
Qed.

(** C4 (the code departs from the claim).  The catalog of [clobber_data]
    has a stat effect whose [stat] is [activeFlags].  Decision [d1] and
    its option [optA] are known, yet [makeChoice] throws a [TypeError],
    after it has pushed the history entry and overwritten the flag set
    with [NaN]. *)
Theorem makeChoice_throws_on_collection_stat :
  known_choice clobber_engine "d1" "optA"
  ∧ history clobber_engine = []
  ∧ activeFlags (playerState clobber_engine) = Live []
  ∧ ∃ e' b',
      makeChoice "d1" "optA" (clobber_engine, empty_browser)
        = (Thrown TypeError, (e', b'))
      ∧ length (history e') = 1%nat
      ∧ activeFlags (playerState e') = Overwritten None.
Proof.
  split_and!; [|evaluate..|].
  - exists (mk_decision "tape1" [mk_option "optA" ["e_bad"]]),
           [mk_option "optA" ["e_bad"]], (mk_option "optA" ["e_bad"]).
    split_and!; [evaluate|done|left|done].
  - eexists _, _. split_and!.
    + evaluate.
    + evaluate.
    + evaluate.
Qed.

(** ** The player state of the data model is an invariant *)

Lemma initialPlayerState_valid : valid_state initialPlayerState.
Proof.
  split; [by exists [], [], []|].
  intros s Hs. exists 0%Z. split; [|lia].
  unfold statNames in Hs.
  repeat (apply elem_of_cons in Hs as [->|Hs]; [done|]).
  by apply elem_of_nil in Hs.
Qed.

(** Whatever its outcome, [makeChoice] leaves a valid player state valid,
    provided no stat effect of the catalog names a collection. *)
Lemma makeChoice_preserves_valid_state e b decisionId optionId out e' b' :
  stats_name_no_collection e → valid_state (playerState e) →
  makeChoice decisionId optionId (e, b) = (out, (e', b')) →
  valid_state (playerState e') ∧ stats_name_no_collection e'.
Proof.
  intros Hok [Hlive Hrange] Hrun.
  destruct (chosen_option e decisionId optionId) as [option|] eqn:Hchosen.
  - destruct (makeChoice_known e b _ _ _ Hok Hlive Hchosen)
      as (r & e1 & b1 & Hrun1 & _ & _ & _ & _ & Hlive1 & Hcat1 & Hrng1).
    rewrite Hrun in Hrun1. injection Hrun1 as -> -> ->.
    split; [split; auto|]. by eapply stats_name_no_collection_same.
  - destruct (makeChoice_unknown e b _ _ Hchosen) as (ex & Hrun1 & _).
    rewrite Hrun in Hrun1. by injection Hrun1 as -> -> ->.
Qed.

Lemma resetState_valid e b :
  valid_state (playerState (resetState (e, b)).2.1)
  ∧ history (resetState (e, b)).2.1 = [].
Proof.
  unfold resetState. run. split; [apply initialPlayerState_valid|done].
Qed.

(** ** [getStat] *)

(** [getStat] returns and writes nothing. *)
Lemma getStat_pure statName s : ∃ v, getStat statName s = (Returned v, s).
Proof. destruct s as [e b]. unfold getStat. run. by eexists. Qed.

(** A stat that is an own numeric property reads as its value. *)
Lemma getStat_stat e b statName v :
  statName ∉ collectionNames → stats (playerState e) !! statName = Some v →
  getStat statName (e, b) = (Returned (VNumber v), (e, b)).
Proof.
  unfold collectionNames. rewrite !not_elem_of_cons.
  intros (H1 & H2 & H3 & _) Hv. unfold getStat, get_property. run.
  rewrite !decide_False, Hv by done. simpl.
  destruct (v =? 0)%Z eqn:Hz; simpl; [|done].
  apply Z.eqb_eq in Hz. by subst v.
Qed.

(** A name that is no own property of the player state and no member of
    [Object.prototype] reads as 0. *)
Lemma getStat_unknown e b statName :
  statName ∉ collectionNames → stats (playerState e) !! statName = None →
  inherited statName = false →
  getStat statName (e, b) = (Returned (VNumber 0), (e, b)).
Proof.
  unfold collectionNames. rewrite !not_elem_of_cons.
  intros (H1 & H2 & H3 & _) Hv Hinh. unfold getStat, get_property. run.
  by rewrite !decide_False, Hv, Hinh by done.
Qed.

(** C9 (the code departs from the claim).  [memories], [activeFlags] and
    [toString] are none of the four stat names, yet on a new engine
    [getStat] returns the memories array, the flag set and a function of
    [Object.prototype] for them, not the number 0. *)
Theorem getStat_returns_collections b :
  ("memories" ∉ statNames) ∧ ("activeFlags" ∉ statNames)
  ∧ ("toString" ∉ statNames)
  ∧ getStat "memories" (newEngine, b) = (Returned (VArray []), (newEngine, b))
  ∧ getStat "activeFlags" (newEngine, b)
    = (Returned (VSet []), (newEngine, b))
  ∧ getStat "toString" (newEngine, b)
    = (Returned (VInherited "toString"), (newEngine, b)).
Proof.
  split_and!; try done;
    unfold statNames; rewrite !not_elem_of_cons;
    split_and!; try done; apply not_elem_of_nil.
Qed.

(** ** [exportState] and [importState] *)

(** What [#restoreState] makes of an exported document: the document has
    no [stats], so the stats stay; flags, memories and arcs are
    replaced. *)
Lemma restore_exported view ps :
  restore_playerState (json_of_view view) ps =
  {| stats := stats ps;
     activeFlags := Live (JsSet.from_list (view_flags view));
     memories := Live (view_memories view);
     arcFlags := Live (JsSet.from_list (view_arcs view)) |}.
Proof. done. Qed.

Lemma importState_exported view e b :
  importState (JSON_stringify (json_of_view view)) (e, b) =
  if quota_ok b
  then (Returned true,
        (set_history
           (set_playerState e
              (restore_playerState (json_of_view view) (playerState e)))
           (view_history view),
         set_stored b (Some (JSON_stringify (json_of_view view)))))
  else (Returned false, (e, b)).
Proof.
  unfold importState, restoreState. run. by destruct (quota_ok b).
Qed.

Lemma exportState_returned e b text s :
  exportState (e, b) = (Returned text, s) →
  s = (e, b)
  ∧ ∃ view, getState (e, b) = (Returned view, (e, b))
            ∧ text = JSON_stringify (json_of_view view)
            ∧ activeFlags (playerState e) = Live (view_flags view)
            ∧ memories (playerState e) = Live (view_memories view)
            ∧ arcFlags (playerState e) = Live (view_arcs view)
            ∧ view_history view = history e.
Proof.
  unfold exportState, getState. run.
  destruct (activeFlags (playerState e)) as [flags|]; run; [|done].
  destruct (memories (playerState e)) as [mems|]; run; [|done].
  destruct (arcFlags (playerState e)) as [arcs|]; run; [|done].
  intros [= <- <-]. split; [done|]. by eexists.
Qed.

(** With live collections, [exportState] returns. *)
Lemma exportState_returns e b :
  live (playerState e) → ∃ text, exportState (e, b) = (Returned text, (e, b)).
Proof.
  intros Hlive. destruct (getState_returns e b Hlive) as (view & Hview & _).
  unfold exportState. rewrite (bind_returned _ _ _ _ _ Hview). by eexists.
Qed.

(** C6 (the code departs from the claim).  The snapshot exported from an
    engine with [trust] at 50 is imported into an engine with [trust] at 0:
    [importState] returns [true] and [trust] is still 0.  The exported
    document has the stats at top level, [#restoreState] reads them
    from [stats]. *)
Theorem importState_keeps_the_stats_of_the_target :
  ∃ text e' b',
    exportState (play_engine_at 50, empty_browser)
      = (Returned text, (play_engine_at 50, empty_browser))
    ∧ stats (playerState (play_engine_at 50)) !! "trust" = Some 50%Z
    ∧ importState text (play_engine_at 0, empty_browser)
      = (Returned true, (e', b'))
    ∧ stats (playerState e') !! "trust" = Some 0%Z.
Proof.
  eexists _, _, _. split_and!.
  - evaluate.
  - evaluate.
  - evaluate.
  - evaluate.
Qed.

(** Importing an exported snapshot replaces the flags, the memories, the
    arcs and the history by those of the snapshot, and keeps the stats of
    the importing engine. *)
Lemma importState_replaces_all_but_stats view e b :
  quota_ok b = true →
  ∃ e' b',
    importState (JSON_stringify (json_of_view view)) (e, b)
      = (Returned true, (e', b'))
    ∧ stats (playerState e') = stats (playerState e)
    ∧ activeFlags (playerState e') = Live (JsSet.from_list (view_flags view))
    ∧ memories (playerState e') = Live (view_memories view)
    ∧ arcFlags (playerState e') = Live (JsSet.from_list (view_arcs view))
    ∧ history e' = view_history view.
Proof.
  intros Hq. rewrite importState_exported, Hq. by eexists _, _.
Qed.

Lemma importState_exported_valid view e b :
  valid_state (playerState e) →
  valid_state
    (playerState
       (importState (JSON_stringify (json_of_view view)) (e, b)).2.1).
Proof.
  intros [Hlive Hrange]. rewrite importState_exported.
  destruct (quota_ok b); simpl; [|done].
  split; [by eexists _, _, _|done].
Qed.

(** Started from a valid player state, with a catalog whose stat effects
    name no collection, every reachable engine has a valid player
    state. *)
Lemma reachable_valid_state e0 e :
  stats_name_no_collection e0 → valid_state (playerState e0) →
  reachable e0 e →
  valid_state (playerState e) ∧ stats_name_no_collection e.
Proof.
  intros Hok0 Hvalid0. induction 1 as
    [|e b d o _ [Hvalid Hok]|e b _ [Hvalid Hok]
     |e b e1 b1 text s1 _ [Hvalid Hok] _ _ Hexport].
  - done.
  - destruct (makeChoice d o (e, b)) as [out [e' b']] eqn:Hrun.
    by eapply makeChoice_preserves_valid_state.
  - split; [apply resetState_valid|].
    unfold resetState. run. exact Hok.
  - apply exportState_returned in Hexport as (_ & view & _ & -> & _).
    split; [by apply importState_exported_valid|].
    rewrite importState_exported. by destruct (quota_ok b).
Qed.

(** On every such engine [exportState] returns a string. *)
Lemma reachable_exportState_returns e0 e b :
  stats_name_no_collection e0 → valid_state (playerState e0) →
  reachable e0 e →
  ∃ text, exportState (e, b) = (Returned text, (e, b)).
Proof.
  intros Hok0 Hvalid0 Hreach.
  destruct (reachable_valid_state e0 e Hok0 Hvalid0 Hreach) as [[Hlive _] _].
  by apply exportState_returns.
Qed.

(** When [exportState] returns a string, it has written nothing, and
    [importState] of that string, called next, returns and leaves an engine
    observationally equal to the one before: same stats, same flag set,
    same arc set, same memory ids in order, same history.  By
    [reachable_exportState_returns] this covers every engine reachable
    from a valid state when no stat effect of the catalog names a
    collection. *)
Lemma export_then_import_preserves_state e b text s :
  exportState (e, b) = (Returned text, s) →
  s = (e, b)
  ∧ ∃ ok e' b',
      importState text s = (Returned ok, (e', b'))
      ∧ observationally_equal e' e.
Proof.
  intros (-> & view & Hview & -> & Hf & Hm & Ha & Hh)%exportState_returned.
  split; [done|]. rewrite importState_exported.
  assert (Hsame : observationally_equal e e).
  { intros b0. eexists _, _.
    rewrite (getState_live e b0 _ _ _ Hf Hm Ha). by split_and!. }
  destruct (quota_ok b); eexists _, _, _; (split; [done|]); [|done].
  intros b0. eexists _, _.
  rewrite (getState_live e b0 _ _ _ Hf Hm Ha).
  erewrite getState_live by done. simpl.
  split_and!; try done; apply JsSet_from_list_to_set.
Qed.

(** C7 (the code departs from the claim).  The engine [makeChoice] leaves
    on the catalog of [clobber_data], whose stat effect names
    [activeFlags], is reachable: it comes from one call of [makeChoice] on
    the loaded engine.  Its flag set is [NaN], and [exportState] throws a
    [TypeError] on it, so there is no exported string to import. *)
Theorem exportState_throws_on_a_reachable_state :
  ∃ e b,
    (makeChoice "d1" "optA" (clobber_engine, empty_browser)).2 = (e, b)
    ∧ reachable clobber_engine e
    ∧ activeFlags (playerState e) = Overwritten None
    ∧ exportState (e, b) = (Thrown TypeError, (e, b)).
Proof.
  exists (makeChoice "d1" "optA" (clobber_engine, empty_browser)).2.1,
         (makeChoice "d1" "optA" (clobber_engine, empty_browser)).2.2.
  split_and!.
  - by destruct (makeChoice "d1" "optA" (clobber_engine, empty_browser)).2.
  - apply reachable_makeChoice, reachable_start.
  - evaluate.
  - evaluate.
Qed.

Lemma export_then_import_preserves_state_witness :
  ∃ text,
    exportState (played_engine, empty_browser)
      = (Returned text, (played_engine, empty_browser))
    ∧ ∃ ok e' b',
        importState text (played_engine, empty_browser)
          = (Returned ok, (e', b'))
        ∧ observationally_equal e' played_engine.
Proof.
  destruct (exportState_returns played_engine empty_browser)
    as (text & Htext).
  { eexists _, _, _. split_and!.
    - evaluate.
    - evaluate.
    - evaluate. }
  exists text. split; [done|].
  apply (export_then_import_preserves_state
           played_engine empty_browser text _ Htext).
Defined.

(** ** [determineEnding] *)

Lemma hasFlag_live e b flags flagId :
  activeFlags (playerState e) = Live flags →
  hasFlag flagId (e, b) = (Returned (JsSet.has flags flagId), (e, b)).
Proof. intros Hf. unfold hasFlag. run. rewrite Hf. by run. Qed.

Lemma every_requirement e b flags arcs requires :
  activeFlags (playerState e) = Live flags →
  arcFlags (playerState e) = Live arcs →
  every_M (λ flag,
      hasFlag flag ≫= λ b0 : bool,
      if b0 then mret true
      else ps ← get_playerState;
           arcs ← collection (arcFlags ps);
           mret (JsSet.has arcs flag)) requires (e, b)
  = (Returned (forallb (λ id, bool_decide (id ∈ flags ∨ id ∈ arcs)) requires),
     (e, b)).
Proof.
  intros Hf Ha. induction requires as [|flag rest IH]; [done|].
  cbn [every_M forallb].
  assert (Hone :
    (hasFlag flag ≫= λ b0 : bool,
     if b0 then mret true
     else ps ← get_playerState;
          arcs ← collection (arcFlags ps);
          mret (JsSet.has arcs flag)) (e, b)
    = (Returned (JsSet.has flags flag || JsSet.has arcs flag), (e, b))).
  { rewrite (bind_returned _ _ _ _ _ (hasFlag_live e b flags flag Hf)).
    destruct (JsSet.has flags flag); [done|].
    run. rewrite Ha. by run. }
  rewrite (bind_returned _ _ _ _ _ Hone).
  assert (Hor : JsSet.has flags flag || JsSet.has arcs flag
                = bool_decide (flag ∈ flags ∨ flag ∈ arcs)).
  { unfold JsSet.has. repeat case_bool_decide; simpl; tauto. }
  rewrite Hor. destruct (bool_decide _); [apply IH|done].
Qed.

(** With a stat that is not negative, the guard [min && stat < min] skips
    exactly the candidates whose specified minimum exceeds the stat. *)
Lemma below_at_least v minimum :
  (0 ≤ v)%Z →
  below (Some v) minimum
  = negb (from_option (λ m, bool_decide (m ≤ v)%Z) true minimum).
Proof.
  intros Hv. destruct minimum as [m|]; simpl; [|done].
  destruct (m =? 0)%Z eqn:Hm; simpl.
  - apply Z.eqb_eq in Hm. subst m. by rewrite bool_decide_eq_true_2.
  - destruct (v <? m)%Z eqn:Hlt.
    + apply Z.ltb_lt in Hlt. rewrite bool_decide_eq_false_2; [done|lia].
    + apply Z.ltb_ge in Hlt. by rewrite bool_decide_eq_true_2.
Qed.

Lemma determineEnding_loop_first_match e b flags arcs trust guard entries :
  activeFlags (playerState e) = Live flags →
  arcFlags (playerState e) = Live arcs →
  stats (playerState e) !! "trust" = Some trust →
  stats (playerState e) !! "guard" = Some guard →
  (0 ≤ trust)%Z → (0 ≤ guard)%Z →
  determineEnding_loop entries (e, b)
  = (Returned (first_match trust guard flags arcs entries), (e, b)).
Proof.
  intros Hf Ha Ht Hg Htrust Hguard. unfold first_match.
  induction entries as [|[endingId ending] rest IH]; [done|].
  cbn [determineEnding_loop List.find]. unfold candidate_matches at 1.
  cbn [snd].
  assert (Hreq :
    (match end_requires ending with
     | Some requires =>
         every_M (λ flag,
           hasFlag flag ≫= λ b0 : bool,
           if b0 then mret true
           else ps ← get_playerState;
                arcs ← collection (arcFlags ps);
                mret (JsSet.has arcs flag)) requires
     | None => mret true
     end) (e, b)
    = (Returned (forallb (λ id, bool_decide (id ∈ flags ∨ id ∈ arcs))
                         (or_empty (end_requires ending))), (e, b))).
  { destruct (end_requires ending) as [requires|]; [|done].
    by apply every_requirement. }
  rewrite (bind_returned _ _ _ _ _ Hreq).
  destruct (forallb _ (or_empty (end_requires ending))); simpl; [|done].
  run. rewrite Ht, Hg, !below_at_least by done.
  destruct (from_option _ true (end_min_trust ending)); simpl; [|done].
  by destruct (from_option _ true (end_min_guard ending)).
Qed.

(** X30.  On a player state with live flag and arc sets and with [trust]
    and [guard] numbers that are not negative, [determineEnding] examines
    the candidates in the order of [Object.entries] (the given order of an
    array) and returns the first one for which every id of [requires], if
    any, is an active flag or an active arc flag, [trust] is at least
    [min_trust] when specified and [guard] at least [min_guard] when
    specified; with no such candidate it returns the default ending, whose
    id is [default].  For the candidates A (min_trust 20), B (requires
    e_x) and default, with [trust] at 25 and no flags, the result is
    ending A. *)
Theorem determineEnding_first_match e b endings flags arcs trust guard :
  activeFlags (playerState e) = Live flags →
  arcFlags (playerState e) = Live arcs →
  stats (playerState e) !! "trust" = Some trust →
  stats (playerState e) !! "guard" = Some guard →
  (0 ≤ trust)%Z → (0 ≤ guard)%Z →
  determineEnding endings (e, b)
    = (Returned (first_match trust guard flags arcs (Object_entries endings)),
       (e, b))
  ∧ end_id defaultEnding = Some "default"
  ∧ end_id (first_match 25 guard [] [] (Object_entries scenario_endings))
    = Some "A".
Proof.
  intros Hf Ha Ht Hg Htrust Hguard. split_and!; [|done..].
  by apply determineEnding_loop_first_match.
Qed.

Lemma determineEnding_first_match_witness :
  activeFlags (playerState (play_engine_at 25)) = Live []
  ∧ arcFlags (playerState (play_engine_at 25)) = Live []
  ∧ stats (playerState (play_engine_at 25)) !! "trust" = Some 25%Z
  ∧ stats (playerState (play_engine_at 25)) !! "guard" = Some 0%Z
  ∧ ∃ ending,
      determineEnding scenario_endings (play_engine_at 25, empty_browser)
        = (Returned ending, (play_engine_at 25, empty_browser))
      ∧ end_id ending = Some "A".
Proof.
  assert (Hf : activeFlags (playerState (play_engine_at 25)) = Live [])
    by evaluate.
  assert (Ha : arcFlags (playerState (play_engine_at 25)) = Live [])
    by evaluate.
  assert (Ht : stats (playerState (play_engine_at 25)) !! "trust"
               = Some 25%Z) by evaluate.
  assert (Hg : stats (playerState (play_engine_at 25)) !! "guard"
               = Some 0%Z) by evaluate.
  split_and!; [done..|].
  destruct (determineEnding_first_match (play_engine_at 25) empty_browser
              scenario_endings [] [] 25%Z 0%Z Hf Ha Ht Hg)
    as (Hrun & _ & HA); [lia..|].
  eexists. split; [exact Hrun|exact HA].
Defined.

(** On a valid player state [determineEnding] returns the first matching
    candidate, or the default ending. *)
Lemma determineEnding_valid_state e b endings :
  valid_state (playerState e) →
  ∃ flags arcs trust guard,
    activeFlags (playerState e) = Live flags
    ∧ arcFlags (playerState e) = Live arcs
    ∧ stats (playerState e) !! "trust" = Some trust
    ∧ stats (playerState e) !! "guard" = Some guard
    ∧ determineEnding endings (e, b)
      = (Returned (first_match trust guard flags arcs
                     (Object_entries endings)), (e, b)).
Proof.
  intros [(flags & mems & arcs & Hf & Hm & Ha) Hrange].
  destruct (Hrange "trust") as (trust & Ht & Htrust); [left|].
  destruct (Hrange "guard") as (guard & Hg & Hguard); [right; left|].
  exists flags, arcs, trust, guard. split_and!; [done..|].
  apply determineEnding_loop_first_match; (done || lia).
Qed.

(** C8 (the code departs from the claim).  The engine [makeChoice] leaves
    on the catalog of [clobber_data] is reachable; no flag was set on it
    and its [trust] is 0, so that of the candidates of the scenario only
    the last one matches.  Yet [determineEnding] throws a [TypeError] when
    it tests the requirement of candidate B on the flag set, which is
    [NaN].  And with a
    [trust] of -5, restored by [importState] from a document, the
    candidate A that specifies a [min_trust] of 0 is returned although
    [trust] is below it: the guard [ending.min_trust && ...] takes the
    minimum 0 for an unspecified one. *)
Theorem determineEnding_throws_or_ignores_a_zero_minimum :
  (∃ e b,
     (makeChoice "d1" "optA" (clobber_engine, empty_browser)).2 = (e, b)
     ∧ reachable clobber_engine e
     ∧ stats (playerState e) !! "trust" = Some 0%Z
     ∧ determineEnding scenario_endings (e, b) = (Thrown TypeError, (e, b)))
  ∧ (∃ e b ending,
       importState negative_trust_document (play_engine, empty_browser)
       = (Returned true, (e, b))
       ∧ stats (playerState e) !! "trust" = Some (-5)%Z
       ∧ activeFlags (playerState e) = Live []
       ∧ determineEnding zero_minimum_endings (e, b)
         = (Returned ending, (e, b))
       ∧ end_id ending = Some "A"
       ∧ end_min_trust ending = Some 0%Z).
Proof.
  split.
  - exists (makeChoice "d1" "optA" (clobber_engine, empty_browser)).2.1,
           (makeChoice "d1" "optA" (clobber_engine, empty_browser)).2.2.
    split_and!.
    + by destruct (makeChoice "d1" "optA" (clobber_engine, empty_browser)).2.
    + apply reachable_makeChoice, reachable_start.
    + evaluate.
    + evaluate.
  - eexists _, _, _. split_and!.
    + evaluate.
    + evaluate.
    + evaluate.
    + evaluate.
    + evaluate.
    + evaluate.
Qed.

(** ** The play scenario of the specification *)

(** From a new game, choosing [optA] of [d1], whose effects are a flag and
    trust +5, sets the flag, brings [trust] to 5 and records one history
    entry for [optA]. *)
Example choice_sets_flag_stat_and_history :
  ∃ r e' b',
    makeChoice "d1" "optA" (play_engine, empty_browser)
      = (Returned r, (e', b'))
    ∧ hasFlag "flag_seen" (e', b') = (Returned true, (e', b'))
    ∧ getStat "trust" (e', b') = (Returned (VNumber 5), (e', b'))
    ∧ ∃ entry, history e' = [entry] ∧ hist_optionId entry = "optA".
Proof.
  eexists _, _, _. split_and!.
  - evaluate.
  - evaluate.
  - evaluate.
  - eexists. split.
    + evaluate.
    + evaluate.
Qed.

(** An effect id of the option that is not in the catalog is skipped, the
    effects around it apply. *)
Example unknown_effect_is_skipped :
  ∃ r e' b',
    makeChoice "d1" "optB" (play_engine, empty_browser)
      = (Returned r, (e', b'))
    ∧ (res_effects r).*1 = ["mem_first"; "arc_open"]
    ∧ arcFlags (playerState e') = Live ["arc_open"].
Proof.
  eexists _, _, _. split_and!.
  - evaluate.
  - evaluate.
  - evaluate.
Qed.

(** * Further properties of the validator *)

Lemma allEffectIds_has ds E :
  JsSet.has (allEffectIds ds) E = true ↔ is_defined ds E.
Proof.
  unfold allEffectIds, is_defined.
  rewrite JsSet_has_true, JsSet_from_list_elem, list_elem_of_fmap. split.
  - intros ([k v] & -> & Hin). by exists v.
  - intros (v & Hin). by exists (E, v).
Qed.

Lemma allEffectIds_has_not ds E :
  JsSet.has (allEffectIds ds) E = false ↔ ¬ is_defined ds E.
Proof. rewrite <- allEffectIds_has. by destruct (JsSet.has _ _). Qed.

Lemma broken_effect_in_check ds x :
  x ∈ check_broken_effects ds ↔
  ∃ decId decision option E,
    x = BROKEN_EFFECT_REFERENCE decId (opt_id option) E
    ∧ (decId, decision) ∈ decisions ds
    ∧ option ∈ or_empty (dec_options decision)
    ∧ E ∈ or_empty (opt_effects option)
    ∧ ¬ is_defined ds E.
Proof.
  unfold check_broken_effects. rewrite elem_of_flat_map. split.
  - intros ([d decision] & Hd & (o & Ho & H)%elem_of_flat_map).
    apply elem_of_flat_map in H as (E & HE & H).
    destruct (JsSet.has _ E) eqn:Hhas; [by apply elem_of_nil in H|].
    apply list_elem_of_singleton in H as ->.
    exists d, decision, o, E. by rewrite <- allEffectIds_has_not.
  - intros (d & decision & o & E & -> & Hd & Ho & HE & Hno).
    exists (d, decision). split; [done|].
    apply elem_of_flat_map. exists o. split; [done|].
    apply elem_of_flat_map. exists E. split; [done|].
    apply allEffectIds_has_not in Hno. rewrite Hno. left.
Qed.

Lemma broken_consumer_in_check ds x :
  x ∈ check_broken_consumers ds ↔
  ∃ consumerId consumer E,
    x = BROKEN_CONSUMER_REFERENCE consumerId E
    ∧ (consumerId, consumer) ∈ consumers ds
    ∧ E ∈ or_empty (con_checks consumer)
    ∧ ¬ is_defined ds E.
Proof.
  unfold check_broken_consumers. rewrite elem_of_flat_map. split.
  - intros ([c consumer] & Hc & (E & HE & H)%elem_of_flat_map).
    destruct (JsSet.has _ E) eqn:Hhas; [by apply elem_of_nil in H|].
    apply list_elem_of_singleton in H as ->.
    exists c, consumer, E. by rewrite <- allEffectIds_has_not.
  - intros (c & consumer & E & -> & Hc & HE & Hno).
    exists (c, consumer). split; [done|].
    apply elem_of_flat_map. exists E. split; [done|].
    apply allEffectIds_has_not in Hno. rewrite Hno. left.
Qed.

Lemma ghost_decision_in_check ds x :
  x ∈ check_ghost_decisions ds →
  ∃ decId, x = GHOST_DECISION decId.
Proof.
  unfold check_ghost_decisions.
  intros ([d decision] & _ & H)%elem_of_flat_map. cbv zeta in H.
  destruct (2 <=? _)%nat; [|by apply elem_of_nil in H].
  destruct (allIdentical _); [|by apply elem_of_nil in H].
  apply list_elem_of_singleton in H as ->. by exists d.
Qed.

Lemma tape_order_in_check ds x :
  x ∈ check_tape_order ds →
  ∃ cT pT E, x = BACKWARD_DEPENDENCY cT pT E.
Proof.
  unfold check_tape_order.
  intros ([c consumer] & _ & H)%elem_of_flat_map. cbv zeta in H.
  destruct (is_undefined _); [by apply elem_of_nil in H|].
  apply elem_of_flat_map in H as (E & _ & (p & _ & H)%elem_of_flat_map).
  destruct (_ && _); [|by apply elem_of_nil in H].
  apply list_elem_of_singleton in H as ->. by eexists _, _, _.
Qed.

Lemma broken_effect_reported ds decId optionId E :
  BROKEN_EFFECT_REFERENCE decId optionId E ∈ errors (validate ds) ↔
  ∃ decision option,
    (decId, decision) ∈ decisions ds
    ∧ option ∈ or_empty (dec_options decision)
    ∧ opt_id option = optionId
    ∧ E ∈ or_empty (opt_effects option)
    ∧ ¬ is_defined ds E.
Proof.
  unfold validate. simpl. rewrite !elem_of_app, broken_effect_in_check.
  split.
  - intros [H|[H|[H|H]]].
    + destruct H as (d & decision & o & E' & [= ? ? ?] & H). subst.
      exists decision, o. naive_solver.
    + apply broken_consumer_in_check in H as (?&?&?&?&_). done.
    + apply ghost_decision_in_check in H as (?&?). done.
    + apply tape_order_in_check in H as (?&?&?&?). done.
  - intros (decision & o & Hd & Ho & <- & HE & Hno). left.
    by exists decId, decision, o, E.
Qed.

Lemma broken_consumer_reported ds consumerId E :
  BROKEN_CONSUMER_REFERENCE consumerId E ∈ errors (validate ds) ↔
  ∃ consumer,
    (consumerId, consumer) ∈ consumers ds
    ∧ E ∈ or_empty (con_checks consumer)
    ∧ ¬ is_defined ds E.
Proof.
  unfold validate. simpl. rewrite !elem_of_app, broken_consumer_in_check.
  split.
  - intros [H|[H|[H|H]]].
    + apply broken_effect_in_check in H as (?&?&?&?&?&_). done.
    + destruct H as (c & consumer & E' & [= ? ?] & H). subst.
      by exists consumer.
    + apply ghost_decision_in_check in H as (?&?). done.
    + apply tape_order_in_check in H as (?&?&?&?). done.
  - intros (consumer & Hc & HE & Hno). right. left.
    by exists consumerId, consumer, E.
Qed.

(** X1.  CHECK 3 reports [BROKEN_EFFECT_REFERENCE] for a decision, an option
    id and an effect id exactly when an option with that id of that
    decision lists the effect id and the effect catalog has no such key,
    and [BROKEN_CONSUMER_REFERENCE] for a consumer and an effect id
    exactly when the consumer's [checks] list the id and the catalog has
    no such key. *)
Theorem broken_references_reported ds :
  (∀ decId optionId E,
     BROKEN_EFFECT_REFERENCE decId optionId E ∈ errors (validate ds) ↔
     ∃ decision option,
       (decId, decision) ∈ decisions ds
       ∧ option ∈ or_empty (dec_options decision)
       ∧ opt_id option = optionId
       ∧ E ∈ or_empty (opt_effects option)
       ∧ ¬ is_defined ds E)
  ∧ (∀ consumerId E,
     BROKEN_CONSUMER_REFERENCE consumerId E ∈ errors (validate ds) ↔
     ∃ consumer,
       (consumerId, consumer) ∈ consumers ds
       ∧ E ∈ or_empty (con_checks consumer)
       ∧ ¬ is_defined ds E).
Proof.
  split; [apply broken_effect_reported|apply broken_consumer_reported].
Qed.

(** ** CHECK 5: unused effects *)

Lemma producedEffects_has_not ds E :
  JsMap.has (index_produced ds) E = false ↔ ¬ is_produced ds E.
Proof.
  rewrite <- producedEffects_has, JsMap_elem_keys. unfold JsMap.has.
  destruct (JsMap.get _ _); naive_solver.
Qed.

Lemma unused_effect_in_check ds w :
  w ∈ check_unused_effects ds ↔
  ∃ E, w = UNUSED_EFFECT E ∧ is_defined ds E ∧ ¬ is_produced ds E.
Proof.
  unfold check_unused_effects, JsSet.spread. rewrite elem_of_flat_map. split.
  - intros (E & HE & H).
    destruct (JsMap.has _ E) eqn:Hhas; [by apply elem_of_nil in H|].
    apply list_elem_of_singleton in H as ->. exists E.
    split_and!; [done| |by apply producedEffects_has_not].
    by apply allEffectIds_has, JsSet_has_true.
  - intros (E & -> & Hdef & Hno). exists E. split.
    + by apply JsSet_has_true, allEffectIds_has.
    + apply producedEffects_has_not in Hno. rewrite Hno. left.
Qed.

Lemma ghost_effect_in_check ds w :
  w ∈ check_ghost_effects ds → ∃ E producers, w = GHOST_EFFECT E producers.
Proof.
  unfold check_ghost_effects.
  intros ([E p] & _ & H)%elem_of_flat_map. cbv zeta in H.
  repeat (match type of H with
          | _ ∈ (if ?c then _ else _) => destruct c
          end; try by apply elem_of_nil in H).
  apply list_elem_of_singleton in H as ->. by eexists _, _.
Qed.

Lemma unknown_tape_in_check ds w :
  w ∈ check_unknown_tapes ds ↔
  ∃ consumerId consumer,
    w = UNKNOWN_TAPE consumerId (con_tape consumer)
    ∧ (consumerId, consumer) ∈ consumers ds
    ∧ is_undefined (tape_lookup (build_tapeIndex (tapeOrder ds))
                                (con_tape consumer)) = true.
Proof.
  unfold check_unknown_tapes. rewrite elem_of_flat_map. split.
  - intros ([c consumer] & Hc & H). cbv zeta in H.
    destruct (is_undefined _) eqn:Hu; [|by apply elem_of_nil in H].
    apply list_elem_of_singleton in H as ->. by exists c, consumer.
  - intros (c & consumer & -> & Hc & Hu). exists (c, consumer).
    split; [done|]. cbv zeta. rewrite Hu. left.
Qed.

Lemma unused_effect_reported ds E :
  UNUSED_EFFECT E ∈ warnings (validate ds) ↔
  is_defined ds E ∧ ¬ is_produced ds E.
Proof.
  unfold validate. simpl. rewrite !elem_of_app, unused_effect_in_check.
  split.
  - intros [H|[H|H]].
    + apply ghost_effect_in_check in H as (?&?&?). done.
    + destruct H as (E' & [= ->] & H). done.
    + apply unknown_tape_in_check in H as (?&?&?&_). done.
  - intros H. right. left. by exists E.
Qed.

Lemma NoDup_flat_map_singleton {A B} (P : A → bool) (f : A → B) l :
  (∀ x y, f x = f y → x = y) → NoDup l →
  NoDup (flat_map (λ x, if P x then [] else [f x]) l).
Proof.
  intros Hinj. induction 1 as [|x l Hx Hnd IH]; simpl; [constructor|].
  destruct (P x); simpl; [done|]. constructor; [|done].
  intros (y & Hy & H)%elem_of_flat_map.
  destruct (P y); [by apply elem_of_nil in H|].
  apply list_elem_of_singleton, Hinj in H. by subst y.
Qed.

(** The [UNUSED_EFFECT] warnings of a report are those of CHECK 5. *)
Lemma unused_warnings_of_report ds :
  List.filter is_unused_effect (warnings (validate ds))
  = check_unused_effects ds.
Proof.
  unfold validate. simpl. rewrite !List.filter_app.
  assert (H1 : List.filter is_unused_effect (check_ghost_effects ds) = []).
  { unfold check_ghost_effects. apply filter_flat_map_none.
    intros [E p] y H. cbv zeta in H.
    repeat (match type of H with
            | _ ∈ (if ?c then _ else _) => destruct c
            end; try by apply elem_of_nil in H).
    by apply list_elem_of_singleton in H as ->. }
  assert (H2 : List.filter is_unused_effect (check_unknown_tapes ds) = []).
  { unfold check_unknown_tapes. apply filter_flat_map_none.
    intros [c consumer] y H.
    destruct (is_undefined _); [|by apply elem_of_nil in H].
    by apply list_elem_of_singleton in H as ->. }
  rewrite H1, H2, app_nil_r. simpl. apply filter_all.
  intros y (E & -> & _)%unused_effect_in_check. done.
Qed.

(** X2.  CHECK 5 warns [UNUSED_EFFECT] for exactly the keys of the effect
    catalog that no option of any decision lists; no such warning is
    repeated, and an effect warned about as unused is never also warned
    about as a ghost effect. *)
Theorem unused_effect_iff_defined_not_produced ds :
  (∀ E, UNUSED_EFFECT E ∈ warnings (validate ds) ↔
        is_defined ds E ∧ ¬ is_produced ds E)
  ∧ NoDup (List.filter is_unused_effect (warnings (validate ds)))
  ∧ (∀ E, UNUSED_EFFECT E ∈ warnings (validate ds) →
          ¬ ghost_effect_flagged ds E).
Proof.
  split_and!.
  - apply unused_effect_reported.
  - rewrite unused_warnings_of_report. unfold check_unused_effects.
    apply NoDup_flat_map_singleton; [congruence|].
    apply JsSet_from_list_NoDup.
  - intros E [_ Hno]%unused_effect_reported Hghost.
    apply ghost_effect_reported in Hghost as [Hprod _]. done.
Qed.

(** ** CHECK 7: unknown tapes *)

Lemma tape_forEach_is_Some tapes m i t :
  is_Some (tape_forEach m i tapes !! t) ↔
  is_Some (m !! t) ∨ (t ∈ tapes ∧ t ≠ "__proto__").
Proof.
  revert m i. induction tapes as [|t0 tapes IH]; intros m i; simpl.
  { rewrite elem_of_nil. naive_solver. }
  rewrite IH, elem_of_cons. unfold tape_assign.
  destruct (decide (t0 = "__proto__")) as [->|Hne].
  - naive_solver.
  - destruct (decide (t0 = t)) as [->|Hneq].
    + rewrite lookup_insert_eq. split; [|by eauto]. intros _. right. auto.
    + rewrite lookup_insert_ne by done. naive_solver.
Qed.

(** [tapeIndex[tape] === undefined] exactly for a tape that is neither in
    the ordering nor the name of a member of [Object.prototype]. *)
Lemma tape_lookup_undefined tapes tape :
  is_undefined (tape_lookup (build_tapeIndex tapes) tape) = true ↔
  (key_of tape ∉ tapes) ∧ inherited (key_of tape) = false.
Proof.
  unfold tape_lookup, build_tapeIndex.
  pose proof (tape_forEach_is_Some tapes ∅ 0 (key_of tape)) as Hsome.
  rewrite lookup_empty in Hsome.
  destruct (tape_forEach ∅ 0 tapes !! key_of tape) as [i|] eqn:Hget; simpl.
  - split; [done|]. intros [Hnot _].
    destruct (proj1 Hsome) as [[? [=]]|[Hin _]]; [by eexists|done].
  - destruct (inherited (key_of tape)) eqn:Hinh; simpl.
    + split; [done|]. by intros [_ ?].
    + split; [|done]. intros _. split; [|done]. intros Hin.
      assert (Hp : key_of tape ≠ "__proto__") by (intros Heq; by rewrite Heq in Hinh).
      destruct (proj2 Hsome) as [? [=]]. by right.
Qed.

Lemma unknown_tape_reported ds consumerId tape :
  UNKNOWN_TAPE consumerId tape ∈ warnings (validate ds) ↔
  ∃ consumer,
    (consumerId, consumer) ∈ consumers ds
    ∧ con_tape consumer = tape
    ∧ (key_of tape ∉ tapeOrder ds)
    ∧ inherited (key_of tape) = false.
Proof.
  unfold validate. simpl. rewrite !elem_of_app, unknown_tape_in_check.
  split.
  - intros [H|[H|H]].
    + apply ghost_effect_in_check in H as (?&?&?). done.
    + apply unused_effect_in_check in H as (?&?&_). done.
    + destruct H as (c & consumer & [= ? ?] & Hc & Hu). subst.
      exists consumer. by apply tape_lookup_undefined in Hu as [??].
  - intros (consumer & Hc & <- & Hnot & Hinh). right. right.
    exists consumerId, consumer. split_and!; [done..|].
    by apply tape_lookup_undefined.
Qed.

Lemma backward_dependency_in_check ds cT pT E :
  BACKWARD_DEPENDENCY cT pT E ∈ check_tape_order ds →
  ∃ consumerId consumer,
    (consumerId, consumer) ∈ consumers ds
    ∧ con_tape consumer = cT
    ∧ E ∈ or_empty (con_checks consumer)
    ∧ is_undefined (tape_lookup (build_tapeIndex (tapeOrder ds)) cT) = false.
Proof.
  unfold check_tape_order.
  intros ([c consumer] & Hc & H)%elem_of_flat_map. cbv zeta in H.
  destruct (is_undefined _) eqn:Hu; [by apply elem_of_nil in H|].
  apply elem_of_flat_map in H as (E' & HE & (p & _ & H)%elem_of_flat_map).
  destruct (_ && _); [|by apply elem_of_nil in H].
  apply list_elem_of_singleton in H. injection H as ? ? ?. subst.
  by exists c, consumer.
Qed.

Lemma backward_dependency_in_report ds cT pT E :
  BACKWARD_DEPENDENCY cT pT E ∈ errors (validate ds) ↔
  BACKWARD_DEPENDENCY cT pT E ∈ check_tape_order ds.
Proof.
  rewrite <- backward_errors_of_report.
  rewrite !list_elem_of_In, filter_In. simpl. tauto.
Qed.

(** X3.  CHECK 7 warns [UNKNOWN_TAPE] for exactly the consumers whose tape
    (the string [undefined] when the consumer has none) is neither in the
    tape ordering nor the name of a member of [Object.prototype]; such a
    consumer is skipped, so every [BACKWARD_DEPENDENCY] error names a
    consumer tape that is in the ordering or is such a name. *)
Theorem unknown_tape_iff_not_in_ordering ds :
  (∀ consumerId tape,
     UNKNOWN_TAPE consumerId tape ∈ warnings (validate ds) ↔
     ∃ consumer,
       (consumerId, consumer) ∈ consumers ds
       ∧ con_tape consumer = tape
       ∧ (key_of tape ∉ tapeOrder ds)
       ∧ inherited (key_of tape) = false)
  ∧ (∀ cT pT E,
       BACKWARD_DEPENDENCY cT pT E ∈ errors (validate ds) →
       key_of cT ∈ tapeOrder ds ∨ inherited (key_of cT) = true).
Proof.
  split; [apply unknown_tape_reported|].
  intros cT pT E H%backward_dependency_in_report.
  apply backward_dependency_in_check in H as (c & consumer & _ & _ & _ & Hu).
  destruct (decide (key_of cT ∈ tapeOrder ds)) as [|Hnot]; [by left|].
  right. destruct (inherited (key_of cT)) eqn:Hinh; [done|].
  by rewrite (proj2 (tape_lookup_undefined _ _) (conj Hnot Hinh)) in Hu.
Qed.

(** ** The verdict *)

Lemma errors_nil_iff ds :
  errors (validate ds) = [] ↔ ∀ x, x ∉ errors (validate ds).
Proof.
  destruct (errors (validate ds)) as [|x l].
  - split; [|done]. intros _ x H. by apply elem_of_nil in H.
  - split; [done|]. intros H. destruct (H x). left.
Qed.

Lemma exit_status_zero r : exit_status r = 0%nat ↔ errors r = [].
Proof. unfold exit_status. by destruct (errors r). Qed.

Lemma error_in_report ds x :
  x ∈ errors (validate ds) ↔
  x ∈ check_broken_effects ds ∨ x ∈ check_broken_consumers ds
  ∨ x ∈ check_ghost_decisions ds ∨ x ∈ check_tape_order ds.
Proof. unfold validate. simpl. by rewrite !elem_of_app. Qed.

Lemma cosmetic_reported ds decId :
  GHOST_DECISION decId ∈ errors (validate ds) ↔
  ∃ decision, (decId, decision) ∈ decisions ds ∧ cosmetic decision.
Proof.
  rewrite ghost_decision_reported. unfold cosmetic.
  by setoid_rewrite allIdentical_pairwise.
Qed.

(** X4.  The verdict.  For a dataset whose decisions have pairwise
    distinct ids, whose tape ordering has no repetition and whose tape
    names are plain, the script exits with status 0 exactly
    when every effect id listed by an option or checked by a consumer is a
    key of the effect catalog, no decision with two or more options has
    the same effect set in all of them, and no consumer checks an effect
    that a decision of a strictly later tape produces.  Warnings do not
    change the status. *)
Theorem validation_passes_iff ds :
  NoDup (tapeOrder ds) →
  plain_tape_names ds →
  object_keys_distinct (decisions ds) →
  exit_status (validate ds) = 0%nat ↔
  (∀ E, is_produced ds E ∨ is_checked ds E → is_defined ds E)
  ∧ (∀ decId decision, (decId, decision) ∈ decisions ds → ¬ cosmetic decision)
  ∧ (∀ consumerId consumer decId decision option E,
       (consumerId, consumer) ∈ consumers ds →
       E ∈ or_empty (con_checks consumer) →
       (decId, decision) ∈ decisions ds →
       option ∈ or_empty (dec_options decision) →
       E ∈ or_empty (opt_effects option) →
       strictly_after (tapeOrder ds) (dec_tape decision) (con_tape consumer)
       = false).
Proof.
  intros Hnd Hplain Hkeys.
  rewrite exit_status_zero, errors_nil_iff. split.
  - intros Hnone. split_and!.
    + intros E HE.
      destruct (JsSet.has (allEffectIds ds) E) eqn:Hhas;
        [by apply allEffectIds_has|].
      apply allEffectIds_has_not in Hhas.
      destruct HE as [(d & decision & o & Hd & Ho & HE)|(c & consumer & Hc & HE)].
      * destruct (Hnone (BROKEN_EFFECT_REFERENCE d (opt_id o) E)).
        apply broken_effect_reported. by exists decision, o.
      * destruct (Hnone (BROKEN_CONSUMER_REFERENCE c E)).
        apply broken_consumer_reported. by exists consumer.
    + intros d decision Hd Hcos.
      apply (Hnone (GHOST_DECISION d)), cosmetic_reported. by exists decision.
    + intros c consumer d decision o E Hc HE Hd Ho HE'.
      destruct (strictly_after _ _ _) eqn:Hafter; [|done].
      destruct (Hnone (BACKWARD_DEPENDENCY (con_tape consumer)
                         (dec_tape decision) E)).
      apply backward_dependency_in_report.
      rewrite check_tape_order_listings by done.
      apply backward_dependencies_elem.
      by exists c, consumer, d, decision, o.
  - intros (Hrefs & Hcos & Hback) x Hx.
    apply error_in_report in Hx as [H|[H|[H|H]]].
    + apply broken_effect_in_check in H
        as (d & decision & o & E & _ & Hd & Ho & HE & Hno).
      apply Hno, Hrefs. left. by exists d, decision, o.
    + apply broken_consumer_in_check in H
        as (c & consumer & E & _ & Hc & HE & Hno).
      apply Hno, Hrefs. right. by exists c, consumer.
    + assert (Hx : x ∈ errors (validate ds))
        by (apply error_in_report; auto).
      apply ghost_decision_in_check in H as (d & ->).
      apply cosmetic_reported in Hx as (decision & Hd & Hc).
      by apply (Hcos d decision).
    + rewrite check_tape_order_listings in H by done.
      assert (Hform : ∃ cT pT E, x = BACKWARD_DEPENDENCY cT pT E).
      { apply tape_order_in_check with ds.
        by rewrite check_tape_order_listings. }
      destruct Hform as (cT & pT & E & ->).
      apply backward_dependencies_elem in H
        as (c & consumer & d & decision & o & Hc & <- & HE & Hd & <- & Ho
            & HE' & Hafter).
      by rewrite (Hback c consumer d decision o E) in Hafter.
Qed.

Lemma orphan_data_plain : plain_tape_names orphan_data.
Proof.
  split.
  - intros t Ht. simpl in Ht.
    repeat (apply elem_of_cons in Ht as [->|Ht]; [done|]).
    by apply elem_of_nil in Ht.
  - intros c consumer Hc. simpl in Hc.
    apply list_elem_of_singleton in Hc. by injection Hc as -> ->.
Qed.

Lemma validation_passes_iff_witness :
  NoDup (tapeOrder orphan_data)
  ∧ plain_tape_names orphan_data
  ∧ object_keys_distinct (decisions orphan_data)
  ∧ warnings (validate orphan_data) = [UNUSED_EFFECT "e_orphan"]
  ∧ ∀ E, is_produced orphan_data E ∨ is_checked orphan_data E →
         is_defined orphan_data E.
Proof.
  assert (Hnd : NoDup (tapeOrder orphan_data)).
  { apply (bool_decide_unpack _). by vm_compute. }
  assert (Hkeys : object_keys_distinct (decisions orphan_data)).
  { apply (bool_decide_unpack _). by vm_compute. }
  split_and!; [done|apply orphan_data_plain|done|by vm_compute|].
  apply (validation_passes_iff orphan_data Hnd orphan_data_plain Hkeys).
  by vm_compute.
Defined.

(** ** [setsEqual] *)

(** X5.  On two [Set]s built from arrays, [setsEqual] answers [true] exactly
    when the arrays have the same elements, whatever their order and
    repetitions; it is symmetric in its arguments. *)
Theorem setsEqual_decides_set_equality l1 l2 :
  (setsEqual (JsSet.from_list l1) (JsSet.from_list l2) = true ↔
   list_to_set l1 =@{gset string} list_to_set l2)
  ∧ setsEqual (JsSet.from_list l1) (JsSet.from_list l2)
    = setsEqual (JsSet.from_list l2) (JsSet.from_list l1).
Proof.
  assert (Hiff : ∀ k1 k2,
    setsEqual (JsSet.from_list k1) (JsSet.from_list k2) = true ↔
    list_to_set k1 =@{gset string} list_to_set k2).
  { intros k1 k2. rewrite setsEqual_spec by apply JsSet_from_list_NoDup.
    by rewrite !JsSet_from_list_to_set. }
  split; [apply Hiff|].
  destruct (setsEqual (JsSet.from_list l1) (JsSet.from_list l2)) eqn:H12,
           (setsEqual (JsSet.from_list l2) (JsSet.from_list l1)) eqn:H21;
    try done.
  - apply Hiff in H12. symmetry in H12. apply Hiff in H12. congruence.
  - apply Hiff in H21. symmetry in H21. apply Hiff in H21. congruence.
Qed.

(** ** The statistics block *)

Lemma foldl_count {A B} (g : A → list B) (f : nat → A → nat) l n :
  (∀ n x, x ∈ l → f n x = (n + length (g x))%nat) →
  foldl f n l = (n + length (flat_map g l))%nat.
Proof.
  revert n. induction l as [|x l IH]; intros n Hf; simpl; [lia|].
  rewrite IH by (intros n' y Hy; apply Hf; by right).
  rewrite Hf by left. rewrite length_app. lia.
Qed.

Lemma count_broken_length ds :
  count_broken ds
  = (length (check_broken_effects ds) + length (check_broken_consumers ds))%nat.
Proof.
  unfold count_broken, check_broken_effects, check_broken_consumers.
  cbv zeta.
  rewrite (foldl_count (λ '(consumerId, consumer),
    flat_map (λ effectId,
      if JsSet.has (allEffectIds ds) effectId then []
      else [BROKEN_CONSUMER_REFERENCE consumerId effectId])
      (or_empty (con_checks consumer)))).
  2: { intros n [c consumer] _. apply foldl_count. intros n' E _.
       destruct (JsSet.has _ E); simpl; lia. }
  f_equal.
  rewrite (foldl_count (λ '(decId, decision),
    flat_map (λ option,
      flat_map (λ effectId,
        if JsSet.has (allEffectIds ds) effectId then []
        else [BROKEN_EFFECT_REFERENCE decId (opt_id option) effectId])
        (or_empty (opt_effects option)))
      (or_empty (dec_options decision)))); [done|].
  intros n [d decision] _. apply foldl_count. intros n' o _.
  apply foldl_count. intros n'' E _. destruct (JsSet.has _ E); simpl; lia.
Qed.

Lemma count_ghosts_length ds : count_ghosts ds = length (check_ghost_effects ds).
Proof.
  unfold count_ghosts, check_ghost_effects. cbv zeta.
  rewrite (foldl_count (λ '(effectId, producers),
    if type_is (own (effects ds) effectId) "stat" then []
    else if type_is (own (effects ds) effectId) "arc" then []
    else if (length (or_empty (JsMap.get (index_consumed ds) effectId)) =? 0)%nat
            && no_length (own (effects ds) effectId ≫= eff_consumed_by)
    then
      if has_length (own (effects ds) effectId ≫= eff_consumed_by) then []
      else [GHOST_EFFECT effectId producers]
    else [])); [done|].
  intros n [E p] _.
  repeat (match goal with
          | |- context [if ?c then _ else _] => destruct c
          end; simpl; try lia).
Qed.

Lemma count_unused_length ds : count_unused ds = length (check_unused_effects ds).
Proof.
  unfold count_unused, check_unused_effects.
  rewrite (foldl_count (λ effectId,
    if JsMap.has (index_produced ds) effectId then []
    else [UNUSED_EFFECT effectId])); [done|].
  intros n E _. destruct (JsMap.has _ E); simpl; lia.
Qed.

Lemma count_options_length ds :
  count_options ds
  = length (flat_map (λ d, or_empty (dec_options d.2)) (decisions ds)).
Proof.
  unfold count_options.
  rewrite (foldl_count (λ d, or_empty (dec_options d.2))); [done|].
  intros n [d decision] _. simpl.
  rewrite (foldl_count (λ o : ChoiceOption, [o])).
  - f_equal. induction (or_empty (dec_options decision)); simpl; congruence.
  - intros; simpl; lia.
Qed.

Lemma filter_app_nil_l {A} (P : A → bool) l1 l2 :
  (∀ y, y ∈ l1 → P y = false) → List.filter P (l1 ++ l2) = List.filter P l2.
Proof.
  intros H. rewrite List.filter_app.
  replace (List.filter P l1) with (@nil A); [done|].
  symmetry. induction l1 as [|y l IH]; simpl; [done|].
  rewrite H by left. apply IH. intros z Hz. apply H. by right.
Qed.

Lemma filter_none {A} (P : A → bool) l :
  (∀ y, y ∈ l → P y = false) → List.filter P l = [].
Proof.
  intros H. induction l as [|y l IH]; simpl; [done|].
  rewrite H by left. apply IH. intros z Hz. apply H. by right.
Qed.

Lemma broken_errors_of_report ds :
  List.filter is_broken_reference (errors (validate ds))
  = check_broken_effects ds ++ check_broken_consumers ds.
Proof.
  unfold validate. simpl. rewrite !List.filter_app.
  rewrite (filter_all _ (check_broken_effects ds)).
  2: { by intros y (?&?&?&?&->&_)%broken_effect_in_check. }
  rewrite (filter_all _ (check_broken_consumers ds)).
  2: { by intros y (?&?&?&->&_)%broken_consumer_in_check. }
  rewrite (filter_none _ (check_ghost_decisions ds)).
  2: { by intros y (?&->)%ghost_decision_in_check. }
  rewrite (filter_none _ (check_tape_order ds)).
  2: { by intros y (?&?&?&->)%tape_order_in_check. }
  by rewrite !app_nil_r.
Qed.

Lemma ghost_warnings_of_report ds :
  List.filter is_ghost_effect (warnings (validate ds))
  = check_ghost_effects ds.
Proof.
  unfold validate. simpl. rewrite !List.filter_app.
  rewrite (filter_all _ (check_ghost_effects ds)).
  2: { by intros y (?&?&->)%ghost_effect_in_check. }
  rewrite (filter_none _ (check_unused_effects ds)).
  2: { by intros y (?&->&_)%unused_effect_in_check. }
  rewrite (filter_none _ (check_unknown_tapes ds)).
  2: { by intros y (?&?&->&_)%unknown_tape_in_check. }
  by rewrite !app_nil_r.
Qed.

(** X6.  The statistics block agrees with the report: [Broken refs] is the
    number of [BROKEN_EFFECT_REFERENCE] and [BROKEN_CONSUMER_REFERENCE]
    errors, [Ghost effects] the number of [GHOST_EFFECT] warnings, [Unused
    effects] the number of [UNUSED_EFFECT] warnings and [Options] the
    number of options of all decisions; a run that exits with status 0 has
    counted no broken reference. *)
Theorem statistics_agree_with_report ds :
  st_broken (statistics ds)
  = length (List.filter is_broken_reference (errors (validate ds)))
  ∧ st_ghosts (statistics ds)
    = length (List.filter is_ghost_effect (warnings (validate ds)))
  ∧ st_unused (statistics ds)
    = length (List.filter is_unused_effect (warnings (validate ds)))
  ∧ st_options (statistics ds)
    = length (flat_map (λ d, or_empty (dec_options d.2)) (decisions ds))
  ∧ (exit_status (validate ds) = 0%nat → st_broken (statistics ds) = 0%nat).
Proof.
  assert (Hbroken : st_broken (statistics ds)
    = length (List.filter is_broken_reference (errors (validate ds)))).
  { change (st_broken (statistics ds)) with (count_broken ds).
    by rewrite broken_errors_of_report, length_app, count_broken_length. }
  split_and!; [done| | | |].
  - change (st_ghosts (statistics ds)) with (count_ghosts ds).
    by rewrite ghost_warnings_of_report, count_ghosts_length.
  - change (st_unused (statistics ds)) with (count_unused ds).
    by rewrite unused_warnings_of_report, count_unused_length.
  - apply count_options_length.
  - intros Hexit%exit_status_zero. by rewrite Hbroken, Hexit.
Qed.

(** ** CHECK 4: one warning per effect *)

Lemma JsMap_set_keys {V} (m : list (string * V)) k v :
  k ∈ m.*1 → (JsMap.set m k v).*1 = m.*1.
Proof.
  induction m as [|[k' v'] m IH]; csimpl; intros Hk.
  - by apply elem_of_nil in Hk.
  - destruct (decide (k' = k)) as [->|Hne]; csimpl; [done|].
    apply elem_of_cons in Hk as [->|Hk]; [done|]. by rewrite IH.
Qed.

Lemma JsMap_set_NoDup {V} (m : list (string * V)) k v :
  NoDup m.*1 → NoDup (JsMap.set m k v).*1.
Proof.
  intros Hnd. destruct (decide (k ∈ m.*1)) as [Hk|Hk].
  - by rewrite JsMap_set_keys.
  - rewrite JsMap_set_fresh, fmap_app by done. apply NoDup_app.
    split_and!; [done| |apply NoDup_singleton].
    intros x Hx ->%list_elem_of_singleton. done.
Qed.

Lemma push_to_NoDup {V} (m : list (string * list V)) k v :
  NoDup m.*1 → NoDup (push_to m k v).*1.
Proof.
  intros Hnd. unfold push_to. apply JsMap_set_NoDup.
  destruct (JsMap.has m k); [done|]. by apply JsMap_set_NoDup.
Qed.

Lemma foldl_push_to_NoDup {V} (pairs : list (string * V)) m :
  NoDup m.*1 → NoDup (foldl (λ m p, push_to m p.1 p.2) m pairs).*1.
Proof.
  revert m. induction pairs as [|p pairs IH]; intros m Hnd; simpl; [done|].
  by apply IH, push_to_NoDup.
Qed.

Lemma index_produced_NoDup ds : NoDup (index_produced ds).*1.
Proof.
  rewrite index_produced_pairs. apply foldl_push_to_NoDup. constructor.
Qed.

Lemma ghost_effect_in_check_iff ds E producers :
  GHOST_EFFECT E producers ∈ check_ghost_effects ds →
  JsMap.get (index_produced ds) E = Some producers.
Proof.
  unfold check_ghost_effects.
  intros ([E' p] & Hin & H)%elem_of_flat_map. cbv zeta in H.
  repeat (match type of H with
          | _ ∈ (if ?c then _ else _) => destruct c
          end; try by apply elem_of_nil in H).
  apply list_elem_of_singleton in H. injection H as -> ->.
  apply JsMap_get_elem; [|done]. apply index_produced_NoDup.
Qed.

Lemma check_ghost_effects_NoDup ds : NoDup (check_ghost_effects ds).
Proof.
  unfold check_ghost_effects. cbv zeta.
  pose proof (index_produced_NoDup ds) as Hnd.
  induction (index_produced ds) as [|[e p] m IH]; csimpl in *; [constructor|].
  apply NoDup_cons in Hnd as [He Hnd]. apply NoDup_app.
  split_and!; [|intros x Hx Hx'|by apply IH].
  - repeat (match goal with
            | |- context [if ?c then _ else _] => destruct c
            end; try apply NoDup_nil_2). apply NoDup_singleton.
  - assert (x = GHOST_EFFECT e p) as ->.
    { repeat (match type of Hx with
              | _ ∈ (if ?c then _ else _) => destruct c
              end; try by apply elem_of_nil in Hx).
      by apply list_elem_of_singleton in Hx. }
    apply elem_of_flat_map in Hx' as ([e' p'] & Hin' & Hx').
    repeat (match type of Hx' with
            | _ ∈ (if ?c then _ else _) => destruct c
            end; try by apply elem_of_nil in Hx').
    apply list_elem_of_singleton in Hx'. injection Hx' as -> ->.
    apply He. apply list_elem_of_fmap. by exists (e', p').
Qed.

(** X7.  A [GHOST_EFFECT] warning for effect [E] names as producers exactly
    the decisions that have an option listing [E]; there is one such
    warning per effect at most, and no [GHOST_EFFECT] warning is
    repeated. *)
Theorem ghost_effect_warning_names_producers ds E producers :
  GHOST_EFFECT E producers ∈ warnings (validate ds) →
  (∀ decId, decId ∈ producers ↔
     ∃ decision option,
       (decId, decision) ∈ decisions ds
       ∧ option ∈ or_empty (dec_options decision)
       ∧ E ∈ or_empty (opt_effects option))
  ∧ (∀ producers', GHOST_EFFECT E producers' ∈ warnings (validate ds) →
                   producers' = producers)
  ∧ NoDup (List.filter is_ghost_effect (warnings (validate ds))).
Proof.
  assert (Hget : ∀ p, GHOST_EFFECT E p ∈ warnings (validate ds) →
                      JsMap.get (index_produced ds) E = Some p).
  { intros p Hp. apply ghost_effect_in_check_iff.
    rewrite <- ghost_warnings_of_report.
    apply list_elem_of_In, filter_In. split; [by apply list_elem_of_In|done]. }
  intros Hin. split_and!.
  - intros d. pose proof (Hget _ Hin) as Hp.
    rewrite producedEffects_get in Hp.
    assert (Hpushed : producers = pushed E (produced_pairs ds)).
    { rewrite <- (extend_None_or_empty (pushed E (produced_pairs ds))).
      by rewrite Hp. }
    by rewrite Hpushed, pushed_elem, produced_pairs_elem.
  - intros p' Hp'. apply Hget in Hin, Hp'. congruence.
  - rewrite ghost_warnings_of_report. apply check_ghost_effects_NoDup.
Qed.

Lemma ghost_effect_warning_names_producers_witness :
  GHOST_EFFECT "e_lost" ["d1"] ∈ warnings (validate override_data)
  ∧ ∀ producers', GHOST_EFFECT "e_lost" producers'
                    ∈ warnings (validate override_data) →
                  producers' = ["d1"].
Proof.
  assert (Hin : GHOST_EFFECT "e_lost" ["d1"]
                  ∈ warnings (validate override_data))
    by (vm_compute; left).
  split; [done|].
  apply (ghost_effect_warning_names_producers override_data "e_lost" ["d1"] Hin).
Defined.

(** * Further properties of the engine *)

(** ** Frame properties of [makeChoice] *)

Lemma applyEffect_frame effectId e b out e' b' :
  applyEffect effectId (e, b) = (out, (e', b')) →
  same_catalog e e' ∧ history e' = history e ∧ same_storage b b'
  ∧ dateNow b' = dateNow b.
Proof.
  unfold applyEffect. run.
  destruct (JsMap.get (effectMap e) effectId) as [effect|]; run.
  2: { intros [= <- <- <-]. by repeat split. }
  repeat (match goal with
          | |- context [if ?c then _ else _] => destruct c; run
          | |- context [match ?s with Live _ => _ | Overwritten _ => _ end] =>
              destruct s; run
          end);
    intros [= <- <- <-]; by repeat split.
Qed.

Lemma apply_effects_frame effectIds : ∀ acc e b out e' b',
  apply_effects effectIds acc (e, b) = (out, (e', b')) →
  same_catalog e e' ∧ history e' = history e ∧ same_storage b b'
  ∧ dateNow b' = dateNow b.
Proof.
  induction effectIds as [|effectId rest IH]; intros acc e b out e' b'.
  { intros [= <- <- <-]. by repeat split. }
  cbn [apply_effects].
  destruct (applyEffect effectId (e, b)) as [[r|ex] [e1 b1]] eqn:Hstep.
  - rewrite (bind_returned _ _ _ _ _ Hstep). intros Hrest.
    apply applyEffect_frame in Hstep as (Hc1 & Hh1 & Hs1 & Hd1).
    apply IH in Hrest as (Hc2 & Hh2 & Hs2 & Hd2).
    split_and!; [by eapply same_catalog_trans|congruence
                 |by eapply same_storage_trans|congruence].
  - rewrite (bind_thrown _ _ _ _ _ Hstep). intros [= <- <- <-].
    by apply applyEffect_frame in Hstep.
Qed.

Lemma saveState_frame e b out e' b' :
  saveState (e, b) = (out, (e', b')) →
  e' = e ∧ quota_ok b' = quota_ok b ∧ dateNow b' = dateNow b
  ∧ ticks b' = ticks b.
Proof.
  unfold saveState. run.
  destruct (activeFlags (playerState e)); run; [|by intros [= <- <- <-]].
  destruct (arcFlags (playerState e)); run; [|by intros [= <- <- <-]].
  destruct (quota_ok b) eqn:Hq; run; by intros [= <- <- <-].
Qed.

Lemma getState_frame s out s' : getState s = (out, s') → s' = s.
Proof.
  destruct s as [e b]. unfold getState. run.
  destruct (activeFlags (playerState e)); run; [|by intros [= <- <-]].
  destruct (memories (playerState e)); run; [|by intros [= <- <-]].
  destruct (arcFlags (playerState e)); run; by intros [= <- <-].
Qed.

(** Whatever its outcome, [makeChoice] with a known decision and option
    leaves the catalog as it is and pushes one entry to the history. *)
Lemma makeChoice_history e b decisionId optionId option out e' b' :
  chosen_option e decisionId optionId = Some option →
  makeChoice decisionId optionId (e, b) = (out, (e', b')) →
  same_catalog e e'
  ∧ history e' = history e ++ [choice_entry e b decisionId optionId].
Proof.
  unfold chosen_option, makeChoice, choice_entry. intros Hsome. run.
  destruct (JsMap.get (decisionMap e) decisionId) as [decision|]; run;
    [|done].
  rewrite Hsome. run.
  set (e0 := set_history e _).
  destruct (apply_effects _ _ (e0, tick b)) as [[l|ex] [e1 b1]] eqn:Hrun.
  2: { intros [= <- <- <-]. by apply apply_effects_frame in Hrun as (?&?&_). }
  apply apply_effects_frame in Hrun as (Hc1 & Hh1 & _).
  destruct (saveState (e1, b1)) as [[[]|ex] [e2 b2]] eqn:Hsave.
  2: { intros [= <- <- <-]. apply saveState_frame in Hsave as (-> & _).
       done. }
  apply saveState_frame in Hsave as (-> & _).
  destruct (getState (e1, b2)) as [[view|ex] s3] eqn:Hview;
    apply getState_frame in Hview as ->; by intros [= <- <- <-].
Qed.

Lemma getLastChoice_run e b decisionId :
  getLastChoice decisionId (e, b)
  = (Returned (last (List.filter
                 (λ h, bool_decide (hist_decisionId h = decisionId))
                 (history e))), (e, b)).
Proof.
  unfold getLastChoice. run.
  generalize (List.filter (λ h, bool_decide (hist_decisionId h = decisionId))
                          (history e)).
  intros l. do 2 f_equal.
  destruct l as [|x l] using rev_ind; [done|].
  rewrite length_app, last_snoc. simpl.
  replace (length l + 1)%nat with (S (length l)) by lia.
  replace (S (length l) - 1)%nat with (length l) by lia.
  by rewrite list_lookup_middle.
Qed.

(** X8.  [makeChoice] with a known decision and option pushes one entry to
    the history, with the two ids, the time of the call and the tape of
    the decision, whatever happens afterwards: even when applying an
    effect then throws.  [wasChoiceMade] then answers [true] for the two
    ids and [getLastChoice] returns that entry. *)
Theorem makeChoice_records_the_choice e b decisionId optionId option out e' b' :
  chosen_option e decisionId optionId = Some option →
  makeChoice decisionId optionId (e, b) = (out, (e', b')) →
  history e' = history e ++ [choice_entry e b decisionId optionId]
  ∧ wasChoiceMade decisionId optionId (e', b') = (Returned true, (e', b'))
  ∧ getLastChoice decisionId (e', b')
    = (Returned (Some (choice_entry e b decisionId optionId)), (e', b')).
Proof.
  intros Hsome Hrun.
  destruct (makeChoice_history _ _ _ _ _ _ _ _ Hsome Hrun) as [_ Hhist].
  split_and!; [done| |].
  - unfold wasChoiceMade. run. rewrite Hhist, existsb_app. simpl.
    by rewrite !bool_decide_eq_true_2, orb_true_r.
  - rewrite getLastChoice_run, Hhist, List.filter_app. simpl.
    rewrite bool_decide_eq_true_2 by done. by rewrite last_snoc.
Qed.

Lemma makeChoice_records_the_choice_witness :
  ∃ e' b',
    history e'
    = [{| hist_decisionId := "d1"; hist_optionId := "optA";
          hist_timestamp := 1000; hist_tape := Some "tape1" |}]
    ∧ wasChoiceMade "d1" "optA" (e', b') = (Returned true, (e', b')).
Proof.
  destruct (makeChoice "d1" "optA" (play_engine, empty_browser))
    as [out [e' b']] eqn:Hrun.
  exists e', b'.
  destruct (makeChoice_records_the_choice play_engine empty_browser
              "d1" "optA" (mk_option "optA" ["flag_seen"; "stat_trust_+5"])
              out e' b' eq_refl Hrun) as (Hhist & Hwas & _).
  split; [|exact Hwas]. rewrite Hhist. reflexivity.
Defined.

(** ** What [makeChoice] does to the player state *)












(** A catalog can be checked for stat effects that name a collection. *)
Lemma stats_name_no_collection_check e :
  forallb (λ kv, negb (type_is (Some kv.2) "stat")
                 || negb (bool_decide
                            (key_of (eff_stat kv.2) ∈ collectionNames)))
          (effectMap e) = true →
  stats_name_no_collection e.
Proof.
  intros Hall id effect Hget%JsMap_get_Some_elem Hty.
  rewrite forallb_forall in Hall.
  apply list_elem_of_In, Hall in Hget. simpl in Hget.
  unfold type_is in Hget. simpl in Hget.
  rewrite (bool_decide_eq_true_2 _ Hty) in Hget. simpl in Hget.
  by apply negb_true_iff, bool_decide_eq_false in Hget.
Qed.





(** ** Persistence: [#saveState], [#restoreState], [load] *)


(** What [load] leaves of the player state and the history: the stored
    document restored over a new game. *)
Lemma loaded_state data b :
  playerState (loaded data b) =
    match stored b with
    | Some (Json doc) => restore_playerState doc initialPlayerState
    | _ => initialPlayerState
    end
  ∧ history (loaded data b) =
    match stored b with
    | Some (Json doc) => default [] (doc_history doc)
    | _ => []
    end.
Proof.
  unfold loaded, load, restoreState. run.
  destruct (stored b) as [[doc|]|]; run; done.
Qed.



(** X12.  [load] with nothing stored, or with a stored item that is no
    JSON text, does not throw: it indexes the dataset and leaves the state
    of a new game, all stats 0, no flag, no memory, no arc and an empty
    history. *)
Theorem load_starts_a_new_game_without_a_saved_document data e b :
  stored b = None ∨ stored b = Some NotJson →
  load data (e, b) = (Returned (), (index_dataset data e, b))
  ∧ playerState (loaded data b) = initialPlayerState
  ∧ history (loaded data b) = []
  ∧ getState (loaded data b, b) = (Returned new_game_view, (loaded data b, b)).
Proof.
  intros Hstored.
  assert (Hload : load data (e, b) = (Returned (), (index_dataset data e, b))).
  { unfold load, restoreState. run. by destruct Hstored as [->| ->]. }
  destruct (loaded_state data b) as [Hps Hhist].
  assert (Hps' : playerState (loaded data b) = initialPlayerState)
    by (rewrite Hps; by destruct Hstored as [->| ->]).
  assert (Hhist' : history (loaded data b) = [])
    by (rewrite Hhist; by destruct Hstored as [->| ->]).
  split_and!; [done..|].
  erewrite getState_live; [|by rewrite Hps'..]. by rewrite Hps', Hhist'.
Qed.

Lemma load_starts_a_new_game_without_a_saved_document_witness :
  getState (loaded play_data empty_browser, empty_browser)
  = (Returned new_game_view, (loaded play_data empty_browser, empty_browser)).
Proof.
  apply (load_starts_a_new_game_without_a_saved_document
           play_data newEngine empty_browser).
  by left.
Defined.

(** ** [resetState] *)

Lemma getDecisionsForTape_loop_run tapeId e b entries : ∀ results,
  getDecisionsForTape_loop tapeId entries results (e, b)
  = (Returned (results ++ decision_views tapeId (history e) entries), (e, b)).
Proof.
  induction entries as [|[id decision] rest IH]; intros results.
  { unfold decision_views. simpl. by rewrite app_nil_r. }
  cbn [getDecisionsForTape_loop]. unfold decision_views. cbn [flat_map].
  destruct (tape_equals _ _).
  - rewrite (bind_returned _ _ _ _ _ (getLastChoice_run e b id)).
    rewrite IH. by rewrite <- app_assoc.
  - apply IH.
Qed.

Lemma getDecisionsForTape_run tapeId e b :
  getDecisionsForTape tapeId (e, b)
  = (Returned (decision_views tapeId (history e) (decisionMap e)), (e, b)).
Proof.
  unfold getDecisionsForTape. run. apply getDecisionsForTape_loop_run.
Qed.

Lemma getPendingDecisions_run tapeId e b :
  getPendingDecisions tapeId (e, b)
  = (Returned (List.filter is_pending
                 (decision_views tapeId (history e) (decisionMap e))), (e, b)).
Proof.
  unfold getPendingDecisions.
  by rewrite (bind_returned _ _ _ _ _ (getDecisionsForTape_run tapeId e b)).
Qed.

Lemma last_choice_snoc h entry decisionId :
  last_choice (h ++ [entry]) decisionId =
  if decide (hist_decisionId entry = decisionId) then Some entry
  else last_choice h decisionId.
Proof.
  unfold last_choice. rewrite List.filter_app. simpl.
  case_decide.
  - rewrite bool_decide_eq_true_2 by done. apply last_snoc.
  - rewrite bool_decide_eq_false_2 by done. by rewrite app_nil_r.
Qed.

Lemma or_null_Some s : s ≠ "" → or_null (Some s) = Some s.
Proof. intros Hs. unfold or_null. by rewrite decide_False. Qed.

(** Pushing a choice of decision [d] with a non-empty option id removes
    [d] from the pending decisions and leaves the others. *)
Lemma pending_after_choice tapeId h entry entries :
  hist_optionId entry ≠ "" →
  List.filter is_pending (decision_views tapeId (h ++ [entry]) entries)
  = List.filter (λ v, negb (bool_decide (dv_id v = hist_decisionId entry)))
      (List.filter is_pending (decision_views tapeId h entries)).
Proof.
  intros Hopt. unfold decision_views.
  induction entries as [|[id decision] rest IH]; [done|].
  cbn [flat_map]. rewrite !List.filter_app, IH. f_equal.
  destruct (tape_equals _ _); [|done].
  rewrite last_choice_snoc. cbn [List.filter].
  destruct (decide (hist_decisionId entry = id)) as [Heq|Hne].
  - cbn [fmap option_fmap option_map].
    rewrite or_null_Some by done. unfold is_pending at 1. cbn [dv_chosen].
    rewrite bool_decide_eq_false_2 by done.
    destruct (is_pending _); [|done]. cbn [List.filter dv_id].
    by rewrite bool_decide_eq_true_2.
  - destruct (is_pending _); [|done]. cbn [List.filter dv_id].
    rewrite bool_decide_eq_false_2 by done. done.
Qed.

(** X13.  After [makeChoice] with a known decision and a known option whose
    id is not empty, whatever its outcome, the pending decisions of every
    tape are those from before without the chosen decision. *)
Theorem makeChoice_settles_the_decision
    e b decisionId optionId option out e' b' tapeId :
  chosen_option e decisionId optionId = Some option →
  optionId ≠ "" →
  makeChoice decisionId optionId (e, b) = (out, (e', b')) →
  ∃ pending,
    getPendingDecisions tapeId (e, b) = (Returned pending, (e, b))
    ∧ getPendingDecisions tapeId (e', b')
      = (Returned
           (List.filter (λ v, negb (bool_decide (dv_id v = decisionId)))
                        pending),
         (e', b')).
Proof.
  intros Hsome Hopt Hrun.
  destruct (makeChoice_history _ _ _ _ _ _ _ _ Hsome Hrun)
    as [(Hdec & _) Hhist].
  eexists. split; [apply getPendingDecisions_run|].
  rewrite getPendingDecisions_run, Hhist, Hdec.
  by rewrite pending_after_choice.
Qed.

Lemma makeChoice_settles_the_decision_witness :
  ∃ e' b',
    getPendingDecisions (TapeName "tape1") (play_engine, empty_browser)
    = (Returned [{| dv_id := "d1";
                    dv_decision :=
                      mk_decision "tape1"
                        [mk_option "optA" ["flag_seen"; "stat_trust_+5"];
                         mk_option "optB"
                           ["mem_first"; "e_missing"; "arc_open"]];
                    dv_chosen := None |}],
       (play_engine, empty_browser))
    ∧ getPendingDecisions (TapeName "tape1") (e', b')
      = (Returned [], (e', b')).
Proof.
  destruct (makeChoice "d1" "optA" (play_engine, empty_browser))
    as [out [e' b']] eqn:Hrun.
  exists e', b'.
  assert (Hopt : "optA" ≠ "") by done.
  destruct (makeChoice_settles_the_decision play_engine empty_browser
              "d1" "optA" (mk_option "optA" ["flag_seen"; "stat_trust_+5"])
              out e' b' (TapeName "tape1") eq_refl Hopt Hrun)
    as (pending & Hbefore & Hafter).
  assert (Hpending : pending = [{| dv_id := "d1";
                    dv_decision :=
                      mk_decision "tape1"
                        [mk_option "optA" ["flag_seen"; "stat_trust_+5"];
                         mk_option "optB"
                           ["mem_first"; "e_missing"; "arc_open"]];
                    dv_chosen := None |}]).
  { assert (Hrun0 : getPendingDecisions (TapeName "tape1")
                      (play_engine, empty_browser)
                    = (Returned [{| dv_id := "d1";
                    dv_decision :=
                      mk_decision "tape1"
                        [mk_option "optA" ["flag_seen"; "stat_trust_+5"];
                         mk_option "optB"
                           ["mem_first"; "e_missing"; "arc_open"]];
                    dv_chosen := None |}], (play_engine, empty_browser)))
      by evaluate.
    rewrite Hrun0 in Hbefore. by injection Hbefore as <-. }
  subst pending. split; [exact Hbefore|exact Hafter].
Defined.


(** ** [importState]: error behaviour *)

Lemma restoreState_returns s :
  ∃ e', restoreState s = (Returned (), (e', s.2)) ∧ same_catalog s.1 e'.
Proof.
  destruct s as [e b]. unfold restoreState. run.
  destruct (stored b) as [[doc|]|]; run; eexists; by repeat split.
Qed.

(** X15.  [importState] never throws.  It returns [true] exactly when
    [JSON.parse] accepts the text and the storage accepts the write, and
    then the stored item is what [JSON.stringify] makes of the parsed
    document, a new serialisation and in general not the text that was
    given; when it returns [false] neither the engine nor the storage has
    changed.  The catalog is never touched. *)
Theorem importState_reports_failure_without_writing text e b :
  ∃ ok e' b',
    importState text (e, b) = (Returned ok, (e', b'))
    ∧ (ok = true ↔ text ≠ NotJson ∧ quota_ok b = true)
    ∧ (ok = false → e' = e ∧ b' = b)
    ∧ (ok = true →
       ∃ state,
         JSON_parse text (e, b) = (Returned state, (e, b))
         ∧ stored b' = Some (JSON_stringify state))
    ∧ same_catalog e e'.
Proof.
  unfold importState, restoreState. run.
  destruct text as [doc|]; run.
  - destruct (quota_ok b) eqn:Hq; run.
    + eexists _, _, _. split; [done|].
      split_and!; [naive_solver|done|by exists doc|by repeat split].
    + eexists _, _, _. split; [done|].
      split_and!; [naive_solver|done|done|by repeat split].
  - eexists _, _, _. split; [done|].
    split_and!; [naive_solver|done|done|by repeat split].
Qed.

(** ** The stats stay within their bounds *)

(** X16.  Started from a valid player state, with a catalog whose stat
    effects name no collection, every sequence of [makeChoice] (whatever
    the outcomes), [resetState] and [importState] of exported snapshots
    leaves each of the four stats a number between 0 and 100, as
    [getStat] returns it. *)
Theorem stats_stay_within_bounds e0 e b s :
  stats_name_no_collection e0 →
  valid_state (playerState e0) →
  reachable e0 e →
  s ∈ statNames →
  ∃ v, getStat s (e, b) = (Returned (VNumber v), (e, b)) ∧ (0 ≤ v ≤ 100)%Z.
Proof.
  intros Hok Hvalid Hreach Hs.
  destruct (reachable_valid_state e0 e Hok Hvalid Hreach) as [[_ Hrange] _].
  destruct (Hrange s Hs) as (v & Hv & Hbounds).
  exists v. split; [|done]. apply getStat_stat; [|done].
  apply statNames_not_collection in Hs as (H1 & H2 & H3 & _).
  unfold collectionNames. rewrite !not_elem_of_cons.
  split_and!; try done. apply not_elem_of_nil.
Qed.

Lemma stats_stay_within_bounds_witness :
  ∃ v, getStat "trust" (played_engine, empty_browser)
       = (Returned (VNumber v), (played_engine, empty_browser))
       ∧ (0 ≤ v ≤ 100)%Z.
Proof.
  assert (Hok : stats_name_no_collection play_engine)
    by (apply stats_name_no_collection_check; evaluate).
  assert (Hvalid : valid_state (playerState play_engine))
    by apply initialPlayerState_valid.
  assert (Hreach : reachable play_engine played_engine).
  { apply (reachable_makeChoice play_engine play_engine empty_browser
             "d1" "optA"). apply reachable_start. }
  assert (Hin : "trust" ∈ statNames) by left.
  apply (stats_stay_within_bounds play_engine played_engine empty_browser
           "trust" Hok Hvalid Hreach Hin).
Defined.

(** ** [hasAnyFlag], [hasAllFlags], [hasMemory] *)

Lemma hasMemory_live e b mems memoryId :
  memories (playerState e) = Live mems →
  hasMemory memoryId (e, b)
  = (Returned (bool_decide (memoryId ∈ mem_id <$> mems)), (e, b)).
Proof.
  intros Hm. unfold hasMemory. run. rewrite Hm. run. do 2 f_equal.
  apply eq_true_iff_eq.
  rewrite existsb_exists, bool_decide_eq_true, list_elem_of_fmap. split.
  - intros (m & Hin & Heq%bool_decide_eq_true). exists m.
    by rewrite list_elem_of_In.
  - intros (m & -> & Hin). exists m. rewrite <- list_elem_of_In.
    by rewrite bool_decide_eq_true.
Qed.

Lemma isActive_live e b flags mems id :
  activeFlags (playerState e) = Live flags →
  memories (playerState e) = Live mems →
  isActive id (e, b)
  = (Returned (bool_decide (id ∈ flags ∨ id ∈ mem_id <$> mems)), (e, b)).
Proof.
  intros Hf Hm. unfold isActive.
  rewrite (bind_returned _ _ _ _ _ (hasFlag_live e b flags id Hf)).
  unfold JsSet.has. case_bool_decide as Hin.
  - by rewrite bool_decide_eq_true_2 by auto.
  - rewrite (hasMemory_live e b mems id Hm). do 2 f_equal.
    repeat case_bool_decide; naive_solver.
Qed.

Lemma every_M_pure {A} (f : A → M bool) (p : A → bool) s arr :
  (∀ x, f x s = (Returned (p x), s)) →
  every_M f arr s = (Returned (forallb p arr), s).
Proof.
  intros Hf. induction arr as [|x rest IH]; [done|].
  cbn [every_M forallb]. rewrite (bind_returned _ _ _ _ _ (Hf x)).
  by destruct (p x).
Qed.

Lemma some_M_pure {A} (f : A → M bool) (p : A → bool) s arr :
  (∀ x, f x s = (Returned (p x), s)) →
  some_M f arr s = (Returned (existsb p arr), s).
Proof.
  intros Hf. induction arr as [|x rest IH]; [done|].
  cbn [some_M existsb]. rewrite (bind_returned _ _ _ _ _ (Hf x)).
  by destruct (p x).
Qed.

(** X17.  With a live flag set, [hasAnyFlag] answers whether some of the
    given ids is an active flag and [hasAllFlags] whether all of them are.
    Called with no id they answer [false] and [true] without reading the
    flag set; with at least one id and a flag set that a stat effect has
    overwritten, both throw a [TypeError]. *)
Theorem hasAnyFlag_and_hasAllFlags e b flagIds :
  (∀ flags, activeFlags (playerState e) = Live flags →
     hasAnyFlag flagIds (e, b)
     = (Returned (bool_decide (Exists (λ f, f ∈ flags) flagIds)), (e, b))
     ∧ hasAllFlags flagIds (e, b)
       = (Returned (bool_decide (Forall (λ f, f ∈ flags) flagIds)), (e, b)))
  ∧ hasAnyFlag [] (e, b) = (Returned false, (e, b))
  ∧ hasAllFlags [] (e, b) = (Returned true, (e, b))
  ∧ (∀ n f, activeFlags (playerState e) = Overwritten n →
       hasAnyFlag (f :: flagIds) (e, b) = (Thrown TypeError, (e, b))
       ∧ hasAllFlags (f :: flagIds) (e, b) = (Thrown TypeError, (e, b))).
Proof.
  split_and!; [|done..|].
  - intros flags Hf.
    assert (Hone : ∀ f,
      (ps ← get_playerState;
       flags ← collection (activeFlags ps);
       mret (JsSet.has flags f)) (e, b)
      = (Returned (JsSet.has flags f), (e, b))).
    { intros f. run. rewrite Hf. by run. }
    unfold hasAnyFlag, hasAllFlags.
    rewrite (some_M_pure _ _ _ _ Hone), (every_M_pure _ _ _ _ Hone). split.
    + do 2 f_equal. apply eq_true_iff_eq.
      rewrite existsb_exists, bool_decide_eq_true, Exists_exists.
      setoid_rewrite JsSet_has_true. setoid_rewrite <- list_elem_of_In. done.
    + do 2 f_equal. apply eq_true_iff_eq.
      rewrite forallb_forall, bool_decide_eq_true, Forall_forall.
      setoid_rewrite JsSet_has_true. setoid_rewrite <- list_elem_of_In. done.
  - intros n f Hf. unfold hasAnyFlag, hasAllFlags. run. rewrite Hf. by run.
Qed.

(** ** [getVariant] and [getCallbackText] *)

Lemma getVariant_loop_find e b flags mems variants :
  activeFlags (playerState e) = Live flags →
  memories (playerState e) = Live mems →
  getVariant_loop variants (e, b)
  = (Returned (List.find (requirements_hold flags mems) variants), (e, b)).
Proof.
  intros Hf Hm. induction variants as [|v rest IH]; [done|].
  cbn [getVariant_loop List.find]. unfold requirements_hold at 1.
  rewrite (bind_returned _ _ _ _ _
             (every_M_pure isActive _ (e, b) (or_empty (var_requires v))
                (λ id, isActive_live e b flags mems id Hf Hm))).
  by destruct (forallb _ _).
Qed.

(** X18.  With live flags and memories, [getVariant] returns the first
    variant all of whose required ids are active flags or ids of stored
    memories, a variant without requirements or with an empty list always
    qualifying; when no variant qualifies it returns the first variant of
    the array, and [undefined] for an empty array.  A variant without
    [requires] always qualifies in the loop, so the final search for one
    never decides the result. *)
Theorem getVariant_first_match_or_first_variant e b flags mems variants :
  activeFlags (playerState e) = Live flags →
  memories (playerState e) = Live mems →
  getVariant variants (e, b)
  = (Returned (match List.find (requirements_hold flags mems) variants with
               | Some v => Some v
               | None => head variants
               end), (e, b))
  ∧ (∀ v, v ∈ variants → var_requires v = None →
          is_Some (List.find (requirements_hold flags mems) variants)).
Proof.
  intros Hf Hm.
  assert (Hfree : ∀ v, v ∈ variants → var_requires v = None →
            is_Some (List.find (requirements_hold flags mems) variants)).
  { intros v Hin Hreq.
    destruct (List.find _ variants) as [w|] eqn:Hfind; [by eexists|].
    apply list_elem_of_In in Hin.
    pose proof (find_none _ _ Hfind v Hin) as Hno.
    unfold requirements_hold in Hno. by rewrite Hreq in Hno. }
  split; [|done]. unfold getVariant.
  rewrite (bind_returned _ _ _ _ _ (getVariant_loop_find e b flags mems
                                      variants Hf Hm)).
  destruct (List.find (requirements_hold flags mems) variants) as [v|] eqn:Hfind;
    [done|].
  run. do 2 f_equal.
  destruct (List.find (λ v, negb (bool_decide (is_Some (var_requires v))))
                      variants) as [w|] eqn:Hfree'.
  - apply find_some in Hfree' as [Hin Hreq].
    apply negb_true_iff, bool_decide_eq_false in Hreq.
    destruct (Hfree w) as [? [=]]; [by apply list_elem_of_In|].
    destruct (var_requires w); [|done]. destruct Hreq. by eexists.
  - by destruct variants.
Qed.

Lemma getVariant_first_match_or_first_variant_witness :
  getVariant [{| var_requires := Some ["flag_seen"]; var_text := "seen" |};
              {| var_requires := Some []; var_text := "plain" |}]
             (play_engine, empty_browser)
  = (Returned (Some {| var_requires := Some []; var_text := "plain" |}),
     (play_engine, empty_browser)).
Proof.
  apply (getVariant_first_match_or_first_variant play_engine empty_browser
           [] []
           [{| var_requires := Some ["flag_seen"]; var_text := "seen" |};
            {| var_requires := Some []; var_text := "plain" |}]
           eq_refl eq_refl).
Defined.

(** ** [getEffectsForTape] *)

Lemma loaded_consumerMap_pairs ds b :
  consumerMap (loaded ds b)
  = foldl (λ m p, push_to m p.1 p.2) JsMap.empty (consumer_pairs ds).
Proof.
  unfold loaded, load. run.
  destruct (restoreState_maps (index_dataset ds newEngine, b))
    as (_ & _ & -> & _). cbn.
  unfold consumer_pairs. rewrite foldl_flat_map. apply foldl_ext_in.
  intros m [consumerId consumer] _. by rewrite foldl_fmap.
Qed.

Lemma consumer_pairs_elem ds E c :
  (E, c) ∈ consumer_pairs ds ↔
  c ∈ consumers ds ∧ E ∈ or_empty (con_checks c.2).
Proof.
  unfold consumer_pairs. rewrite elem_of_flat_map. split.
  - intros ([id consumer] & Hin & (e & [= -> ->] & He)%list_elem_of_fmap).
    done.
  - intros [Hin He]. exists c. split; [done|]. destruct c as [id consumer].
    apply list_elem_of_fmap. by exists E.
Qed.

(** The entry of the consumer index for [E]: the consumers that check
    [E], once per listing; no entry when none does. *)
Lemma loaded_consumerMap_elem ds b E cs :
  (E, cs) ∈ consumerMap (loaded ds b) ↔
  cs = pushed E (consumer_pairs ds) ∧ cs ≠ [].
Proof.
  rewrite loaded_consumerMap_pairs.
  assert (Hnd : NoDup (foldl (λ m p, push_to m p.1 p.2) JsMap.empty
                         (consumer_pairs ds)).*1)
    by (apply foldl_push_to_NoDup; constructor).
  assert (Hget : JsMap.get (foldl (λ m p, push_to m p.1 p.2) JsMap.empty
                              (consumer_pairs ds)) E
                 = extend None (pushed E (consumer_pairs ds)))
    by by rewrite foldl_push_to_get.
  split.
  - intros Hin. apply (JsMap_get_elem _ _ _ Hnd) in Hin.
    rewrite Hget in Hin. destruct (pushed E (consumer_pairs ds)); [done|].
    by injection Hin as <-.
  - intros [-> Hne]. apply JsMap_get_Some_elem. rewrite Hget.
    by destruct (pushed E (consumer_pairs ds)).
Qed.

Lemma getEffectsForTape_loop_run tapeId e b flags mems entries : ∀ results,
  activeFlags (playerState e) = Live flags →
  memories (playerState e) = Live mems →
  getEffectsForTape_loop tapeId entries results (e, b)
  = (Returned (results ++ tape_effects tapeId flags mems entries), (e, b)).
Proof.
  intros results Hf Hm. revert results.
  induction entries as [|[E cs] rest IH]; intros results.
  { unfold tape_effects. simpl. by rewrite app_nil_r. }
  cbn [getEffectsForTape_loop]. unfold tape_effects. cbn [flat_map].
  cbv zeta. destruct (0 <? _)%nat.
  - rewrite (bind_returned _ _ _ _ _ (isActive_live e b flags mems E Hf Hm)).
    rewrite IH. by rewrite <- app_assoc.
  - apply IH.
Qed.

Lemma tape_effects_elem tapeId flags mems entries x :
  x ∈ tape_effects tapeId flags mems entries ↔
  ∃ cs, (te_effectId x, cs) ∈ entries
    ∧ te_consumers x
      = List.filter (λ c, tape_equals (con_tape c.2) tapeId) cs
    ∧ te_consumers x ≠ []
    ∧ te_isActive x
      = bool_decide (te_effectId x ∈ flags ∨ te_effectId x ∈ mem_id <$> mems).
Proof.
  unfold tape_effects. rewrite elem_of_flat_map. split.
  - intros ([E cs] & Hin & Hx). cbv zeta in Hx.
    destruct (0 <? _)%nat eqn:Hlen; [|by apply elem_of_nil in Hx].
    apply list_elem_of_singleton in Hx as ->. exists cs. simpl.
    split_and!; [done..| |done]. apply Nat.ltb_lt in Hlen.
    intros Hnil. rewrite Hnil in Hlen. simpl in Hlen. lia.
  - intros (cs & Hin & Hcs & Hne & Hact). exists (te_effectId x, cs).
    split; [done|]. cbv zeta. rewrite <- Hcs.
    destruct (te_consumers x) eqn:Hc; [done|]. simpl.
    destruct x; simpl in *. subst. left.
Qed.

Lemma tape_effects_ids_sublist tapeId flags mems entries :
  te_effectId <$> tape_effects tapeId flags mems entries
  `sublist_of` entries.*1.
Proof.
  unfold tape_effects. induction entries as [|[E cs] rest IH]; csimpl;
    [done|].
  cbv zeta. destruct (0 <? _)%nat; csimpl.
  - by apply sublist_skip.
  - by apply sublist_cons.
Qed.

(** X19.  On an engine with the consumer index of a loaded dataset and live
    flags and memories, [getEffectsForTape] returns one entry per effect
    id that some consumer of the given tape checks, none twice; the entry
    lists exactly the consumers of that tape that check the effect, and
    [isActive] tells whether the id is an active flag or the id of a
    stored memory. *)
Theorem getEffectsForTape_lists_the_effects_checked_in_the_tape
    ds b0 e b tapeId flags mems :
  consumerMap e = consumerMap (loaded ds b0) →
  activeFlags (playerState e) = Live flags →
  memories (playerState e) = Live mems →
  ∃ l,
    getEffectsForTape tapeId (e, b) = (Returned l, (e, b))
    ∧ NoDup (te_effectId <$> l)
    ∧ (∀ E, E ∈ te_effectId <$> l ↔
         ∃ c, c ∈ consumers ds
              ∧ tape_equals (con_tape c.2) tapeId = true
              ∧ E ∈ or_empty (con_checks c.2))
    ∧ (∀ x, x ∈ l →
         te_isActive x
         = bool_decide (te_effectId x ∈ flags
                        ∨ te_effectId x ∈ mem_id <$> mems)
         ∧ ∀ c, c ∈ te_consumers x ↔
                c ∈ consumers ds
                ∧ tape_equals (con_tape c.2) tapeId = true
                ∧ te_effectId x ∈ or_empty (con_checks c.2)).
Proof.
  intros Hmap Hf Hm. eexists. split.
  { unfold getEffectsForTape. run.
    by rewrite (getEffectsForTape_loop_run tapeId e b flags mems _ [] Hf Hm). }
  cbn [app]. rewrite Hmap.
  assert (Hcons : ∀ x, x ∈ tape_effects tapeId flags mems
                              (consumerMap (loaded ds b0)) →
    ∀ c, c ∈ te_consumers x ↔
         c ∈ consumers ds ∧ tape_equals (con_tape c.2) tapeId = true
         ∧ te_effectId x ∈ or_empty (con_checks c.2)).
  { intros x (cs & Hin & Hcs & _ & _)%tape_effects_elem c.
    apply loaded_consumerMap_elem in Hin as [-> _].
    rewrite Hcs, list_elem_of_In, filter_In, <- list_elem_of_In.
    rewrite pushed_elem, consumer_pairs_elem. tauto. }
  split_and!.
  - eapply sublist_NoDup; [|apply tape_effects_ids_sublist].
    rewrite loaded_consumerMap_pairs. apply foldl_push_to_NoDup. constructor.
  - intros E. rewrite list_elem_of_fmap. split.
    + intros (x & -> & Hx). pose proof (Hcons x Hx) as Hc.
      apply tape_effects_elem in Hx as (cs & _ & _ & Hne & _).
      destruct (te_consumers x) as [|c l] eqn:Hl; [done|].
      exists c. apply Hc. left.
    + intros (c & Hin & Htape & HE).
      set (cs := pushed E (consumer_pairs ds)).
      assert (Hc : c ∈ cs) by by apply pushed_elem, consumer_pairs_elem.
      set (x := {| te_effectId := E;
                   te_isActive := bool_decide (E ∈ flags ∨ E ∈ mem_id <$> mems);
                   te_consumers :=
                     List.filter (λ c, tape_equals (con_tape c.2) tapeId) cs |}).
      exists x. split; [done|]. apply tape_effects_elem. exists cs.
      split_and!; [|done| |done].
      * apply loaded_consumerMap_elem. split; [done|].
        intros Hnil. rewrite Hnil in Hc. by apply elem_of_nil in Hc.
      * simpl. intros Hnil.
        assert (Hin' : c ∈ List.filter
                         (λ c, tape_equals (con_tape c.2) tapeId) cs)
          by by apply list_elem_of_In, filter_In; rewrite <- list_elem_of_In.
        rewrite Hnil in Hin'. by apply elem_of_nil in Hin'.
  - intros x Hx. split; [|by apply Hcons].
    by apply tape_effects_elem in Hx as (cs & _ & _ & _ & Hact).
Qed.

Lemma getEffectsForTape_lists_the_effects_checked_in_the_tape_witness :
  ∃ l,
    getEffectsForTape (TapeName "tape1") (play_engine, empty_browser)
      = (Returned l, (play_engine, empty_browser))
    ∧ te_effectId <$> l = ["flag_seen"; "mem_first"].
Proof.
  destruct (getEffectsForTape_lists_the_effects_checked_in_the_tape
              play_data empty_browser play_engine empty_browser
              (TapeName "tape1") [] [] eq_refl eq_refl eq_refl)
    as (l & Hrun & _).
  exists l. split; [exact Hrun|].
  assert (Hrun' : ∃ l', getEffectsForTape (TapeName "tape1")
                          (play_engine, empty_browser)
                        = (Returned l', (play_engine, empty_browser))
                        ∧ te_effectId <$> l' = ["flag_seen"; "mem_first"]).
  { eexists. split; evaluate. }
  destruct Hrun' as (l' & Hrun' & Hids).
  rewrite Hrun in Hrun'. by injection Hrun' as ->.
Defined.

(** ** [load]: the indices *)

Lemma foldl_set_get {V} (pairs : list (string * V)) m k :
  JsMap.get (foldl (λ m p, JsMap.set m p.1 p.2) m pairs) k =
  match last (pushed k pairs) with
  | Some v => Some v
  | None => JsMap.get m k
  end.
Proof.
  revert m. induction pairs as [|[k0 v0] pairs IH]; intros m; [done|].
  simpl. rewrite IH, JsMap_get_set. unfold pushed.
  rewrite filter_cons. simpl. case_decide as Hk; [subst k0|done].
  csimpl. rewrite last_cons. by destruct (last _).
Qed.

Lemma pushed_fmap {V W} (f : V → W) k (pairs : list (string * V)) :
  pushed k ((λ p, (p.1, f p.2)) <$> pairs) = f <$> pushed k pairs.
Proof.
  unfold pushed. induction pairs as [|[k0 v0] pairs IH]; [done|].
  csimpl. rewrite !filter_cons. simpl. case_decide; csimpl; by rewrite IH.
Qed.

Lemma consumed_pairs_consumer_pairs ds :
  consumed_pairs ds = (λ p, (p.1, p.2.1)) <$> consumer_pairs ds.
Proof.
  unfold consumed_pairs, consumer_pairs.
  induction (consumers ds) as [|[c consumer] l IH]; [done|].
  simpl. rewrite fmap_app, <- IH. f_equal.
  rewrite <- list_fmap_compose. done.
Qed.

Lemma loaded_decisionMap ds b :
  object_keys_distinct (decisions ds) → decisionMap (loaded ds b) = decisions ds.
Proof.
  intros Hkeys. unfold loaded, load. run.
  destruct (restoreState_maps (index_dataset ds newEngine, b))
    as (-> & _). cbn.
  by apply (foldl_set_fresh (decisions ds) []).
Qed.

Lemma loaded_producedBy ds b :
  object_keys_distinct (decisions ds) →
  producedBy (loaded ds b)
  = foldl (λ m p, JsMap.set m p.1 p.2) JsMap.empty (produced_pairs ds).
Proof.
  intros Hkeys. unfold loaded, load. run.
  destruct (restoreState_maps (index_dataset ds newEngine, b))
    as (_ & _ & _ & ->). cbn.
  change (foldl (λ m '(id, decision), JsMap.set m id decision) JsMap.empty
                (decisions ds))
    with (foldl (λ m '(id, decision), JsMap.set m id decision) []
                (decisions ds)).
  rewrite (foldl_set_fresh (decisions ds) []) by done. cbn [app].
  unfold produced_pairs. rewrite foldl_flat_map. apply foldl_ext_in.
  intros m [decId decision] _. rewrite foldl_fmap. unfold listings.
  rewrite foldl_flat_map. done.
Qed.

(** X20.  [load] on a new engine indexes a dataset whose decisions and
    effects have pairwise distinct keys: the decision and the
    effect maps hold the entries of the document in order; the reverse
    index [#producedBy] maps an effect to the last decision, in document
    order, with an option listing it, that is the last element of the
    producer list the validator builds (nothing when no option lists it);
    and the consumers the engine indexes under an effect are, by id and in
    order, those the validator indexes. *)
Theorem load_indexes_the_dataset ds b :
  object_keys_distinct (decisions ds) →
  object_keys_distinct (effects ds) →
  decisionMap (loaded ds b) = decisions ds
  ∧ effectMap (loaded ds b) = effects ds
  ∧ (∀ E, JsMap.get (producedBy (loaded ds b)) E
          = last (or_empty (JsMap.get (index_produced ds) E)))
  ∧ (∀ E, (or_empty (JsMap.get (consumerMap (loaded ds b)) E)).*1
          = or_empty (JsMap.get (index_consumed ds) E)).
Proof.
  intros Hdec Heff. split_and!.
  - by apply loaded_decisionMap.
  - by apply loaded_effectMap.
  - intros E. rewrite loaded_producedBy, foldl_set_get by done.
    rewrite producedEffects_get, extend_None_or_empty.
    by destruct (last _).
  - intros E. rewrite loaded_consumerMap_pairs, foldl_push_to_get.
    rewrite consumedEffects_get, !extend_None_or_empty.
    rewrite consumed_pairs_consumer_pairs.
    change (JsMap.get JsMap.empty E) with (@None (list (string * Consumer))).
    rewrite extend_None_or_empty. symmetry. apply (pushed_fmap fst).
Qed.

Lemma load_indexes_the_dataset_witness :
  JsMap.get (producedBy (loaded backward_two_listings empty_browser)) "e_foo"
  = last (or_empty (JsMap.get (index_produced backward_two_listings) "e_foo")).
Proof.
  assert (Hdec : object_keys_distinct (decisions backward_two_listings)).
  { apply (bool_decide_unpack _). by vm_compute. }
  assert (Heff : object_keys_distinct (effects backward_two_listings)).
  { apply (bool_decide_unpack _). by vm_compute. }
  apply (load_indexes_the_dataset backward_two_listings empty_browser
           Hdec Heff).
Defined.

(** * Properties of the relationship engine and of the game *)

#[local] Hint Unfold G_bind G_ret G_fmap throw_G engine_call unawaited
  get_game update_game get_relationship put_relationship modify_relationship
  when : run_M.

Lemma G_bind_returned {A B} (m : G A) (f : A → G B) g a g' :
  m g = (Returned a, g') → (m ≫= f) g = f a g'.
Proof. intros Hm. unfold mbind, G_bind. by rewrite Hm. Qed.

Lemma G_bind_thrown {A B} (m : G A) (f : A → G B) g ex g' :
  m g = (Thrown ex, g') → (m ≫= f) g = (Thrown ex, g').
Proof. intros Hm. unfold mbind, G_bind. by rewrite Hm. Qed.

Lemma set_decisions_same g : set_decisions g (game_engine g, game_browser g) = g.
Proof. by destruct g. Qed.

(** A query of the decision engine that writes nothing leaves the page. *)
Lemma engine_call_pure {A} (m : M A) g out :
  m (game_engine g, game_browser g) = (out, (game_engine g, game_browser g)) →
  engine_call m g = (out, g).
Proof.
  intros Hm. unfold engine_call. rewrite Hm. cbn.
  by rewrite set_decisions_same.
Qed.

(** [getStat('trust')] and [getStat('guard')] are numbers on every
    engine. *)
Lemma number_stat_returns e b s :
  s = "trust" ∨ s = "guard" →
  number_stat s (e, b)
  = (Returned (default 0%Z (stats (playerState e) !! s)), (e, b)).
Proof.
  intros Hs. unfold number_stat.
  assert (Hplain : (s ∉ collectionNames) ∧ inherited s = false).
  { unfold collectionNames. rewrite !not_elem_of_cons.
    destruct Hs as [-> | ->]; split_and!; try done; apply not_elem_of_nil. }
  destruct Hplain as [Hcol Hinh].
  destruct (stats (playerState e) !! s) as [v|] eqn:Hv.
  - by rewrite (bind_returned _ _ _ _ _ (getStat_stat e b s v Hcol Hv)).
  - by rewrite (bind_returned _ _ _ _ _ (getStat_unknown e b s Hcol Hv Hinh)).
Qed.

Lemma trust_call g :
  engine_call (number_stat "trust") g = (Returned (trust_of (game_engine g)), g).
Proof. apply engine_call_pure, number_stat_returns. by left. Qed.

Lemma guard_call g :
  engine_call (number_stat "guard") g = (Returned (guard_of (game_engine g)), g).
Proof. apply engine_call_pure, number_stat_returns. by right. Qed.

Lemma hasFlag_call g flags flagId :
  activeFlags (playerState (game_engine g)) = Live flags →
  engine_call (hasFlag flagId) g = (Returned (JsSet.has flags flagId), g).
Proof. intros Hf. by apply engine_call_pure, hasFlag_live. Qed.

Lemma same_but_relationship_refl g : same_but_relationship g g.
Proof. by repeat split. Qed.

Lemma same_but_relationship_trans g1 g2 g3 :
  same_but_relationship g1 g2 → same_but_relationship g2 g3 →
  same_but_relationship g1 g3.
Proof.
  intros (?&?&?&?&?) (?&?&?&?&?). repeat split; congruence.
Qed.

Lemma same_but_relationship_set g r :
  same_but_relationship g (set_relationship g r).
Proof. by repeat split. Qed.

(** [#updatePhase] returns and assigns the phase of the difference of
    trust and guard. *)
Lemma updatePhase_run g :
  RelationshipEngine.updatePhase g
  = (Returned (),
     set_relationship g
       (set_phase (game_relationship g)
          (phase_of_net (trust_of (game_engine g) - guard_of (game_engine g))))).
Proof.
  unfold RelationshipEngine.updatePhase.
  rewrite (G_bind_returned _ _ _ _ _ (trust_call g)).
  rewrite (G_bind_returned _ _ _ _ _ (guard_call g)).
  done.
Qed.

(** A statement of [#syncWithDecisions] that tests a flag and assigns to
    the relationship state. *)
Lemma flag_statement g flags flagId (yes no : G unit) :
  activeFlags (playerState (game_engine g)) = Live flags →
  (engine_call (hasFlag flagId) ≫= λ c : bool, if c then yes else no) g
  = if JsSet.has flags flagId then yes g else no g.
Proof.
  intros Hf. rewrite (G_bind_returned _ _ _ _ _ (hasFlag_call g flags _ Hf)).
  by destruct (JsSet.has flags flagId).
Qed.

Lemma modify_relationship_run f g :
  modify_relationship f g
  = (Returned (), set_relationship g (f (game_relationship g))).
Proof. done. Qed.

(** The statements of [#syncWithDecisions] before [#updatePhase] return
    and write the relationship state only. *)
Lemma statement_relationship_only g flags flagId f :
  activeFlags (playerState (game_engine g)) = Live flags →
  ∃ r, (engine_call (hasFlag flagId) ≫= λ c : bool,
        when c (modify_relationship f)) g
       = (Returned (), set_relationship g r)
       ∧ (r = game_relationship g ∨ r = f (game_relationship g)).
Proof.
  intros Hf. unfold when. rewrite (flag_statement g flags _ _ _ Hf).
  destruct (JsSet.has flags flagId).
  - eexists. split; [apply modify_relationship_run|by right].
  - exists (game_relationship g). split; [|by left]. by destruct g.
Qed.

Lemma set_relationship_same g : set_relationship g (game_relationship g) = g.
Proof. by destruct g. Qed.

(** A statement [if (query) this.#state.counter++] writes the relationship
    state only, and neither the soil type nor the first impression. *)
Lemma counter_statement g (q : M bool) c F :
  engine_call q g = (Returned c, g) →
  (∀ r, soilType (F r) = soilType r
        ∧ firstImpression (F r) = firstImpression r) →
  ∃ r',
    (engine_call q ≫= λ c : bool, when c (modify_relationship F)) g
    = (Returned (), set_relationship g r')
    ∧ soilType r' = soilType (game_relationship g)
    ∧ firstImpression r' = firstImpression (game_relationship g).
Proof.
  intros Hq HF. rewrite (G_bind_returned _ _ _ _ _ Hq).
  destruct c; cbn [when].
  - eexists. split; [apply modify_relationship_run|]. apply HF.
  - exists (game_relationship g). by rewrite set_relationship_same.
Qed.

(** The chain of three tests that assigns the first impression. *)
Lemma firstImpression_statement g flags :
  activeFlags (playerState (game_engine g)) = Live flags →
  ∃ r',
    (engine_call (hasFlag "e_first_impression_eager") ≫= λ eager : bool,
     if eager
     then modify_relationship (λ r, set_firstImpression r (Some "eager"))
     else
       engine_call (hasFlag "e_first_impression_guarded") ≫= λ guarded : bool,
       if guarded
       then modify_relationship (λ r, set_firstImpression r (Some "guarded"))
       else
         engine_call (hasFlag "e_first_impression_passive")
           ≫= λ passive : bool,
         when passive
           (modify_relationship
              (λ r, set_firstImpression r (Some "passive")))) g
    = (Returned (), set_relationship g r')
    ∧ soilType r' = soilType (game_relationship g)
    ∧ firstImpression r'
      = first_flag flags
          [("e_first_impression_eager", "eager");
           ("e_first_impression_guarded", "guarded");
           ("e_first_impression_passive", "passive")]
          (firstImpression (game_relationship g)).
Proof.
  intros Hf. unfold first_flag. cbn [List.find fst snd].
  rewrite (flag_statement g flags _ _ _ Hf).
  destruct (JsSet.has flags "e_first_impression_eager");
    [eexists; split; [apply modify_relationship_run|done]|].
  rewrite (flag_statement g flags _ _ _ Hf).
  destruct (JsSet.has flags "e_first_impression_guarded");
    [eexists; split; [apply modify_relationship_run|done]|].
  unfold when. rewrite (flag_statement g flags _ _ _ Hf).
  destruct (JsSet.has flags "e_first_impression_passive");
    [eexists; split; [apply modify_relationship_run|done]|].
  exists (game_relationship g). by rewrite set_relationship_same.
Qed.

(** The chain of three tests that assigns the soil type. *)
Lemma soilType_statement g flags :
  activeFlags (playerState (game_engine g)) = Live flags →
  ∃ r',
    (engine_call (hasFlag "e_soil_rich") ≫= λ rich : bool,
     if rich
     then modify_relationship (λ r, set_soilType r (Some "rich"))
     else
       engine_call (hasFlag "e_soil_rocky") ≫= λ rocky : bool,
       if rocky
       then modify_relationship (λ r, set_soilType r (Some "rocky"))
       else
         engine_call (hasFlag "e_soil_barren") ≫= λ barren : bool,
         when barren
           (modify_relationship (λ r, set_soilType r (Some "barren")))) g
    = (Returned (), set_relationship g r')
    ∧ firstImpression r' = firstImpression (game_relationship g)
    ∧ soilType r'
      = first_flag flags
          [("e_soil_rich", "rich"); ("e_soil_rocky", "rocky");
           ("e_soil_barren", "barren")]
          (soilType (game_relationship g)).
Proof.
  intros Hf. unfold first_flag. cbn [List.find fst snd].
  rewrite (flag_statement g flags _ _ _ Hf).
  destruct (JsSet.has flags "e_soil_rich");
    [eexists; split; [apply modify_relationship_run|done]|].
  rewrite (flag_statement g flags _ _ _ Hf).
  destruct (JsSet.has flags "e_soil_rocky");
    [eexists; split; [apply modify_relationship_run|done]|].
  unfold when. rewrite (flag_statement g flags _ _ _ Hf).
  destruct (JsSet.has flags "e_soil_barren");
    [eexists; split; [apply modify_relationship_run|done]|].
  exists (game_relationship g). by rewrite set_relationship_same.
Qed.

Lemma hasAnyFlag_call g flags flagIds :
  activeFlags (playerState (game_engine g)) = Live flags →
  engine_call (hasAnyFlag flagIds) g
  = (Returned (existsb (JsSet.has flags) flagIds), g).
Proof.
  intros Hf. apply engine_call_pure. unfold hasAnyFlag.
  apply some_M_pure. intros f. run. rewrite Hf. by run.
Qed.

Lemma getState_call g :
  live_game g → ∃ view, engine_call getState g = (Returned view, g).
Proof.
  intros Hlive.
  destruct (getState_returns (game_engine g) (game_browser g) Hlive)
    as (view & Hview & _).
  exists view. by apply engine_call_pure.
Qed.

(** [#syncWithDecisions] on a page whose decision engine has live
    collections: it returns, writes the relationship state only, assigns
    the phase of the current stats, and assigns the first impression and
    the soil type from the first active flag of their chains. *)
Lemma syncWithDecisions_run g flags :
  live_game g →
  activeFlags (playerState (game_engine g)) = Live flags →
  ∃ r',
    RelationshipEngine.syncWithDecisions g
    = (Returned (), set_relationship g r')
    ∧ phase r'
      = phase_of_net (trust_of (game_engine g) - guard_of (game_engine g))
    ∧ firstImpression r'
      = first_flag flags
          [("e_first_impression_eager", "eager");
           ("e_first_impression_guarded", "guarded");
           ("e_first_impression_passive", "passive")]
          (firstImpression (game_relationship g))
    ∧ soilType r'
      = first_flag flags
          [("e_soil_rich", "rich"); ("e_soil_rocky", "rocky");
           ("e_soil_barren", "barren")]
          (soilType (game_relationship g)).
Proof.
  intros Hlive Hf. unfold RelationshipEngine.syncWithDecisions.
  destruct (getState_call g Hlive) as (view & Hview).
  rewrite (G_bind_returned _ _ _ _ _ Hview).
  destruct (counter_statement g (hasFlag "e_game_memory") _
              (λ r, set_sharedGames r (sharedGames r + 1))
              (hasFlag_call g flags _ Hf))
    as (r1 & Hrun1 & Hs1 & Hi1); [done|].
  rewrite (G_bind_returned _ _ _ _ _ Hrun1).
  set (g1 := set_relationship g r1).
  destruct (counter_statement g1
              (hasAnyFlag ["e_voice_heard_3am"; "e_voice_shared"]) _
              (λ r, set_lateNightCalls r (lateNightCalls r + 1))
              (hasAnyFlag_call g1 flags _ Hf))
    as (r2 & Hrun2 & Hs2 & Hi2); [done|].
  rewrite (G_bind_returned _ _ _ _ _ Hrun2).
  set (g2 := set_relationship g1 r2).
  destruct (counter_statement g2 (hasFlag "e_jealousy_shown") _
              (λ r, set_jealousyMoments r (increment (jealousyMoments r)))
              (hasFlag_call g2 flags _ Hf))
    as (r3 & Hrun3 & Hs3 & Hi3); [done|].
  rewrite (G_bind_returned _ _ _ _ _ Hrun3).
  set (g3 := set_relationship g2 r3).
  destruct (counter_statement g3 (hasFlag "e_vulnerability_shown") _
              (λ r, set_vulnerableMoments r (vulnerableMoments r + 1))
              (hasFlag_call g3 flags _ Hf))
    as (r4 & Hrun4 & Hs4 & Hi4); [done|].
  rewrite (G_bind_returned _ _ _ _ _ Hrun4).
  set (g4 := set_relationship g3 r4).
  destruct (firstImpression_statement g4 flags Hf)
    as (r5 & Hrun5 & Hs5 & Hi5).
  rewrite (G_bind_returned _ _ _ _ _ Hrun5).
  set (g5 := set_relationship g4 r5).
  destruct (soilType_statement g5 flags Hf) as (r6 & Hrun6 & Hi6 & Hs6).
  rewrite (G_bind_returned _ _ _ _ _ Hrun6).
  rewrite updatePhase_run. eexists. split; [done|].
  cbn in *. split_and!; [done|congruence|congruence].
Qed.

Lemma restoreState_run g :
  RelationshipEngine.restoreState g
  = (Returned (), set_relationship g (restored g)).
Proof.
  unfold RelationshipEngine.restoreState, restored. run.
  destruct (game_relationshipItem g) as [[doc|]|]; run;
    by rewrite ?set_relationship_same.
Qed.

(** [initialize] of the relationship engine on a page whose decision
    engine has live collections. *)
Lemma initialize_run g flags :
  live_game g →
  activeFlags (playerState (game_engine g)) = Live flags →
  ∃ r',
    RelationshipEngine.initialize g = (Returned (), set_relationship g r')
    ∧ phase r'
      = phase_of_net (trust_of (game_engine g) - guard_of (game_engine g))
    ∧ firstImpression r'
      = first_flag flags
          [("e_first_impression_eager", "eager");
           ("e_first_impression_guarded", "guarded");
           ("e_first_impression_passive", "passive")]
          (firstImpression (restored g))
    ∧ soilType r'
      = first_flag flags
          [("e_soil_rich", "rich"); ("e_soil_rocky", "rocky");
           ("e_soil_barren", "barren")]
          (soilType (restored g)).
Proof.
  intros Hlive Hf. unfold RelationshipEngine.initialize.
  rewrite (G_bind_returned _ _ _ _ _ (restoreState_run g)).
  destruct (syncWithDecisions_run (set_relationship g (restored g)) flags
              Hlive Hf) as (r' & Hrun & Hphase & Hfirst & Hsoil).
  exists r'. by split_and!.
Qed.

Lemma getTone_run g :
  ∃ tone,
    RelationshipEngine.getTone g = (Returned tone, g)
    ∧ (warmth tone = "high"
       ↔ (guard_of (game_engine g) + 10 < trust_of (game_engine g))%Z)
    ∧ (warmth tone = "low"
       ↔ (trust_of (game_engine g) + 5 < guard_of (game_engine g))%Z).
Proof.
  unfold RelationshipEngine.getTone.
  rewrite (G_bind_returned _ _ _ _ _ (trust_call g)).
  rewrite (G_bind_returned _ _ _ _ _ (guard_call g)).
  eexists. split; [done|].
  destruct (guard_of (game_engine g) + 10 <? trust_of (game_engine g))%Z
    eqn:H1; [apply Z.ltb_lt in H1|apply Z.ltb_ge in H1]; cbn [warmth].
  { split; split; try done; lia. }
  destruct (guard_of (game_engine g) <? trust_of (game_engine g))%Z
    eqn:H2; [apply Z.ltb_lt in H2|apply Z.ltb_ge in H2]; cbn [warmth].
  { split; split; try done; lia. }
  destruct (trust_of (game_engine g) + 5 <? guard_of (game_engine g))%Z
    eqn:H3; [apply Z.ltb_lt in H3|apply Z.ltb_ge in H3]; cbn [warmth].
  { split; split; try done; lia. }
  split; split; try done; lia.
Qed.

Lemma phase_of_net_strangers net :
  phase_of_net net = "strangers" ↔ (net < -5)%Z.
Proof.
  unfold phase_of_net.
  repeat (match goal with
          | |- context [(?a <? ?b)%Z] =>
              let H := fresh in
              destruct (a <? b)%Z eqn:H;
              [apply Z.ltb_lt in H|apply Z.ltb_ge in H]
          end); split; try done; lia.
Qed.





(** ** Milestones *)

Lemma some_hasFlag_call g flags l :
  activeFlags (playerState (game_engine g)) = Live flags →
  engine_call (some_M hasFlag l) g
  = (Returned (existsb (JsSet.has flags) l), g).
Proof.
  intros Hf. apply engine_call_pure, some_M_pure.
  intros f. by apply hasFlag_live.
Qed.

Lemma every_hasFlag_call g flags l :
  activeFlags (playerState (game_engine g)) = Live flags →
  engine_call (every_M hasFlag l) g
  = (Returned (forallb (JsSet.has flags) l), g).
Proof.
  intros Hf. apply engine_call_pure, every_M_pure.
  intros f. by apply hasFlag_live.
Qed.

Lemma hasMilestone_run g flags milestoneId :
  activeFlags (playerState (game_engine g)) = Live flags →
  RelationshipEngine.hasMilestone milestoneId g =
  match read_key milestones milestoneId with
  | Own milestone => (Returned (reached flags milestone), g)
  | Member _ => (Thrown TypeError, g)
  | Missing => (Returned false, g)
  end.
Proof.
  intros Hf. unfold RelationshipEngine.hasMilestone, reached.
  destruct (read_key milestones milestoneId) as [milestone|k|]; [|done..].
  destruct (ms_any milestone) as [any|]; [by apply some_hasFlag_call|].
  destruct (ms_all milestone) as [all|]; [by apply every_hasFlag_call|done].
Qed.

Lemma getMilestones_loop_run g flags entries : ∀ active,
  activeFlags (playerState (game_engine g)) = Live flags →
  Forall (λ kv, read_key milestones kv.1 = Own kv.2) entries →
  RelationshipEngine.getMilestones_loop entries active g
  = (Returned (active ++ List.filter (λ kv, reached flags kv.2) entries), g).
Proof.
  intros active Hf. revert active.
  induction entries as [|[id milestone] rest IH]; intros active Hall.
  { cbn. by rewrite app_nil_r. }
  apply Forall_cons in Hall as [Hid Hall]. cbn in Hid.
  cbn [RelationshipEngine.getMilestones_loop List.filter snd].
  pose proof (hasMilestone_run g flags id Hf) as Hhas. rewrite Hid in Hhas.
  rewrite (G_bind_returned _ _ _ _ _ Hhas), IH by done.
  destruct (reached flags milestone); [|done]. by rewrite <- app_assoc.
Qed.

Lemma milestones_own :
  Forall (λ kv, read_key milestones kv.1 = Own kv.2) milestones.
Proof. repeat constructor. Qed.

(** X22.  With a live flag set, [getMilestones] returns, in the order of the
    table, the milestones one of whose flags is active, and [hasMilestone]
    answers [true] exactly for the ids [getMilestones] lists; for an id
    that is no milestone it answers [false], except that it throws a
    [TypeError] for the name of a member of [Object.prototype], such as
    [toString]. *)
Theorem hasMilestone_agrees_with_getMilestones g flags :
  activeFlags (playerState (game_engine g)) = Live flags →
  ∃ active,
    RelationshipEngine.getMilestones g = (Returned active, g)
    ∧ active = List.filter (λ kv, reached flags kv.2) milestones
    ∧ (∀ id, inherited id = false →
         RelationshipEngine.hasMilestone id g
         = (Returned (bool_decide (id ∈ active.*1)), g))
    ∧ (∀ id, inherited id = true →
         RelationshipEngine.hasMilestone id g = (Thrown TypeError, g)).
Proof.
  intros Hf. eexists. split.
  { unfold RelationshipEngine.getMilestones.
    by rewrite (getMilestones_loop_run g flags milestones [] Hf milestones_own). }
  cbn [app]. split; [done|]. split.
  - intros id Hinh. rewrite (hasMilestone_run g flags id Hf).
    unfold read_key. rewrite Hinh.
    destruct (own milestones id) as [milestone|] eqn:Hown.
    + do 2 f_equal. symmetry.
      apply JsMap_get_Some_elem in Hown as Hin.
      assert (Hkeys : object_keys_distinct milestones).
      { apply (bool_decide_unpack _). by vm_compute. }
      destruct (reached flags milestone) eqn:Hr.
      * apply bool_decide_eq_true, list_elem_of_fmap.
        exists (id, milestone). split; [done|].
        apply list_elem_of_In, filter_In. split; [by apply list_elem_of_In|done].
      * apply bool_decide_eq_false.
        intros ([id' m'] & Heq & Hin')%list_elem_of_fmap. cbn in Heq. subst id'.
        apply list_elem_of_In, filter_In in Hin' as [Hin' Hr'].
        apply list_elem_of_In in Hin'. cbn in Hr'.
        rewrite (object_lookup_unique _ _ _ _ Hkeys Hin Hin') in Hr.
        congruence.
    + do 2 f_equal. symmetry. apply bool_decide_eq_false.
      intros ([id' m'] & Heq & Hin')%list_elem_of_fmap. cbn in Heq. subst id'.
      apply list_elem_of_In, filter_In in Hin' as [Hin' _].
      apply list_elem_of_In in Hin'.
      apply JsMap_get_None in Hown. apply Hown.
      apply list_elem_of_fmap. by exists (id, m').
  - intros id Hinh. rewrite (hasMilestone_run g flags id Hf).
    unfold read_key.
    assert (Hown : own milestones id = None).
    { apply JsMap_get_None. intros Hin.
      assert (Hall : Forall (λ k, inherited k = false) milestones.*1)
        by (repeat constructor).
      rewrite Forall_forall in Hall. apply Hall in Hin. congruence. }
    by rewrite Hown, Hinh.
Qed.

Lemma hasMilestone_agrees_with_getMilestones_witness :
  RelationshipEngine.hasMilestone "toString" (newGame empty_browser None)
  = (Thrown TypeError, newGame empty_browser None).
Proof.
  destruct (hasMilestone_agrees_with_getMilestones
              (newGame empty_browser None) [] eq_refl)
    as (active & _ & _ & _ & Hthrow).
  by apply Hthrow.
Defined.

(** ** Callbacks *)

Lemma first_variant_run e b flags variants :
  activeFlags (playerState e) = Live flags →
  first_variant variants (e, b)
  = (Returned (snd <$> List.find (λ v, JsSet.has flags v.1) variants), (e, b)).
Proof.
  intros Hf. induction variants as [|[flag text] rest IH]; [done|].
  cbn [first_variant List.find fst].
  rewrite (bind_returned _ _ _ _ _ (hasFlag_live e b flags flag Hf)).
  by destruct (JsSet.has flags flag).
Qed.

Lemma getCallback_run g flags mems callbackId :
  activeFlags (playerState (game_engine g)) = Live flags →
  memories (playerState (game_engine g)) = Live mems →
  RelationshipEngine.getCallback callbackId g =
  match read_key callbacks callbackId with
  | Own callback => (Returned (callback_text flags mems callback), g)
  | Member _ => (Thrown TypeError, g)
  | Missing => (Returned None, g)
  end.
Proof.
  intros Hf Hm. unfold RelationshipEngine.getCallback, callback_text.
  destruct (read_key callbacks callbackId) as [callback|k|]; [|done..].
  assert (Hreq : engine_call (some_M isActive (cb_requires callback)) g
    = (Returned (existsb (λ f, bool_decide (f ∈ flags ∨ f ∈ mem_id <$> mems))
                         (cb_requires callback)), g)).
  { apply engine_call_pure, some_M_pure. intros f. by apply isActive_live. }
  rewrite (G_bind_returned _ _ _ _ _ Hreq).
  destruct (existsb _ _); [|done]. cbn [negb].
  assert (Hvar : engine_call (first_variant (or_empty (cb_variants callback))) g
    = (Returned (snd <$> List.find (λ v, JsSet.has flags v.1)
                           (or_empty (cb_variants callback))), g)).
  { by apply engine_call_pure, first_variant_run. }
  rewrite (G_bind_returned _ _ _ _ _ Hvar).
  by destruct (List.find _ _).
Qed.

Lemma omap_cons_unfold {A B} (f : A → option B) x l :
  omap f (x :: l)
  = match f x with Some y => y :: omap f l | None => omap f l end.
Proof. done. Qed.

Lemma getActiveCallbacks_loop_run g flags mems callbackIds : ∀ active,
  activeFlags (playerState (game_engine g)) = Live flags →
  memories (playerState (game_engine g)) = Live mems →
  Forall (λ id, is_Some (own callbacks id)) callbackIds →
  RelationshipEngine.getActiveCallbacks_loop callbackIds active g
  = (Returned
       (active ++
        omap (λ id, callback ← own callbacks id;
                    text ← or_null (callback_text flags mems callback);
                    Some (id, text)) callbackIds), g).
Proof.
  intros active Hf Hm. revert active.
  induction callbackIds as [|id rest IH]; intros active Hall.
  { cbn. by rewrite app_nil_r. }
  apply Forall_cons in Hall as [[callback Hown] Hall].
  cbn [RelationshipEngine.getActiveCallbacks_loop].
  pose proof (getCallback_run g flags mems id Hf Hm) as Hcb.
  unfold read_key in Hcb. rewrite Hown in Hcb.
  rewrite (G_bind_returned _ _ _ _ _ Hcb), IH by done.
  rewrite omap_cons_unfold, Hown. cbn.
  destruct (or_null (callback_text flags mems callback)); cbn; [|done].
  by rewrite <- app_assoc.
Qed.

Lemma tapeCallbacks_known :
  Forall (λ kv, Forall (λ id, is_Some (own callbacks id)) kv.2) tapeCallbacks.
Proof. repeat constructor; by eexists. Qed.

Lemma or_null_Some_inv x s : or_null x = Some s → x = Some s ∧ s ≠ "".
Proof.
  unfold or_null. destruct x as [t|]; [|done].
  case_decide; [done|]. by intros [= ->].
Qed.

(** [getActiveCallbacks] returns for every tape id that is not the name of
    a member of [Object.prototype]. *)
Lemma getActiveCallbacks_run g flags mems tapeId :
  activeFlags (playerState (game_engine g)) = Live flags →
  memories (playerState (game_engine g)) = Live mems →
  inherited (tape_key tapeId) = false →
  RelationshipEngine.getActiveCallbacks tapeId g
  = (Returned
       (omap (λ id, callback ← own callbacks id;
                    text ← or_null (callback_text flags mems callback);
                    Some (id, text))
             (default [] (own tapeCallbacks (tape_key tapeId)))), g).
Proof.
  intros Hf Hm Hinh. unfold RelationshipEngine.getActiveCallbacks, read_key.
  rewrite Hinh.
  destruct (own tapeCallbacks (tape_key tapeId)) as [ids|] eqn:Hown; [|done].
  rewrite (getActiveCallbacks_loop_run g flags mems ids [] Hf Hm); [done|].
  apply JsMap_get_Some_elem in Hown.
  pose proof tapeCallbacks_known as Hall. rewrite Forall_forall in Hall.
  by apply (Hall (tape_key tapeId, ids)).
Qed.

(** X23.  With live flags and memories, and for a tape id that is not the
    name of a member of [Object.prototype], [getActiveCallbacks] returns
    entries only for callbacks of the tape, in the order of its table;
    every entry carries the non-empty text [getCallback] returns for its
    id, and its callback has a required id that is an active flag or the
    id of a stored memory.  So a game without flags and memories has no
    active callback.  For the name of such a member, [toString] for
    instance, [getActiveCallbacks] and [getCallback] throw a
    [TypeError]. *)
Theorem active_callbacks_are_earned g flags mems tapeId :
  activeFlags (playerState (game_engine g)) = Live flags →
  memories (playerState (game_engine g)) = Live mems →
  (inherited (tape_key tapeId) = false →
   ∃ active,
     RelationshipEngine.getActiveCallbacks tapeId g = (Returned active, g)
     ∧ active.*1
       `sublist_of` default [] (own tapeCallbacks (tape_key tapeId))
     ∧ (∀ id text, (id, text) ∈ active →
          text ≠ ""
          ∧ RelationshipEngine.getCallback id g = (Returned (Some text), g)
          ∧ ∃ callback f,
              own callbacks id = Some callback
              ∧ f ∈ cb_requires callback
              ∧ (f ∈ flags ∨ f ∈ mem_id <$> mems))
     ∧ (flags = [] → mems = [] → active = []))
  ∧ (inherited (tape_key tapeId) = true →
     RelationshipEngine.getActiveCallbacks tapeId g = (Thrown TypeError, g)
     ∧ RelationshipEngine.getCallback (tape_key tapeId) g
       = (Thrown TypeError, g)).
Proof.
  intros Hf Hm. split.
  - intros Hinh. eexists. split; [by apply getActiveCallbacks_run|].
    set (ids := default [] (own tapeCallbacks (tape_key tapeId))).
    assert (Helem : ∀ id text,
      (id, text) ∈ omap (λ id, callback ← own callbacks id;
                         text ← or_null (callback_text flags mems callback);
                         Some (id, text)) ids →
      ∃ callback, own callbacks id = Some callback
        ∧ callback_text flags mems callback = Some text ∧ text ≠ "").
    { intros id text (id' & _ & Hsome)%list_elem_of_omap.
      destruct (own callbacks id') as [callback|] eqn:Hown; [|done].
      cbn in Hsome.
      destruct (or_null (callback_text flags mems callback)) as [t|] eqn:Ht;
        [|done].
      cbn in Hsome. injection Hsome as -> ->.
      apply or_null_Some_inv in Ht as [Ht Hne]. by exists callback. }
    split_and!.
    + clear Helem. clearbody ids.
      induction ids as [|id rest IH]; [done|]. rewrite omap_cons_unfold.
      destruct (own callbacks id ≫= _) as [[id' text]|] eqn:Hentry;
        [|by apply sublist_cons].
      destruct (own callbacks id) as [callback|]; [|done]. cbn in Hentry.
      destruct (or_null _); [|done]. cbn in Hentry.
      injection Hentry as <- _. by apply sublist_skip.
    + intros id text (callback & Hown & Htext & Hne)%Helem.
      split_and!; [done| |].
      * rewrite (getCallback_run g flags mems id Hf Hm). unfold read_key.
        by rewrite Hown, Htext.
      * unfold callback_text in Htext.
        destruct (existsb _ (cb_requires callback)) eqn:Hex; [|done].
        apply existsb_exists in Hex as (f & Hin & Hact%bool_decide_eq_true).
        exists callback, f. by rewrite list_elem_of_In.
    + intros -> ->.
      destruct (omap _ ids) as [|[id text] l] eqn:Hl; [done|].
      destruct (Helem id text) as (callback & _ & Htext & _); [left|].
      unfold callback_text in Htext.
      destruct (existsb _ (cb_requires callback)) eqn:Hex; [|done].
      apply existsb_exists in Hex as (f & _ & Hact%bool_decide_eq_true).
      destruct Hact as [Hact|Hact]; by apply elem_of_nil in Hact.
  - intros Hinh.
    assert (Hnone : ∀ {V} (table : list (string * V)),
      Forall (λ k, inherited k = false) table.*1 →
      own table (tape_key tapeId) = None).
    { intros V table Hall. apply JsMap_get_None. intros Hin.
      rewrite Forall_forall in Hall. apply Hall in Hin. congruence. }
    split.
    + unfold RelationshipEngine.getActiveCallbacks, read_key.
      rewrite (Hnone _ tapeCallbacks), Hinh; [done|]. repeat constructor.
    + rewrite (getCallback_run g flags mems _ Hf Hm). unfold read_key.
      rewrite (Hnone _ callbacks), Hinh; [done|]. repeat constructor.
Qed.

Lemma active_callbacks_are_earned_witness :
  RelationshipEngine.getActiveCallbacks (TapeName "tape2")
    (newGame empty_browser None)
  = (Returned [], newGame empty_browser None).
Proof.
  destruct (active_callbacks_are_earned (newGame empty_browser None)
              [] [] (TapeName "tape2") eq_refl eq_refl)
    as [Hplain _].
  destruct (Hplain eq_refl) as (active & Hrun & _ & _ & Hnil).
  by rewrite Hrun, (Hnil eq_refl eq_refl).
Defined.

(** ** The introduction of a tape *)

Lemma introductions_texts :
  Forall (λ kv, is_Some (own kv.2 "default") ∧ own kv.2 "" = None
                ∧ Forall (λ e, e.2 ≠ "") kv.2)
         introductions.
Proof. apply (bool_decide_unpack _). by vm_compute. Qed.

Lemma read_key_plain {V} (table : list (string * V)) k :
  inherited k = false →
  read_key table k
  = match own table k with Some v => Own v | None => Missing end.
Proof. intros Hinh. unfold read_key. by rewrite Hinh. Qed.

Lemma truthy_text_plain (tapeIntros : list (string * string)) k :
  Forall (λ e, e.2 ≠ "") tapeIntros →
  inherited k = false →
  RelationshipEngine.truthy_text (read_key tapeIntros k)
  = bool_decide (is_Some (own tapeIntros k)).
Proof.
  intros Hall Hinh. rewrite read_key_plain by done.
  destruct (own tapeIntros k) as [text|] eqn:Hown; cbn.
  - apply JsMap_get_Some_elem in Hown. rewrite Forall_forall in Hall.
    specialize (Hall _ Hown). cbn in Hall. by rewrite bool_decide_eq_false_2.
  - done.
Qed.

(** X24.  With live flags and memories, a phase and a soil type that are
    not names of members of [Object.prototype], and a tape id that is not
    such a name either: for a tape of the table, [getTapeIntroduction]
    returns a non-empty text of that tape, which is, for [tape5] with a
    soil type the tape has a text for, that text, otherwise the text for
    the phase when the tape has one, otherwise the tape's default text;
    for any other tape id it returns [null].  It leaves the page as it
    is.  For the name of a member of [Object.prototype] it throws a
    [TypeError]. *)
Theorem getTapeIntroduction_by_soil_then_phase g flags mems tapeId :
  activeFlags (playerState (game_engine g)) = Live flags →
  memories (playerState (game_engine g)) = Live mems →
  inherited (phase (game_relationship g)) = false →
  (∀ soil, soilType (game_relationship g) = Some soil →
           inherited soil = false) →
  (inherited (tape_key tapeId) = false →
   match own introductions (tape_key tapeId) with
   | Some tapeIntros =>
       ∃ text fallback,
         RelationshipEngine.getTapeIntroduction tapeId g
         = (Returned (Some (Own text)), g)
         ∧ text ≠ ""
         ∧ own tapeIntros "default" = Some fallback
         ∧ text
           = default
               (default fallback
                  (own tapeIntros (phase (game_relationship g))))
               (if bool_decide (tape_key tapeId = "tape5")
                then soilType (game_relationship g) ≫= own tapeIntros
                else None)
   | None =>
       RelationshipEngine.getTapeIntroduction tapeId g = (Returned None, g)
   end)
  ∧ (inherited (tape_key tapeId) = true →
     RelationshipEngine.getTapeIntroduction tapeId g = (Thrown TypeError, g)).
Proof.
  intros Hf Hm Hphase Hsoil. split.
  - intros Hinh. unfold RelationshipEngine.getTapeIntroduction.
    rewrite (G_bind_returned _ _ _ _ _
               (getActiveCallbacks_run g flags mems tapeId Hf Hm Hinh)).
    destruct (getTone_run g) as (tone & Htone & _).
    rewrite (G_bind_returned _ _ _ _ _ Htone).
    assert (Hr : get_relationship g = (Returned (game_relationship g), g))
      by done.
    rewrite (G_bind_returned _ _ _ _ _ Hr).
    rewrite read_key_plain by done.
    destruct (own introductions (tape_key tapeId)) as [tapeIntros|] eqn:Hown;
      [|done].
    pose proof introductions_texts as Hall. rewrite Forall_forall in Hall.
    destruct (Hall _ (JsMap_get_Some_elem _ _ _ Hown))
      as ([fallback Hdefault] & Hempty & Htexts).
    cbn [snd] in Hdefault, Hempty, Htexts.
    assert (Hentry : ∀ k text, own tapeIntros k = Some text → text ≠ "").
    { intros k text Hk%JsMap_get_Some_elem. rewrite Forall_forall in Htexts.
      by apply (Htexts (k, text)). }
    assert (Htape : bool_decide (tapeId = TapeName "tape5")
                    = bool_decide (tape_key tapeId = "tape5")).
    { apply bool_decide_ext. split; [by intros ->|].
      destruct tapeId; cbn; [by intros ->|done..]. }
    rewrite Htape.
    rewrite (truthy_text_plain tapeIntros (phase (game_relationship g)))
      by done.
    rewrite (read_key_plain tapeIntros (phase (game_relationship g)))
      by done.
    rewrite (read_key_plain tapeIntros "default") by done.
    rewrite Hdefault.
    assert (Hby_phase : ∃ text,
      (if bool_decide (is_Some (own tapeIntros (phase (game_relationship g))))
       then mret (Some match own tapeIntros (phase (game_relationship g)) with
                       | Some v => Own v
                       | None => Missing
                       end)
       else mret (Some (Own fallback)) : G (option (Read string))) g
      = (Returned (Some (Own text)), g)
      ∧ text ≠ ""
      ∧ text = default fallback
                 (own tapeIntros (phase (game_relationship g)))).
    { destruct (own tapeIntros (phase (game_relationship g))) as [text|]
        eqn:Hp.
      - rewrite bool_decide_eq_true_2 by (by eexists). exists text.
        split_and!; [done| |done]. by eapply Hentry.
      - rewrite bool_decide_eq_false_2 by (by intros [? ?]). exists fallback.
        split_and!; [done| |done]. by eapply Hentry. }
    destruct Hby_phase as (by_phase & Hrun & Hne & Hdef).
    destruct (soilType (game_relationship g)) as [soil|] eqn:Hs.
    + specialize (Hsoil soil eq_refl).
      rewrite (truthy_text_plain tapeIntros soil) by done.
      rewrite (read_key_plain tapeIntros soil) by done.
      destruct (bool_decide (tape_key tapeId = "tape5")); cbn [andb];
        [|exists by_phase, fallback; by rewrite <- Hdef].
      cbn [mbind option_bind].
      destruct (own tapeIntros soil) as [text|] eqn:Hsoil_text.
      * assert (soil ≠ "").
        { intros ->. congruence. }
        rewrite bool_decide_eq_false_2 by done.
        rewrite bool_decide_eq_true_2 by (by eexists). cbn.
        exists text, fallback. split_and!; [done| |done|done].
        by eapply Hentry.
      * rewrite (bool_decide_eq_false_2 (is_Some _)) by (by intros [? ?]).
        rewrite andb_false_r. cbn.
        exists by_phase, fallback. by rewrite <- Hdef.
    + destruct (bool_decide (tape_key tapeId = "tape5")); cbn;
        exists by_phase, fallback; by rewrite <- Hdef.
  - intros Hinh. unfold RelationshipEngine.getTapeIntroduction.
    apply G_bind_thrown.
    unfold RelationshipEngine.getActiveCallbacks, read_key. rewrite Hinh.
    replace (own tapeCallbacks (tape_key tapeId)) with (@None (list string));
      [done|].
    symmetry. apply JsMap_get_None. intros Hin.
    assert (Hall : Forall (λ k, inherited k = false) tapeCallbacks.*1)
      by repeat constructor.
    rewrite Forall_forall in Hall. apply Hall in Hin. congruence.
Qed.

Lemma getTapeIntroduction_by_soil_then_phase_witness :
  RelationshipEngine.getTapeIntroduction (TapeName "tape2")
    (newGame empty_browser None)
  = (Returned
       (Some (Own "Weeks have passed. The messages are no longer from a stranger.")),
     newGame empty_browser None).
Proof.
  destruct (getTapeIntroduction_by_soil_then_phase
              (newGame empty_browser None) [] [] (TapeName "tape2")
              eq_refl eq_refl eq_refl) as [Hplain _].
  { intros soil Hs. discriminate Hs. }
  specialize (Hplain eq_refl). cbn in Hplain.
  destruct Hplain as (text & fallback & Hrun & _ & [= <-] & ->).
  exact Hrun.
Defined.

(** ** The facade: [makeChoice] *)

Lemma query_bind {A B} (m : M A) (f : A → M B) :
  query m → (∀ a, query (f a)) → query (m ≫= f).
Proof.
  intros Hm Hf s. specialize (Hm s). unfold mbind, M_bind.
  destruct (m s) as [[a|ex] s']; cbn in Hm; subst s'; [apply Hf|done].
Qed.

Lemma query_hasFlag flagId : query (hasFlag flagId).
Proof.
  intros [e b]. unfold hasFlag. run.
  by destruct (activeFlags (playerState e)).
Qed.

Lemma query_some_M {A} (f : A → M bool) l :
  (∀ x, query (f x)) → query (some_M f l).
Proof.
  intros Hf. induction l as [|x l IH]; [done|]. cbn [some_M].
  apply query_bind; [done|]. by intros [].
Qed.

Lemma query_hasAnyFlag flagIds : query (hasAnyFlag flagIds).
Proof. apply query_some_M. intros f. apply (query_hasFlag f). Qed.

Lemma query_getState : query getState.
Proof. intros s. destruct (getState s) eqn:H. by apply getState_frame in H. Qed.

Lemma query_number_stat s : query (number_stat s).
Proof.
  intros [e b]. unfold number_stat, getStat. run.
  by destruct (if truthy _ then _ else _).
Qed.

Lemma relationship_only_ret {A} (a : A) : relationship_only (mret a).
Proof. intros g. apply same_but_relationship_refl. Qed.

Lemma relationship_only_bind {A B} (m : G A) (f : A → G B) :
  relationship_only m → (∀ a, relationship_only (f a)) →
  relationship_only (m ≫= f).
Proof.
  intros Hm Hf g. specialize (Hm g). unfold mbind, G_bind.
  destruct (m g) as [[a|ex] g']; cbn in Hm; [|done].
  eapply same_but_relationship_trans; [done|apply Hf].
Qed.

Lemma relationship_only_query {A} (m : M A) :
  query m → relationship_only (engine_call m).
Proof.
  intros Hm g. unfold engine_call. rewrite Hm. cbn.
  rewrite set_decisions_same. apply same_but_relationship_refl.
Qed.

Lemma relationship_only_modify f : relationship_only (modify_relationship f).
Proof. intros g. apply same_but_relationship_set. Qed.

Lemma relationship_only_when c m :
  relationship_only m → relationship_only (when c m).
Proof. destruct c; [done|]. intros _. apply relationship_only_ret. Qed.

Lemma relationship_only_if {A} (c : bool) (m1 m2 : G A) :
  relationship_only m1 → relationship_only m2 →
  relationship_only (if c then m1 else m2).
Proof. by destruct c. Qed.

Lemma relationship_only_get_game : relationship_only get_game.
Proof. intros g. apply same_but_relationship_refl. Qed.

Lemma relationship_only_get : relationship_only get_relationship.
Proof. intros g. apply same_but_relationship_refl. Qed.

Lemma relationship_only_put r : relationship_only (put_relationship r).
Proof. intros g. apply same_but_relationship_set. Qed.

Ltac relationship_frame :=
  repeat first
    [ apply relationship_only_bind; [|intros ?]
    | apply relationship_only_if
    | apply relationship_only_when
    | apply relationship_only_modify
    | apply relationship_only_ret
    | apply relationship_only_get_game
    | apply relationship_only_get
    | apply relationship_only_put
    | apply relationship_only_query
    | apply query_hasFlag
    | apply query_hasAnyFlag
    | apply query_getState
    | apply query_number_stat ].

(** [initialize] of the relationship engine writes the relationship
    state only, also when it throws half way. *)
Lemma initialize_relationship_only :
  relationship_only RelationshipEngine.initialize.
Proof.
  unfold RelationshipEngine.initialize, RelationshipEngine.syncWithDecisions,
    RelationshipEngine.updatePhase, RelationshipEngine.restoreState.
  relationship_frame.
  destruct (game_relationshipItem _) as [[doc|]|]; relationship_frame.
Qed.

(** X25.  [makeChoice] of the facade gives the outcome of [makeChoice] of
    the decision engine, result or exception, and leaves the decision
    engine and the storage as that call leaves them: the synchronisation
    of the relationship engine that follows is not awaited, so an
    exception in it never reaches the caller.  The synchronisation writes
    the relationship state only.  It does not run when the choice throws;
    when the choice returns and the collections of the player state are
    live, the phase is the one for the new difference of trust and
    guard. *)
Theorem facade_makeChoice_is_the_choice_of_the_engine
    g decisionId optionId out e' b' :
  makeChoice decisionId optionId (game_engine g, game_browser g)
  = (out, (e', b')) →
  ∃ g',
    GameEngine.makeChoice decisionId optionId g = (out, g')
    ∧ game_engine g' = e'
    ∧ game_browser g' = b'
    ∧ game_relationshipItem g' = game_relationshipItem g
    ∧ game_initialized g' = game_initialized g
    ∧ game_currentTape g' = game_currentTape g
    ∧ (∀ ex, out = Thrown ex → game_relationship g' = game_relationship g)
    ∧ (∀ result, out = Returned result → live (playerState e') →
         phase (game_relationship g')
         = phase_of_net (trust_of e' - guard_of e')).
Proof.
  intros Hrun. unfold GameEngine.makeChoice.
  assert (Hcall : engine_call (makeChoice decisionId optionId) g
                  = (out, set_decisions g (e', b'))).
  { unfold engine_call. by rewrite Hrun. }
  destruct out as [result|ex].
  - rewrite (G_bind_returned _ _ _ _ _ Hcall).
    set (g1 := set_decisions g (e', b')).
    pose proof (initialize_relationship_only g1) as Hframe.
    unfold mbind, G_bind, unawaited.
    destruct (RelationshipEngine.initialize g1) as [out2 g2] eqn:Hinit.
    cbn in Hframe. destruct Hframe as (He & Hb & Hitem & Hini & Htape).
    exists g2. split_and!; try done.
    intros _ _ Hlive. pose proof Hlive as (flags & _ & _ & Hf & _).
    destruct (initialize_run g1 flags Hlive Hf) as (r' & Hrun' & Hphase & _).
    rewrite Hrun' in Hinit. injection Hinit as _ <-. exact Hphase.
  - rewrite (G_bind_thrown _ _ _ _ _ Hcall).
    exists (set_decisions g (e', b')). by split_and!.
Qed.

Lemma facade_makeChoice_is_the_choice_of_the_engine_witness :
  ∃ result g',
    GameEngine.makeChoice "d1" "optA"
      (set_decisions (newGame empty_browser None)
                     (play_engine, empty_browser))
    = (Returned result, g')
    ∧ phase (game_relationship g') = "friends".
Proof.
  destruct (makeChoice "d1" "optA" (play_engine, empty_browser))
    as [out [e' b']] eqn:Hrun.
  destruct (facade_makeChoice_is_the_choice_of_the_engine
              (set_decisions (newGame empty_browser None)
                             (play_engine, empty_browser))
              "d1" "optA" out e' b' Hrun)
    as (g' & Hcall & He & _ & _ & _ & _ & _ & Hphase).
  vm_compute in Hrun. injection Hrun as <- <- <-.
  eexists _, g'. split; [exact Hcall|].
  rewrite (Hphase _ eq_refl); [by vm_compute|].
  eexists _, _, _. by split_and!.
Defined.

(** ** The facade: [wasChoiceMade] and [getChosenOption] *)

Lemma getLastChoice_call g decisionId :
  engine_call (getLastChoice decisionId) g
  = (Returned (last_choice (history (game_engine g)) decisionId), g).
Proof. apply engine_call_pure, getLastChoice_run. Qed.

(** X26.  On every page, [wasChoiceMade] and [getChosenOption] of the facade
    return and change nothing.  Without an option id, with [null] or with
    the empty string, [wasChoiceMade] tells whether the history has an
    entry of the decision; with an option id it tells whether the history
    has an entry of the decision with that option, at any position.
    [getChosenOption] returns the option id of the last entry of the
    decision, or [null] when there is none or that id is the empty string.
    So the option [getChosenOption] returns is one [wasChoiceMade]
    confirms, and a choice [wasChoiceMade] confirms with an option id it
    also confirms without one. *)
Theorem facade_wasChoiceMade_and_getChosenOption g decisionId :
  let h := history (game_engine g) in
  (∀ optionId,
     or_null optionId = None →
     GameEngine.wasChoiceMade decisionId optionId g
     = (Returned (bool_decide (decisionId ∈ hist_decisionId <$> h)), g))
  ∧ (∀ o,
       o ≠ "" →
       GameEngine.wasChoiceMade decisionId (Some o) g
       = (Returned
            (bool_decide
               ((decisionId, o)
                ∈ (λ x, (hist_decisionId x, hist_optionId x)) <$> h)), g))
  ∧ GameEngine.getChosenOption decisionId g
    = (Returned (or_null (hist_optionId <$> last_choice h decisionId)), g)
  ∧ (∀ o,
       GameEngine.getChosenOption decisionId g = (Returned (Some o), g) →
       GameEngine.wasChoiceMade decisionId (Some o) g = (Returned true, g))
  ∧ (∀ o,
       GameEngine.wasChoiceMade decisionId (Some o) g = (Returned true, g) →
       GameEngine.wasChoiceMade decisionId None g = (Returned true, g)).
Proof.
  intros h.
  assert (Hnone : ∀ optionId,
    or_null optionId = None →
    GameEngine.wasChoiceMade decisionId optionId g
    = (Returned (bool_decide (decisionId ∈ hist_decisionId <$> h)), g)).
  { intros optionId Hnull. unfold GameEngine.wasChoiceMade. rewrite Hnull.
    rewrite (G_bind_returned _ _ _ _ _ (getLastChoice_call g decisionId)).
    unfold mret, G_ret. do 2 f_equal. fold h. unfold last_choice.
    apply bool_decide_ext. rewrite list_elem_of_fmap. split.
    - intros [x Hlast]. apply last_Some_elem_of in Hlast.
      apply list_elem_of_In, filter_In in Hlast as [Hin Hx].
      apply bool_decide_eq_true in Hx. exists x.
      by rewrite list_elem_of_In.
    - intros (x & -> & Hin).
      destruct (last (List.filter _ h)) as [y|] eqn:Hlast; [by eexists|].
      apply last_None in Hlast.
      assert (Hx : In x (List.filter
                (λ y, bool_decide (hist_decisionId y = hist_decisionId x)) h)).
      { apply filter_In. split; [by apply list_elem_of_In|].
        by apply bool_decide_eq_true. }
      rewrite Hlast in Hx. destruct Hx. }
  assert (Hsome : ∀ o,
    o ≠ "" →
    GameEngine.wasChoiceMade decisionId (Some o) g
    = (Returned
         (bool_decide
            ((decisionId, o)
             ∈ (λ x, (hist_decisionId x, hist_optionId x)) <$> h)), g)).
  { intros o Hne. unfold GameEngine.wasChoiceMade, or_null.
    rewrite decide_False by done.
    assert (Hq : wasChoiceMade decisionId o (game_engine g, game_browser g)
      = (Returned (existsb (λ x, bool_decide (hist_decisionId x = decisionId)
                                 && bool_decide (hist_optionId x = o)) h),
         (game_engine g, game_browser g))) by done.
    rewrite (engine_call_pure _ _ _ Hq). do 2 f_equal.
    apply eq_true_iff_eq. rewrite existsb_exists, bool_decide_eq_true.
    rewrite list_elem_of_fmap. split.
    - intros (x & Hin & Hx). apply andb_true_iff in Hx as [H1 H2].
      apply bool_decide_eq_true in H1, H2. exists x.
      rewrite list_elem_of_In. by subst.
    - intros (x & [= -> ->] & Hin). exists x.
      rewrite <- list_elem_of_In. split; [done|].
      by rewrite !bool_decide_eq_true_2. }
  assert (Hchosen : GameEngine.getChosenOption decisionId g
    = (Returned (or_null (hist_optionId <$> last_choice h decisionId)), g)).
  { unfold GameEngine.getChosenOption.
    by rewrite (G_bind_returned _ _ _ _ _ (getLastChoice_call g decisionId)). }
  split_and!; [done..| |].
  - intros o. rewrite Hchosen. intros [= Ho].
    apply or_null_Some_inv in Ho as [Ho Hne]. rewrite Hsome by done.
    rewrite bool_decide_eq_true_2; [done|].
    apply fmap_Some in Ho as (x & Hlast & ->). unfold last_choice in Hlast.
    apply last_Some_elem_of in Hlast.
    apply list_elem_of_In, filter_In in Hlast as [Hin Hx].
    apply bool_decide_eq_true in Hx. apply list_elem_of_fmap. exists x.
    rewrite list_elem_of_In. by subst.
  - intros o. rewrite (Hnone None) by done.
    destruct (decide (o = "")) as [->|Hne]; [by rewrite (Hnone (Some ""))|].
    rewrite Hsome by done. intros [= Hin%bool_decide_eq_true].
    rewrite bool_decide_eq_true_2; [done|].
    apply list_elem_of_fmap in Hin as (x & [= -> ->] & Hin).
    apply list_elem_of_fmap. by exists x.
Qed.

(** ** The summary of the relationship *)

Lemma getMemories_call g mems :
  memories (playerState (game_engine g)) = Live mems →
  engine_call getMemories g = (Returned mems, g).
Proof.
  intros Hm. apply engine_call_pure. unfold getMemories. run.
  by rewrite Hm.
Qed.

Lemma generateSummaryText_run g :
  ∃ text,
    RelationshipEngine.generateSummaryText g = (Returned text, g)
    ∧ let net := (trust_of (game_engine g) - guard_of (game_engine g))%Z in
      ((25 ≤ net)%Z →
       text = "You've built something real. The walls are down. She sees you.")
      ∧ ((net < -5)%Z →
         text = "You're protecting yourself. Maybe too much. The door is closing."
         ∨ text = "The walls are up. You've chosen safety over risk.")
      ∧ (text = "The walls are up. You've chosen safety over risk."
         ↔ (net < -10)%Z).
Proof.
  unfold RelationshipEngine.generateSummaryText.
  rewrite (G_bind_returned _ _ _ _ _ (trust_call g)).
  rewrite (G_bind_returned _ _ _ _ _ (guard_call g)).
  eexists. split; [done|]. cbn zeta.
  repeat (match goal with
          | |- context [(?a <=? ?b)%Z] =>
              let H := fresh in
              destruct (a <=? b)%Z eqn:H;
              [apply Z.leb_le in H|apply Z.leb_gt in H]
          end); split_and!; try done; try lia; auto; split; try done; lia.
Qed.

(** X27.  On a page whose decision engine has live collections,
    [initialize] of the relationship engine followed by
    [getRelationshipSummary] returns a summary and the second call changes
    nothing: [trust] and [guard] are the stats ([0] for a stat that is
    not set), [net] is their difference, [phase] is the phase of [net],
    [memories] counts the stored memories and [milestones] the milestones
    reached with the active flags.  The text agrees with the phase: phase
    [intimate] comes with the text on something real, phase [strangers]
    with one of the two texts on protection, and the text on the walls
    being up is given exactly below a difference of -10.  [getPhase] of
    the facade returns the phase of the summary. *)
Theorem summary_agrees_with_phase_after_initialize g flags mems :
  live_game g →
  activeFlags (playerState (game_engine g)) = Live flags →
  memories (playerState (game_engine g)) = Live mems →
  ∃ g' s,
    RelationshipEngine.initialize g = (Returned (), g')
    ∧ RelationshipEngine.getRelationshipSummary g' = (Returned s, g')
    ∧ sum_trust s = trust_of (game_engine g)
    ∧ sum_guard s = guard_of (game_engine g)
    ∧ sum_net s = (sum_trust s - sum_guard s)%Z
    ∧ sum_phase s = phase_of_net (sum_net s)
    ∧ sum_memories s = length mems
    ∧ sum_milestones s
      = length (List.filter (λ kv, reached flags kv.2) milestones)
    ∧ (sum_phase s = "intimate" →
       sum_summary s
       = "You've built something real. The walls are down. She sees you.")
    ∧ (sum_phase s = "strangers" →
       sum_summary s
       = "You're protecting yourself. Maybe too much. The door is closing."
       ∨ sum_summary s = "The walls are up. You've chosen safety over risk.")
    ∧ (sum_summary s = "The walls are up. You've chosen safety over risk."
       ↔ (sum_net s < -10)%Z)
    ∧ GameEngine.getPhase g' = (Returned (sum_phase s), g').
Proof.
  intros Hlive Hf Hm.
  destruct (initialize_run g flags Hlive Hf) as (r' & Hrun & Hphase & _).
  set (g' := set_relationship g r').
  destruct (generateSummaryText_run g') as (text & Htext & H25 & H5 & H10).
  cbn [game_engine set_relationship g'] in H25, H5, H10.
  assert (Hsum : RelationshipEngine.getRelationshipSummary g'
    = (Returned
         {| sum_phase := phase r';
            sum_trust := trust_of (game_engine g);
            sum_guard := guard_of (game_engine g);
            sum_net := trust_of (game_engine g) - guard_of (game_engine g);
            sum_memories := length mems;
            sum_milestones :=
              length (List.filter (λ kv, reached flags kv.2) milestones);
            sum_soilType := soilType r';
            sum_firstImpression := firstImpression r';
            sum_summary := text |}, g')).
  { unfold RelationshipEngine.getRelationshipSummary.
    rewrite (G_bind_returned _ _ _ _ _ (trust_call g')).
    rewrite (G_bind_returned _ _ _ _ _ (guard_call g')).
    rewrite (G_bind_returned _ _ _ _ _ (getMemories_call g' mems Hm)).
    unfold RelationshipEngine.getMilestones.
    rewrite (G_bind_returned _ _ _ _ _
               (getMilestones_loop_run g' flags milestones [] Hf
                  milestones_own)).
    assert (Hr : get_relationship g' = (Returned r', g')) by done.
    rewrite (G_bind_returned _ _ _ _ _ Hr).
    by rewrite (G_bind_returned _ _ _ _ _ Htext). }
  eexists g', _. split; [exact Hrun|]. split; [exact Hsum|].
  cbn [sum_phase sum_trust sum_guard sum_net sum_memories sum_milestones
       sum_summary].
  split_and!; try done.
  - rewrite Hphase. intros Hp. apply H25. revert Hp. unfold phase_of_net.
    repeat (match goal with
            | |- context [(?a <? ?b)%Z] =>
                let H := fresh in
                destruct (a <? b)%Z eqn:H;
                [apply Z.ltb_lt in H|apply Z.ltb_ge in H]
            end); done.
  - rewrite Hphase, phase_of_net_strangers. exact H5.
  - unfold GameEngine.getPhase.
    rewrite (G_bind_returned _ _ _ _ _ Hsum). cbn [sum_phase].
    rewrite decide_False; [done|]. rewrite Hphase. unfold phase_of_net.
    repeat (match goal with
            | |- context [(?a <? ?b)%Z] => destruct (a <? b)%Z
            end); done.
Qed.

Lemma summary_agrees_with_phase_after_initialize_witness :
  ∃ g' s,
    RelationshipEngine.initialize (newGame empty_browser None)
    = (Returned (), g')
    ∧ RelationshipEngine.getRelationshipSummary g' = (Returned s, g')
    ∧ sum_net s = 0%Z ∧ sum_phase s = "acquaintances".
Proof.
  assert (Hlive : live_game (newGame empty_browser None))
    by (by exists [], [], []).
  destruct (summary_agrees_with_phase_after_initialize
              (newGame empty_browser None) [] [] Hlive eq_refl eq_refl)
    as (g' & s & Hrun & Hsum & Ht & Hg & Hnet & Hphase & _).
  exists g', s. split; [exact Hrun|]. split; [exact Hsum|].
  assert (Hzero : sum_net s = 0%Z) by (rewrite Hnet, Ht, Hg; reflexivity).
  split; [exact Hzero|]. rewrite Hphase, Hzero. reflexivity.
Defined.

(** ** The facade: [initialize] and [resetAll] *)







(** * Further properties of the engine: callback texts *)



